(** * preconfig: a shallow embedding of the template expander

    The development follows [preconfig.py]: the block scanner [get_block],
    assignment detection [try_assignment], the evaluator wrapper [evaluate],
    the file emitter [make_file], the recursive expander [process], the
    pre-expansion of the initial dictionary [expand_values] and the driver
    [parse].

    Python objects are an inductive type, the dictionary [values] is an
    insertion-ordered association list, the template is a string with a
    read cursor, and the module-level globals of the script, with the
    writes of the run in their order, are the fields of one record that
    every function threads.

    The built-in [eval] and [str] and the functions of [os.path] are the
    interface [Python]; [eval] reads the dictionary and a hidden state (the
    generator behind [random]), returns a fresh object or raises an
    exception of class [Exception].  Strings are read with the rules of
    Python 3 on code points below 256.  The write-only CSV log is left
    out.

    [process] and [expand_values] are recursive on a fuel.  [process]
    returns as soon as the fuel exceeds the number of characters left to
    read (lemma [process_total]).

    [main] is embedded in the module [Main], over an explicit file system;
    the scanner of [extract_bracketed.py] and [assemble] of [scan.py] are
    embedded in the modules [Extract] and [Scan]. *)

From Stdlib Require Import String Ascii List ZArith Lia Bool Arith DecimalString.
From Stdlib Require DecimalNat DecimalFacts Permutation.
Import ListNotations.
Open Scope string_scope.
Set Warnings "-register-all".

(** ** Strings the way the script uses them *)

Module Str.

Definition nonempty (s : string) : bool :=
  match s with EmptyString => false | String _ _ => true end.

(** [s += c] *)
Definition snoc (s : string) (c : ascii) : string := s ++ String c "".

Fixpoint drop (n : nat) (s : string) : string :=
  match n, s with
  | 0, _ => s
  | S _, EmptyString => EmptyString
  | S n', String _ s' => drop n' s'
  end.

Fixpoint take (n : nat) (s : string) : string :=
  match n, s with
  | 0, _ => EmptyString
  | S _, EmptyString => EmptyString
  | S n', String c s' => String c (take n' s')
  end.

(** [s[:-1]] *)
Fixpoint chop (s : string) : string :=
  match s with
  | EmptyString => EmptyString
  | String _ EmptyString => EmptyString
  | String c s' => String c (chop s')
  end.

(** [c in s] *)
Fixpoint mem (c : ascii) (s : string) : bool :=
  match s with
  | EmptyString => false
  | String d s' => Ascii.eqb c d || mem c s'
  end.

(** [code[2:-2]] *)
Definition slice_2_m2 (s : string) : string :=
  take (String.length s - 4) (drop 2 s).

(** [s.partition(sep)] for a one-character separator. *)
Fixpoint partition (sep : ascii) (s : string) : string * string * string :=
  match s with
  | EmptyString => (EmptyString, EmptyString, EmptyString)
  | String c s' =>
      if Ascii.eqb c sep then (EmptyString, String sep EmptyString, s')
      else let '(k, e, v) := partition sep s' in (String c k, e, v)
  end.

(** [str.isspace] on code points below 256. *)
Definition is_space (c : ascii) : bool :=
  let n := nat_of_ascii c in
  (((9 <=? n) && (n <=? 13)) || ((28 <=? n) && (n <=? 32))
   || (n =? 133) || (n =? 160))%nat.

Fixpoint lstrip (s : string) : string :=
  match s with
  | EmptyString => EmptyString
  | String c s' => if is_space c then lstrip s' else s
  end.

Fixpoint rstrip (s : string) : string :=
  match s with
  | EmptyString => EmptyString
  | String c s' =>
      match rstrip s' with
      | EmptyString => if is_space c then EmptyString else String c EmptyString
      | r => String c r
      end
  end.

(** [s.strip()] *)
Definition strip (s : string) : string := rstrip (lstrip s).

Fixpoint spaces (n : nat) : string :=
  match n with 0 => EmptyString | S n' => String " " (spaces n') end.

Fixpoint zeros (n : nat) : string :=
  match n with 0 => EmptyString | S n' => String "0" (zeros n') end.

(** ["%50s" % s] is [rjust 50 s]. *)
Definition rjust (w : nat) (s : string) : string :=
  spaces (w - String.length s) ++ s.

Definition of_nat (n : nat) : string := NilZero.string_of_uint (Nat.to_uint n).

(** ["%0wi" % n] *)
Definition zfill (w n : nat) : string :=
  let d := of_nat n in zeros (w - String.length d) ++ d.

End Str.

(** ** Python objects *)

(** The objects a snippet can evaluate to, as far as the expander tells them
    apart: integers, strings, lists, tuples, and every other object that
    has neither [len()] nor [pop()] (floats, booleans, [None]), kept with
    a label. *)
Inductive value : Type :=
| VInt (z : Z)
| VStr (s : string)
| VList (l : list value)
| VTuple (l : list value)
| VOther (label : string).

(** [len(v)] succeeds. *)
Definition has_len (v : value) : bool :=
  match v with
  | VStr _ | VList _ | VTuple _ => true
  | VInt _ | VOther _ => false
  end.

(** [isinstance(v, str)] *)
Definition is_str (v : value) : bool :=
  match v with VStr _ => true | _ => false end.

(** The elements visited by [for v in vals]. *)
Definition elements (v : value) : list value :=
  match v with
  | VList l | VTuple l => l
  | _ => []
  end.

(** Outcome of [vals.pop()]: lists are the only objects of the model with a
    [pop] method; on an empty list it raises [IndexError]. *)
Inductive pop_result : Type :=
| Popped (last : value) (rest : list value)
| AttributeError
| IndexError.

Fixpoint unsnoc {A : Type} (l : list A) : option (list A * A) :=
  match l with
  | [] => None
  | x :: l' =>
      match unsnoc l' with
      | None => Some ([], x)
      | Some (r, y) => Some (x :: r, y)
      end
  end.

Definition py_pop (v : value) : pop_result :=
  match v with
  | VList l =>
      match unsnoc l with
      | Some (rest, last) => Popped last rest
      | None => IndexError
      end
  | _ => AttributeError
  end.

(** ** The dictionary [values] *)

(** A Python dictionary keeps insertion order: assigning to a present key
    keeps its place, a new key goes last, [pop] removes the entry. *)
Definition context : Type := list (string * value).

Module Dict.

Fixpoint get (k : string) (d : context) : option value :=
  match d with
  | [] => None
  | (k', v) :: d' => if String.eqb k k' then Some v else get k d'
  end.

(** [d[k] = v] *)
Fixpoint set (k : string) (v : value) (d : context) : context :=
  match d with
  | [] => [(k, v)]
  | (k', v') :: d' =>
      if String.eqb k k' then (k', v) :: d' else (k', v') :: set k v d'
  end.

(** [d.pop(k)] *)
Fixpoint pop (k : string) (d : context) : context :=
  match d with
  | [] => []
  | (k', v') :: d' =>
      if String.eqb k k' then d' else (k', v') :: pop k d'
  end.

End Dict.

(** ** The interpreter the script runs on *)

(** Outcome of the built-in [eval]: an object, or an exception of class
    [Exception] with the text of [str(e)]. *)
Inductive eval_result : Type :=
| Returns (v : value)
| Raises (msg : string).

(** What the script takes from Python and does not define itself: [eval]
    over the two scopes [libraries] and [values], reading and advancing the
    hidden state [W] of the interpreter (the generator behind [random]);
    [str], which returns a string unchanged; and the three functions of
    [os.path] used to build file names. *)
Class Python (W : Type) : Type := {
  py_eval : string -> context -> W -> eval_result * W;
  py_str : value -> string;
  py_str_str : forall s, py_str (VStr s) = s;
  os_path_basename : string -> string;
  os_path_splitext : string -> string * string;
  os_path_join : string -> string -> string
}.

(** ** Module-level state *)

(** One write of the run, in the order it happens. *)
Inductive event : Type :=
| OutLine (s : string)                      (* out.write(s) *)
| OutEmit (values : context) (fname : string) (* the two banner lines of make_file *)
| ErrLine (s : string)                      (* sys.stderr.write(s) *)
| Created (fname text : string).            (* open(fname,'w'), write(text), close *)

(** [file_motif]: [main + '%0' + str(nb_digits) + 'i' + ext]. *)
Record motif : Type := {
  motif_main : string;
  motif_width : nat;
  motif_ext : string
}.

(** [motif % index] *)
Definition motif_apply (m : motif) (index : nat) : string :=
  motif_main m ++ Str.zfill (motif_width m) index ++ motif_ext m.

(** The template being read: its characters and the cursor of the file
    object. *)
Record file : Type := {
  content : string;
  pos : nat
}.

Definition open_file (text : string) : file := {| content := text; pos := 0 |}.
Definition tell (f : file) : nat := pos f.
Definition seek (p : nat) (f : file) : file := {| content := content f; pos := p |}.
Definition remaining (f : file) : string := Str.drop (pos f) (content f).

(** The globals of the script.  [out_verbose] tells whether [out] is
    [sys.stderr] (option [+]) or the null device (the default); [rng] is
    the hidden state of the interpreter. *)
Record state (W : Type) : Type := {
  target_dir : string;
  nb_digits : nat;
  file_motif : motif;
  file_index : nat;
  files_made : list string;
  template_name : string;
  out_verbose : bool;
  rng : W;
  trace : list event
}.

Arguments target_dir {W} _.
Arguments nb_digits {W} _.
Arguments file_motif {W} _.
Arguments file_index {W} _.
Arguments files_made {W} _.
Arguments template_name {W} _.
Arguments out_verbose {W} _.
Arguments rng {W} _.
Arguments trace {W} _.

Section Script.

Context {W : Type} {Py : Python W}.

#[local] Abbreviation state := (state W).

Definition log_event (ev : event) (st : state) : state :=
  {| target_dir := target_dir st; nb_digits := nb_digits st;
     file_motif := file_motif st; file_index := file_index st;
     files_made := files_made st; template_name := template_name st;
     out_verbose := out_verbose st; rng := rng st;
     trace := (trace st ++ [ev])%list |}.

Definition out_write (s : string) (st : state) : state := log_event (OutLine s) st.
Definition err_write (s : string) (st : state) : state := log_event (ErrLine s) st.

(** The lines one call of [get_block] sends to [out]. *)
Definition out_writes (msgs : list string) (st : state) : state :=
  fold_left (fun st m => out_write m st) msgs st.

Definition CODE_IN : ascii := "[".
Definition CODE_OUT : ascii := "]".

Definition msg_unbalanced : string :=
  "Error: unbalanced brackets" ++ String (ascii_of_nat 10) "".
Definition msg_eof : string :=
  "Error: EOF encoutered within bracketted block" ++ String (ascii_of_nat 10) "".

(** *** set_name_motif, next_file_name, make_file *)

Definition set_name_motif (name : string) (st : state) : state :=
  let file := os_path_basename name in
  let '(main, ext) := os_path_splitext file in
  let '(main, ext) :=
    if Str.mem "." main then os_path_splitext main else (main, ext) in
  let m := {| motif_main := main; motif_width := nb_digits st; motif_ext := ext |} in
  let m :=
    if Str.nonempty (target_dir st)
    then {| motif_main := os_path_join (target_dir st) main;
            motif_width := nb_digits st; motif_ext := ext |}
    else m in
  {| target_dir := target_dir st; nb_digits := nb_digits st;
     file_motif := m; file_index := file_index st;
     files_made := files_made st; template_name := template_name st;
     out_verbose := out_verbose st; rng := rng st; trace := trace st |}.

Definition next_file_name (st : state) : string * state :=
  let n := motif_apply (file_motif st) (file_index st) in
  (n, {| target_dir := target_dir st; nb_digits := nb_digits st;
         file_motif := file_motif st; file_index := S (file_index st);
         files_made := files_made st; template_name := template_name st;
         out_verbose := out_verbose st; rng := rng st; trace := trace st |}).

Definition extend_files_made (fname : string) (st : state) : state :=
  {| target_dir := target_dir st; nb_digits := nb_digits st;
     file_motif := file_motif st; file_index := file_index st;
     files_made := (files_made st ++ [fname])%list; template_name := template_name st;
     out_verbose := out_verbose st; rng := rng st; trace := trace st |}.

(** The write-only CSV log (option [log]) is left out. *)
Definition make_file (text : string) (values : context) (st : state)
  : context * state :=
  let '(fname, st) := next_file_name st in
  let st := log_event (Created fname text) st in
  let st := extend_files_made fname st in
  let st := log_event (OutEmit values fname) st in
  (Dict.set "n" (VInt (Z.of_nat (file_index st))) values, st).

(** *** pop_sequence, try_assignment, evaluate *)

Fixpoint find_sequence (d : context) : option (string * value) :=
  match d with
  | [] => None
  | (k, v) :: d' =>
      if has_len v && negb (is_str v) then Some (k, v) else find_sequence d'
  end.

Definition pop_sequence (dic : context) : string * value * context :=
  match find_sequence dic with
  | Some (k, v) => (k, v, Dict.pop k dic)
  | None => ("", VList [], dic)
  end.

Definition try_assignment (cmd : string) : string * string :=
  let '(k, e, v) := Str.partition "=" cmd in
  if Str.nonempty k && Str.nonempty v && String.eqb e "="
  then (Str.strip k, Str.strip v)
  else ("", cmd).

Definition set_rng (w : W) (st : state) : state :=
  {| target_dir := target_dir st; nb_digits := nb_digits st;
     file_motif := file_motif st; file_index := file_index st;
     files_made := files_made st; template_name := template_name st;
     out_verbose := out_verbose st; rng := w; trace := trace st |}.

Definition esc : string := String (ascii_of_nat 27) "".
Definition nl : string := String (ascii_of_nat 10) "".

Definition evaluate (cmd : string) (values : context) (st : state)
  : value * state :=
  let '(r, w) := py_eval cmd values (rng st) in
  let st := set_rng w st in
  match r with
  | Returns res => (res, st)
  | Raises e =>
      let st := err_write (esc ++ "[95m") st in
      let st := err_write ("Error in file `" ++ template_name st ++ "`:" ++ nl) st in
      let st := err_write (esc ++ "[0m") st in
      let st := err_write ("    Could not evaluate [[" ++ cmd ++ "]]" ++ nl) st in
      let st := err_write ("    " ++ e ++ nl) st in
      (VStr cmd, st)
  end.

(** *** get_block *)

(** The [while ch:] loop, by recursion on the characters still to read:
    [pc] is the previous character, the head of [rest] is what
    [file.read(1)] returns next, [n] counts the characters read so far and
    [msgs] the lines written to [out]. *)
Fixpoint get_block_loop (s e : ascii) (rest : string) (pc : ascii)
    (dep1 : Z) (dep2 : bool) (pre blk : string) (msgs : list string) (n : nat)
  : string * string * bool * list string * nat :=
  match rest with
  | EmptyString =>
      (pre, "", true, if Str.nonempty blk then (msgs ++ [msg_eof])%list else msgs, n)
  | String ch rest' =>
      let dep1 := if Ascii.eqb ch s then (dep1 + 1)%Z else dep1 in
      let dep2 := if Ascii.eqb ch s && Ascii.eqb pc s then true else dep2 in
      let blk := if dep2 then Str.snoc blk pc else blk in
      let pre := if dep2 then pre else Str.snoc pre pc in
      if Ascii.eqb ch e then
        let dep1 := (dep1 - 1)%Z in
        let msgs := if (dep1 <? 0)%Z then (msgs ++ [msg_unbalanced])%list else msgs in
        if Ascii.eqb pc e && (dep1 =? 0)%Z
        then (pre, Str.snoc blk ch, false, msgs, S n)
        else get_block_loop s e rest' ch dep1 dep2 pre blk msgs (S n)
      else get_block_loop s e rest' ch dep1 dep2 pre blk msgs (S n)
  end.

Definition scan (s e : ascii) (text : string)
  : string * string * bool * list string * nat :=
  match text with
  | EmptyString => ("", "", true, [], 0)
  | String ch rest =>
      get_block_loop s e rest ch (if Ascii.eqb ch s then 1%Z else 0%Z)
        false "" "" [] 1
  end.

Definition get_block (f : file) (s e : ascii) (st : state)
  : string * string * bool * file * state :=
  let '(pre, blk, eof, msgs, n) := scan s e (remaining f) in
  (pre, blk, eof, seek (pos f + n) f, out_writes msgs st).

(** *** process and expand_values *)

(** A [for] loop whose body may run out of fuel. *)
Fixpoint for_each {A S : Type} (l : list A) (body : A -> S -> option S) (s : S)
  : option S :=
  match l with
  | [] => Some s
  | x :: l' =>
      match body x s with
      | Some s' => for_each l' body s'
      | None => None
      end
  end.

Definition line_bound (key shown : string) : string :=
  "|" ++ Str.rjust 50 key ++ " <-- " ++ shown ++ nl.
Definition line_subst (code shown : string) : string :=
  "|" ++ Str.rjust 50 code ++ " --> " ++ shown ++ nl.

(** The shared objects a call works on: the file object, the dictionary
    and the globals. *)
Definition store : Type := (file * context * state)%type.

Definition rewind (ipos : nat) (r : option store) : option store :=
  match r with
  | Some (f, vs, st) => Some (seek ipos f, vs, st)
  | None => None
  end.

(** [fuel] bounds the number of blocks read along one path; each turn of
    [while ifile:] is one recursive call. *)
Fixpoint process (fuel : nat) (ifile : file) (values : context) (text : string)
    (st : state) : option store :=
  match fuel with
  | 0 => None
  | S fuel' =>
      let '(pre, code, eof, ifile, st) := get_block ifile CODE_IN CODE_OUT st in
      let output := text ++ pre in
      if eof then
        let '(values, st) := make_file output values st in
        Some (ifile, values, st)
      else
        let cmd := Str.slice_2_m2 code in
        let '(key, vals) := try_assignment cmd in
        let '(vals, st) := evaluate vals values st in
        let '(val, forked) :=
          match py_pop vals with
          | Popped val vals =>
              let ipos := tell ifile in
              (val,
               for_each vals
                 (fun v '(ifile, values, st) =>
                    rewind ipos
                      (if Str.nonempty key
                       then process fuel' ifile (Dict.set key v values) output
                              (out_write (line_bound key (py_str v)) st)
                       else process fuel' ifile values (output ++ py_str v)
                              (out_write (line_subst code (py_str v)) st)))
                 (ifile, values, st))
          | AttributeError | IndexError => (vals, Some (ifile, values, st))
          end in
        match forked with
        | None => None
        | Some (ifile, values, st) =>
            if Str.nonempty key
            then process fuel' ifile (Dict.set key val values) output
                   (out_write (line_bound key (py_str val)) st)
            else process fuel' ifile values (output ++ py_str val)
                   (out_write (line_subst code (py_str val)) st)
        end
  end.

Fixpoint expand_values (fuel : nat) (ifile : file) (values : context)
    (text : string) (st : state) : option store :=
  match fuel with
  | 0 => None
  | S fuel' =>
      let '(key, vals, values) := pop_sequence values in
      if Str.nonempty key then
        let ipos := tell ifile in
        match for_each (elements vals)
                (fun v '(ifile, values, st) =>
                   rewind ipos
                     (expand_values fuel' ifile (Dict.set key v values) text st))
                (ifile, values, st) with
        | Some (ifile, values, st) => Some (ifile, Dict.set key vals values, st)
        | None => None
        end
      else process fuel' ifile values text st
  end.

End Script.

Section Driver.

Context {W : Type} {Py : Python W}.

#[local] Abbreviation state := (state W).

Definition begin_template (iname : string) (st : state) : state :=
  let st := set_name_motif iname st in
  {| target_dir := target_dir st; nb_digits := nb_digits st;
     file_motif := file_motif st; file_index := file_index st;
     files_made := []; template_name := iname;
     out_verbose := out_verbose st; rng := rng st; trace := trace st |}.

(** [parse(iname, values, repeat)]; [text] is what [open(iname, 'r')]
    reads.  The dictionary is the caller's object, so it is returned along
    with [files_made]. *)
Definition parse (fuel : nat) (iname text : string) (values : context)
    (repeat : nat) (st : state) : option (list string * context * state) :=
  let values := Dict.set "n" (VInt 0) values in
  let st := begin_template iname st in
  match for_each (seq 0 repeat)
          (fun _ '(values, st) =>
             match expand_values fuel (open_file text) values "" st with
             | Some (_, values, st) => Some (values, st)
             | None => None
             end)
          (values, st) with
  | Some (values, st) => Some (files_made st, values, st)
  | None => None
  end.

(** The last loop of [main]: [for i in inputs: res = parse(i, values, repeat)],
    each input given with the text of its file. *)
Definition parse_inputs (fuel : nat) (inputs : list (string * string))
    (values : context) (repeat : nat) (st : state) : option (context * state) :=
  for_each inputs
    (fun '(iname, text) '(values, st) =>
       match parse fuel iname text values repeat st with
       | Some (_, values, st) => Some (values, st)
       | None => None
       end)
    (values, st).

(** The globals as the module initialises them. *)
Definition initial_state (w : W) : state :=
  {| target_dir := ""; nb_digits := 4;
     file_motif := {| motif_main := "config"; motif_width := 4; motif_ext := ".txt" |};
     file_index := 0; files_made := []; template_name := "";
     out_verbose := false; rng := w; trace := [] |}.

(** What the run left on disk, in order of creation. *)
Fixpoint created (tr : list event) : list (string * string) :=
  match tr with
  | [] => []
  | Created fname text :: tr' => (fname, text) :: created tr'
  | _ :: tr' => created tr'
  end.

Definition texts (tr : list event) : list string := map snd (created tr).

(** The dictionaries shown by [make_file], one per emission. *)
Fixpoint emitted (tr : list event) : list context :=
  match tr with
  | [] => []
  | OutEmit values _ :: tr' => values :: emitted tr'
  | _ :: tr' => emitted tr'
  end.

(** What reached [sys.stderr]: the writes of [evaluate], and those to [out]
    when [out] is [sys.stderr]. *)
Fixpoint stderr_of (verbose : bool) (tr : list event) : list string :=
  match tr with
  | [] => []
  | ErrLine s :: tr' => s :: stderr_of verbose tr'
  | OutLine s :: tr' => if verbose then s :: stderr_of verbose tr' else stderr_of verbose tr'
  | _ :: tr' => stderr_of verbose tr'
  end.

End Driver.

(** ** main *)

Module Main.

(** What [main] asks of the file system.  [log.csv] is opened for writing
    when the argument [log] is met, and the files of a template exist when
    the next template is read: whether a name is a file may depend on the
    first, and the text read from a file on both.  Opening
    [log.csv], or a file that [os.path.isfile] accepted, does not fail. *)
Record disk : Type := {
  isdir : string -> bool;
  isfile : bool -> string -> bool;
  read_file : bool -> list (string * string) -> string -> string
}.

(** The local variables of [main]; [verbose] tells whether [verbose == 1],
    [log] whether [log] is the open file. *)
Record locals : Type := {
  inputs : list string;
  values : context;
  repeat : nat;
  verbose : bool;
  log : bool
}.

(** How [main] ends: it returns, it calls [sys.exit()], or an exception
    leaves it. *)
Inductive ending : Type :=
| Returned
| Exited
| Uncaught (exc : string).

(** [c.isdigit()] on code points below 256: the decimal digits and the
    superscripts two, three and one. *)
Definition isdigit_char (c : ascii) : bool :=
  let n := nat_of_ascii c in
  (((48 <=? n) && (n <=? 57)) || (n =? 178) || (n =? 179) || (n =? 185))%nat.

Fixpoint all_chars (p : ascii -> bool) (s : string) : bool :=
  match s with
  | EmptyString => true
  | String c s' => p c && all_chars p s'
  end.

(** [s.isdigit()] *)
Definition isdigit (s : string) : bool :=
  Str.nonempty s && all_chars isdigit_char s.

Fixpoint int_acc (acc : nat) (s : string) : option nat :=
  match s with
  | EmptyString => Some acc
  | String c s' =>
      let n := nat_of_ascii c in
      if ((48 <=? n) && (n <=? 57))%nat
      then int_acc (10 * acc + (n - 48)) s'
      else None
  end.

(** [int(s)] for a string of digits; [None] stands for [ValueError], which
    the superscript digits raise. *)
Definition int (s : string) : option nat :=
  if Str.nonempty s then int_acc 0 s else None.

Section Run.

Context {W : Type} {Py : Python W}.
Variable fs : disk.

#[local] Abbreviation state := (state W).

Definition set_target_dir (d : string) (st : state) : state :=
  {| target_dir := d; nb_digits := nb_digits st;
     file_motif := file_motif st; file_index := file_index st;
     files_made := files_made st; template_name := template_name st;
     out_verbose := out_verbose st; rng := rng st; trace := trace st |}.

Definition set_nb_digits (n : nat) (st : state) : state :=
  {| target_dir := target_dir st; nb_digits := n;
     file_motif := file_motif st; file_index := file_index st;
     files_made := files_made st; template_name := template_name st;
     out_verbose := out_verbose st; rng := rng st; trace := trace st |}.

(** [out = sys.stderr] *)
Definition set_out_stderr (st : state) : state :=
  {| target_dir := target_dir st; nb_digits := nb_digits st;
     file_motif := file_motif st; file_index := file_index st;
     files_made := files_made st; template_name := template_name st;
     out_verbose := true; rng := rng st; trace := trace st |}.

Definition msg_unexpected (arg : string) : string :=
  "  Error: unexpected argument `" ++ arg ++ "'" ++ nl.

Definition msg_no_input : string :=
  "  Error: you must specify an input template file" ++ nl.

(** One turn of [for arg in args]. *)
Definition main_arg (arg : string) (l : locals) (st : state)
  : (locals * state) + (ending * state) :=
  if isdir fs arg then inl (l, set_target_dir arg st)
  else if isfile fs (log l) arg then
    inl ({| inputs := (inputs l ++ [arg])%list; values := values l;
            repeat := repeat l; verbose := verbose l; log := log l |}, st)
  else if isdigit arg then
    match int arg with
    | Some n =>
        inl ({| inputs := inputs l; values := values l;
                repeat := n; verbose := verbose l; log := log l |}, st)
    | None => inr (Uncaught "ValueError", st)
    end
  else if String.eqb arg "-" then
    inl ({| inputs := inputs l; values := values l;
            repeat := repeat l; verbose := false; log := log l |}, st)
  else if String.eqb arg "+" then
    inl ({| inputs := inputs l; values := values l;
            repeat := repeat l; verbose := false; log := log l |},
         set_out_stderr st)
  else if String.eqb arg "log" then
    inl ({| inputs := inputs l; values := values l;
            repeat := repeat l; verbose := verbose l; log := true |}, st)
  else
    match arg with
    | EmptyString => inr (Uncaught "IndexError", st)
    | String c rest =>
        if Ascii.eqb c "-" && isdigit rest then
          match int rest with
          | Some n => inl (l, set_nb_digits n st)
          | None => inr (Uncaught "ValueError", st)
          end
        else
          let '(k, v) := try_assignment arg in
          if Str.nonempty k then
            let '(res, st) := evaluate v (values l) st in
            inl ({| inputs := inputs l; values := Dict.set k res (values l);
                    repeat := repeat l; verbose := verbose l; log := log l |}, st)
          else inr (Exited, err_write (msg_unexpected arg) st)
    end.

Fixpoint main_args (args : list string) (l : locals) (st : state)
  : (locals * state) + (ending * state) :=
  match args with
  | [] => inl (l, st)
  | arg :: args' =>
      match main_arg arg l st with
      | inl (l', st') => main_args args' l' st'
      | inr e => inr e
      end
  end.

Definition start : locals :=
  {| inputs := []; values := []; repeat := 1; verbose := true; log := false |}.

(** [main(args)]: how it ends, the names it printed on the standard
    output, and the globals it leaves. *)
Definition main (fuel : nat) (args : list string) (st : state)
  : option (ending * list string * state) :=
  match main_args args start st with
  | inr (e, st) => Some (e, [], st)
  | inl (l, st) =>
      match inputs l with
      | [] => Some (Exited, [], err_write msg_no_input st)
      | _ =>
          match
            for_each (inputs l)
              (fun i '(vs, st, printed) =>
                 let text := read_file fs (log l) (created (trace st)) i in
                 match parse fuel i text vs (repeat l) st with
                 | Some (res, vs, st) =>
                     Some (vs, st, if verbose l then (printed ++ res)%list else printed)
                 | None => None
                 end)
              (values l, st, [])
          with
          | Some (_, st, printed) => Some (Returned, printed, st)
          | None => None
          end
      end
  end.

End Run.

End Main.

(** ** extract_bracketed.py *)

Module Extract.

(** The variables of [process]: the blocks found so far, each with the
    line where it ends, the content being collected, the current line
    and the number of brackets open. *)
Record scanner : Type := {
  all : list (string * nat);
  res : string;
  line : nat;
  depth : Z
}.

(** The body of [for c in chunk]. *)
Definition step (s : scanner) (c : ascii) : scanner :=
  let s :=
    if Ascii.eqb c "]" then
      let s :=
        if (depth s =? 2)%Z && Str.nonempty (res s)
        then {| all := (all s ++ [(res s, line s)])%list; res := "";
                line := line s; depth := depth s |}
        else s in
      {| all := all s; res := res s; line := line s; depth := (depth s - 1)%Z |}
    else s in
  let s :=
    if (depth s >=? 2)%Z
    then {| all := all s; res := Str.snoc (res s) c; line := line s;
            depth := depth s |}
    else s in
  let s :=
    if Ascii.eqb c "["
    then {| all := all s; res := res s; line := line s; depth := (depth s + 1)%Z |}
    else s in
  if Ascii.eqb c (ascii_of_nat 10)
  then {| all := all s; res := res s; line := S (line s); depth := depth s |}
  else s.

(** The two loops, over the chunks and over their characters, visit the
    characters of the file in order. *)
Fixpoint run (text : string) (s : scanner) : scanner :=
  match text with
  | EmptyString => s
  | String c text' => run text' (step s c)
  end.

(** [process(file)], given the text of the file. *)
Definition process (text : string) : list (string * nat) :=
  all (run text {| all := []; res := ""; line := 1; depth := 0 |}).

End Extract.

(** ** scan.py *)

Module Scan.

(** [s.replace('\n', ' ')] *)
Fixpoint unfold_lines (s : string) : string :=
  match s with
  | EmptyString => EmptyString
  | String c s' =>
      String (if Ascii.eqb c (ascii_of_nat 10) then " "%char else c)
        (unfold_lines s')
  end.

(** [assemble(path, lines, verb)] *)
Definition assemble {W : Type} {Py : Python W} (path : string)
    (lines : list string) (verb : Z) : string :=
  if (verb =? 2)%Z then fold_left (fun res s => res ++ s) lines ""
  else if (verb =? 1)%Z then
    fold_left (fun res s => res ++ unfold_lines s) lines
      (os_path_basename path ++ " ")
    ++ nl
  else fold_left (fun res s => res ++ s) lines "".

End Scan.

(** ** A small interpreter for examples

    Enough of Python to run the examples of the documentation: integer
    literals, names looked up in [values], list displays and parenthesised
    tuples, nested at will. *)

Module Mini.

Inductive expr : Type :=
| ENum (z : Z)
| EName (x : string)
| EList (l : list expr)
| ETuple (l : list expr).

Definition is_digit (c : ascii) : bool :=
  let n := nat_of_ascii c in ((48 <=? n) && (n <=? 57))%nat.

Definition is_alpha (c : ascii) : bool :=
  let n := nat_of_ascii c in
  (((65 <=? n) && (n <=? 90)) || ((97 <=? n) && (n <=? 122)) || (n =? 95))%nat.

Definition is_blank (c : ascii) : bool :=
  let n := nat_of_ascii c in ((n =? 32) || (n =? 9) || (n =? 10))%nat.

Fixpoint skip (s : string) : string :=
  match s with
  | String c s' => if is_blank c then skip s' else s
  | EmptyString => EmptyString
  end.

Fixpoint digits (acc : Z) (s : string) : Z * string :=
  match s with
  | String c s' =>
      if is_digit c
      then digits (10 * acc + Z.of_nat (nat_of_ascii c - 48)) s'
      else (acc, s)
  | EmptyString => (acc, s)
  end.

Fixpoint ident (s : string) : string * string :=
  match s with
  | String c s' =>
      if is_alpha c || is_digit c
      then let '(x, r) := ident s' in (String c x, r)
      else (EmptyString, s)
  | EmptyString => (EmptyString, s)
  end.

(** [atom] reads one expression, [items] the comma-separated expressions
    up to the closing character (the flag tells whether a comma was
    seen). *)
Fixpoint atom (fuel : nat) (s : string) : option (expr * string) :=
  match fuel with
  | 0 => None
  | S fuel' =>
      match skip s with
      | EmptyString => None
      | String c s' =>
          if is_digit c then
            let '(z, r) := digits 0 (String c s') in Some (ENum z, r)
          else if Ascii.eqb c "-" then
            match skip s' with
            | String d s'' =>
                if is_digit d
                then let '(z, r) := digits 0 (String d s'') in Some (ENum (- z), r)
                else None
            | EmptyString => None
            end
          else if is_alpha c then
            let '(x, r) := ident (String c s') in Some (EName x, r)
          else if Ascii.eqb c "[" then
            match items fuel' "]" s' with
            | Some (l, _, r) => Some (EList l, r)
            | None => None
            end
          else if Ascii.eqb c "(" then
            match items fuel' ")" s' with
            | Some ([e], false, r) => Some (e, r)
            | Some (l, _, r) => Some (ETuple l, r)
            | None => None
            end
          else None
      end
  end
with items (fuel : nat) (close : ascii) (s : string)
  : option (list expr * bool * string) :=
  match fuel with
  | 0 => None
  | S fuel' =>
      match skip s with
      | EmptyString => None
      | String c s' =>
          if Ascii.eqb c close then Some ([], false, s')
          else
            match atom fuel' (String c s') with
            | None => None
            | Some (e, r) =>
                match skip r with
                | String d r' =>
                    if Ascii.eqb d close then Some ([e], false, r')
                    else if Ascii.eqb d "," then
                      match items fuel' close r' with
                      | Some (l, _, r'') => Some (e :: l, true, r'')
                      | None => None
                      end
                    else None
                | EmptyString => None
                end
            end
      end
  end.

Definition read (s : string) : option expr :=
  match atom (S (String.length s)) s with
  | Some (e, r) => match skip r with EmptyString => Some e | _ => None end
  | None => None
  end.

Fixpoint collect (rs : list eval_result) : list value + string :=
  match rs with
  | [] => inl []
  | Raises m :: _ => inr m
  | Returns v :: rs' =>
      match collect rs' with
      | inl vs => inl (v :: vs)
      | inr m => inr m
      end
  end.

(** Evaluation in the scope [values]; an unbound name raises
    [NameError]. *)
Fixpoint run (values : context) (e : expr) : eval_result :=
  match e with
  | ENum z => Returns (VInt z)
  | EName x =>
      match Dict.get x values with
      | Some v => Returns v
      | None => Raises ("name '" ++ x ++ "' is not defined")
      end
  | EList l =>
      match collect (map (run values) l) with
      | inl vs => Returns (VList vs)
      | inr m => Raises m
      end
  | ETuple l =>
      match collect (map (run values) l) with
      | inl vs => Returns (VTuple vs)
      | inr m => Raises m
      end
  end.

Definition eval (cmd : string) (values : context) (w : unit)
  : eval_result * unit :=
  match read cmd with
  | Some e => (run values e, w)
  | None => (Raises "invalid syntax (<string>, line 1)", w)
  end.

Definition show_int (z : Z) : string :=
  match z with
  | Z0 => "0"
  | Zpos p => Str.of_nat (Pos.to_nat p)
  | Zneg p => "-" ++ Str.of_nat (Pos.to_nat p)
  end.

(** [repr]; string literals are quoted without escapes, which is what
    Python prints for the strings of the examples (letters, digits,
    spaces and [=]). *)
Fixpoint repr (v : value) : string :=
  match v with
  | VInt z => show_int z
  | VStr s => "'" ++ s ++ "'"
  | VList l => "[" ++ String.concat ", " (map repr l) ++ "]"
  | VTuple [x] => "(" ++ repr x ++ ",)"
  | VTuple l => "(" ++ String.concat ", " (map repr l) ++ ")"
  | VOther label => label
  end.

Definition str (v : value) : string :=
  match v with
  | VStr s => s
  | _ => repr v
  end.

(** [os.path] on names without directory part and with at most the two
    extensions of a template name. *)
Fixpoint splitext (s : string) : string * string :=
  match s with
  | EmptyString => (EmptyString, EmptyString)
  | String c s' =>
      let '(m, e) := splitext s' in
      if Str.nonempty e then (String c m, e)
      else if Ascii.eqb c "." then (EmptyString, s)
      else (String c m, e)
  end.

#[export] Instance python : Python unit := {|
  py_eval := eval;
  py_str := str;
  py_str_str := fun _ => eq_refl;
  os_path_basename := fun s => s;
  os_path_splitext := splitext;
  os_path_join := fun d s => d ++ "/" ++ s
|}.

End Mini.

(** ** Vocabulary of the statements *)

(** Text without brackets. *)
Definition plain (s : string) : bool :=
  negb (Str.mem "[" s) && negb (Str.mem "]" s).

(** The brackets of [s] match, [d] of them being open where it starts. *)
Fixpoint nested (d : nat) (s : string) : bool :=
  match s with
  | EmptyString => Nat.eqb d 0
  | String c s' =>
      if Ascii.eqb c "[" then nested (S d) s'
      else if Ascii.eqb c "]" then
        match d with 0 => false | S d' => nested d' s' end
      else nested d s'
  end.

(** No two closing brackets in a row, [pc] being the character before. *)
Fixpoint no_double_close (pc : ascii) (s : string) : bool :=
  match s with
  | EmptyString => true
  | String c s' =>
      negb (Ascii.eqb pc "]" && Ascii.eqb c "]") && no_double_close c s'
  end.

(** No two opening brackets in a row, [pc] being the character before. *)
Fixpoint no_double_open (pc : ascii) (s : string) : bool :=
  match s with
  | EmptyString => true
  | String c s' =>
      negb (Ascii.eqb c "[" && Ascii.eqb pc "[") && no_double_open c s'
  end.

(** Last character of [String pc p]. *)
Fixpoint last_of (pc : ascii) (p : string) : ascii :=
  match p with
  | EmptyString => pc
  | String c p' => last_of c p'
  end.

(** The values a block result stands for, in the order [process] takes
    them: the elements of a non-empty list, or the object itself. *)
Definition candidates (v : value) : list value :=
  match py_pop v with
  | Popped last rest => rest ++ [last]
  | AttributeError | IndexError => [v]
  end.

(** The values [process] forks on, and the one it keeps for itself. *)
Definition forks (v : value) : list value :=
  match py_pop v with
  | Popped _ rest => rest
  | AttributeError | IndexError => []
  end.

Definition tail_of (v : value) : value :=
  match py_pop v with
  | Popped last _ => last
  | AttributeError | IndexError => v
  end.

(** What [process] does with one value of a block, in a fork as for the
    last value: an assignment goes to the dictionary, anything else is
    appended to the text; either way a line goes to [out]. *)
Definition bound {W : Type} {Py : Python W} (key code : string) (v : value)
    (values : context) (output : string) (st : state W)
  : context * string * state W :=
  if Str.nonempty key
  then (Dict.set key v values, output, out_write (line_bound key (py_str v)) st)
  else (values, output ++ py_str v, out_write (line_subst code (py_str v)) st).

(** The body of [for v in vals] in [process]: bind [v], run the recursive
    call in the dictionary and the globals the previous turn left, and put
    the cursor back. *)
Definition sibling {W : Type} {Py : Python W} (fuel : nat)
    (key code output : string) (ipos : nat) (v : value) (s : @store W)
  : option (@store W) :=
  let '(f, vs, st) := s in
  let '(vs', out', st') := bound key code v vs output st in
  rewind ipos (process fuel f vs' out' st').

(** The body of [for v in vals] in [expand_values]. *)
Definition given_sibling {W : Type} {Py : Python W} (fuel : nat)
    (key text : string) (ipos : nat) (v : value) (s : @store W)
  : option (@store W) :=
  let '(f, vs, st) := s in
  rewind ipos (expand_values fuel f (Dict.set key v vs) text st).

(** A step from [st] to [st'] that makes no file: it may write to [out]
    and [sys.stderr] and advance the interpreter. *)
Definition quiet {W : Type} (st st' : state W) : Prop :=
  file_index st' = file_index st /\
  files_made st' = files_made st /\
  template_name st' = template_name st /\
  created (trace st') = created (trace st) /\
  emitted (trace st') = emitted (trace st).

(** The index of the next file is the number of files made since the
    start of the run. *)
Definition counted {W : Type} (st : state W) : Prop :=
  file_index st = length (created (trace st)).

(** From [st0] to [st] the run stayed counted, and [files_made] grew by
    one name per file. *)
Definition progress {W : Type} (st0 st : state W) : Prop :=
  counted st /\
  file_index st0 <= file_index st /\
  length (files_made st)
  = length (files_made st0) + (file_index st - file_index st0).

(** [n] after a call that started in [st0] with the dictionary [vs0]: the
    index of the next file once a file was made, untouched otherwise. *)
Definition n_follows {W : Type} (st0 : state W) (vs0 : context)
    (st : state W) (vs : context) : Prop :=
  (file_index st0 < file_index st ->
   Dict.get "n" vs = Some (VInt (Z.of_nat (file_index st)))) /\
  (file_index st = file_index st0 -> Dict.get "n" vs = Dict.get "n" vs0).

(** A dictionary holds each key once. *)
Definition wf_dict (d : context) : Prop := NoDup (map fst d).

(** The test of [pop_sequence], negated: [len()] fails or the object is a
    string. *)
Definition scalar (v : value) : bool := negb (has_len v && negb (is_str v)).

Definition all_scalar (d : context) : bool :=
  forallb (fun kv => scalar (snd kv)) d.

(** A scalar, or a non-empty list of scalars. *)
Definition flat (v : value) : bool :=
  scalar v ||
  match v with
  | VList (x :: l) => forallb scalar (x :: l)
  | _ => false
  end.

(** In a dictionary of scalars every snippet evaluates to a scalar or to
    a non-empty list of scalars, when it does not raise. *)
Definition flat_results {W : Type} (Py : Python W) : Prop :=
  forall cmd vs w,
    all_scalar vs = true ->
    match fst (py_eval cmd vs w) with
    | Returns v => flat v = true
    | Raises _ => True
    end.

(** No entry under the empty key, and every file so far was made with a
    dictionary of scalars. *)
Definition scalar_run {W : Type} (vs : context) (st : state W) : Prop :=
  Dict.get "" vs = None /\
  Forall (fun c => all_scalar c = true) (emitted (trace st)).

(** A block of a template with the text before it, and the object its code
    evaluates to. *)
Record block : Type := {
  lead : string;
  body : string;
  result : value
}.

Fixpoint template (bs : list block) (tail : string) : string :=
  match bs with
  | [] => tail
  | b :: bs' => lead b ++ "[[" ++ body b ++ "]]" ++ template bs' tail
  end.

(** The name a block assigns to (empty for a value block) and the code it
    evaluates. *)
Definition target (b : block) : string := fst (try_assignment (body b)).
Definition code_of (b : block) : string := snd (try_assignment (body b)).

(** A block whose code evaluates to the same object whatever the
    dictionary and the state of the interpreter, with plain text before it
    and matching brackets inside. *)
Definition fixed_block {W : Type} {Py : Python W} (b : block) : Prop :=
  plain (lead b) = true /\
  nested 0 (body b) = true /\
  forall values w, fst (py_eval (code_of b) values w) = Returns (result b).

(** Cartesian product in lexicographic order: the first list varies
    slowest. *)
Fixpoint product {A : Type} (ls : list (list A)) : list (list A) :=
  match ls with
  | [] => [[]]
  | l :: ls' => flat_map (fun x => map (cons x) (product ls')) l
  end.

(** The text of the branch that takes [choice] at the blocks [bs]: a
    value block shows its value, an assignment block nothing. *)
Fixpoint render {W : Type} {Py : Python W} (bs : list block) (choice : list value)
  : string :=
  match bs, choice with
  | b :: bs', v :: choice' =>
      lead b ++ (if Str.nonempty (target b) then "" else py_str v)
      ++ render bs' choice'
  | _, _ => ""
  end.

(** The assignments of that branch, in the order of the template. *)
Fixpoint bindings (bs : list block) (choice : list value) : context :=
  match bs, choice with
  | b :: bs', v :: choice' =>
      if Str.nonempty (target b)
      then (target b, v) :: bindings bs' choice'
      else bindings bs' choice'
  | _, _ => []
  end.

Definition assign (bnds : context) (d : context) : context :=
  fold_left (fun d kv => Dict.set (fst kv) (snd kv) d) bnds d.

(** Two dictionaries with the same entries, [n] apart. *)
Definition same_off_n (d d' : context) : Prop :=
  forall k, k <> "n" -> Dict.get k d = Dict.get k d'.

(** A key other than [n] that no block of [bs] assigns to. *)
Definition untouched (bs : list block) (k : string) : Prop :=
  k <> "n" /\
  forall b, In b bs -> Str.nonempty (target b) = true -> target b <> k.

(** The interpreter [Py] with another [eval]. *)
Definition with_eval {W : Type} (Py : Python W)
    (ev : string -> context -> W -> eval_result * W) : Python W :=
  {| py_eval := ev;
     py_str := @py_str W Py;
     py_str_str := @py_str_str W Py;
     os_path_basename := @os_path_basename W Py;
     os_path_splitext := @os_path_splitext W Py;
     os_path_join := @os_path_join W Py |}.

(** ** Templates of the documentation *)

Definition newline : string := String (ascii_of_nat 10) "".

(** Example 1 of the documentation: two parameters with three values
    each. *)
Definition rate_speed : list block :=
  [ {| lead := "rate="; body := " [1, 10, 100] ";
       result := VList [VInt 1; VInt 10; VInt 100] |};
    {| lead := newline ++ "speed="; body := " [-1, 0, 1] ";
       result := VList [VInt (-1); VInt 0; VInt 1] |} ].

(** Two templates for one run: three files, then two. *)
Definition two_inputs : list (string * string) :=
  [ ("a.txt.tpl", "[[ [1, 2, 3] ]]!");
    ("b.txt.tpl", "[[ [7, 8] ]];n=[[ n ]]!") ].

(** [Mini.eval] refusing what is not flat. *)
Definition eval_flat (cmd : string) (values : context) (w : unit)
  : eval_result * unit :=
  match Mini.eval cmd values w with
  | (Returns v, w') =>
      if flat v then (Returns v, w')
      else (Raises "only numbers and lists of numbers", w')
  | r => r
  end.

(** ** Further vocabulary *)

(** The names the motif of [st] gives to the files of index [file_index st]
    up to, not including, [file_index st']. *)
Definition names_between {W : Type} (st st' : state W) : list string :=
  map (motif_apply (file_motif st))
    (seq (file_index st) (file_index st' - file_index st)).

(** From [st] to [st'] files were made under one motif, at consecutive
    indices. *)
Definition named {W : Type} (st st' : state W) : Prop :=
  file_motif st' = file_motif st /\
  file_index st <= file_index st' /\
  files_made st' = (files_made st ++ names_between st st')%list /\
  map fst (created (trace st'))
  = (map fst (created (trace st)) ++ names_between st st')%list.

(** The settings that only [main] and [parse] write. *)
Definition same_settings {W : Type} (st st' : state W) : Prop :=
  target_dir st' = target_dir st /\
  nb_digits st' = nb_digits st /\
  file_motif st' = file_motif st /\
  template_name st' = template_name st /\
  out_verbose st' = out_verbose st.

(** An [eval] that never raises: whatever the code, the integer 1. *)
Definition eval_one (cmd : string) (values : context) (w : unit)
  : eval_result * unit := (Returns (VInt 1), w).

(** What the loop of [get_block] holds in [blk] when the previous character
    is [pc]: nothing before two opening brackets were met; after that, the
    first of them, or both and what followed. *)
Definition in_block (dep2 : bool) (blk : string) (pc : ascii) : Prop :=
  if dep2
  then (blk = "[" /\ pc = "["%char) \/ exists b, blk = "[[" ++ b
  else blk = "".

(** The entries [pop_sequence] takes for sequences, and the others, each
    in the order of the dictionary. *)
Definition sequences (d : context) : context :=
  filter (fun kv => negb (scalar (snd kv))) d.

Definition scalars (d : context) : context :=
  filter (fun kv => scalar (snd kv)) d.

(** The number of sequences inside an object, itself included. *)
Fixpoint weight (v : value) : nat :=
  match v with
  | VList l | VTuple l => S (list_sum (map weight l))
  | _ => 0
  end.

Definition total_weight (d : context) : nat :=
  list_sum (map (fun kv => weight (snd kv)) d).

(** The sequences given in a dictionary, as lists of candidates, and the
    dictionary a file is made with when [choice] is taken from them: the
    scalars, then each key of a sequence with its candidate; [n] is left
    out of the comparison. *)
Definition given (d : context) : list (list value) :=
  map (fun kv => elements (snd kv)) (sequences d).

Definition choice_dict (d : context) (choice : list value) : context :=
  (Dict.pop "n" (scalars d) ++ combine (map fst (sequences d)) choice)%list.

(** The values [expand_values] can expand without leaving a sequence
    behind: a scalar, or a sequence of scalars that is not empty. *)
Definition expandable (v : value) : bool :=
  scalar v ||
  (match elements v with [] => false | _ => true end
   && forallb scalar (elements v)).

(** A dictionary as [parse] hands it to [expand_values] when the
    definitions it was given can be expanded: each key once, none of them
    empty, [n] a scalar. *)
Definition expansible (d : context) : Prop :=
  wf_dict d /\
  Dict.get "" d = None /\
  (exists z, Dict.get "n" d = Some z /\ scalar z = true) /\
  forallb (fun kv => expandable (snd kv)) d = true.

(** A directory that holds one template, [config.cym.tpl], and a
    directory [out]. *)
Definition one_template : Main.disk :=
  {| Main.isdir := fun p => String.eqb p "out";
     Main.isfile := fun _ p => String.eqb p "config.cym.tpl";
     Main.read_file := fun _ _ _ => "rate=[[ [1, 10] ]]!" |}.

(** The number of line ends in a text. *)
Fixpoint newlines (s : string) : nat :=
  match s with
  | EmptyString => 0
  | String c s' =>
      if Ascii.eqb c (ascii_of_nat 10) then S (newlines s') else newlines s'
  end.

(** The code of the blocks of a template, each with the line where the
    block ends, the template starting on line [line]. *)
Fixpoint located (line : nat) (bs : list block) : list (string * nat) :=
  match bs with
  | [] => []
  | b :: bs' =>
      let l := line + newlines (lead b) + newlines (body b) in
      (body b, l) :: located l bs'
  end.

(** * Properties *)

(** ** Strings *)

Module StrFacts.
Import Str.

Lemma app_nil_r (s : string) : s ++ "" = s.
Proof. induction s; simpl; congruence. Qed.

Lemma app_assoc (a b c : string) : (a ++ b) ++ c = a ++ (b ++ c).
Proof. induction a; simpl; congruence. Qed.

Lemma length_app (a b : string) :
  String.length (a ++ b) = String.length a + String.length b.
Proof. induction a; simpl; congruence. Qed.

Lemma drop_nil (n : nat) : drop n "" = "".
Proof. destruct n; reflexivity. Qed.

Lemma drop_add (p n : nat) (s : string) : drop (p + n) s = drop n (drop p s).
Proof.
  revert s; induction p; intros s; simpl; [reflexivity|].
  destruct s; [now rewrite drop_nil | apply IHp].
Qed.

Lemma drop_app (a b : string) : drop (String.length a) (a ++ b) = b.
Proof. induction a; simpl; auto. Qed.

Lemma length_drop (n : nat) (s : string) :
  String.length (drop n s) = String.length s - n.
Proof.
  revert s; induction n; intros s; simpl; [lia|].
  destruct s; simpl; auto.
Qed.

Lemma take_app (a b : string) : take (String.length a) (a ++ b) = a.
Proof. induction a; simpl; congruence. Qed.

Lemma snoc_app (a : string) (c : ascii) (b : string) :
  snoc a c ++ b = a ++ String c b.
Proof. unfold snoc; now rewrite app_assoc. Qed.

Lemma chop_cons (c d : ascii) (s : string) :
  chop (String c (String d s)) = String c (chop (String d s)).
Proof. reflexivity. Qed.

Lemma length_chop (s : string) : String.length (chop s) = String.length s - 1.
Proof.
  induction s as [|c s IH]; simpl; [reflexivity|].
  destruct s; simpl in *; [reflexivity | lia].
Qed.

Lemma chop_shorter (s : string) : s <> "" -> chop s <> s.
Proof.
  intros Hs E. apply (f_equal String.length) in E.
  rewrite length_chop in E. destruct s; [congruence | simpl in E; lia].
Qed.

Lemma slice_block (body : string) : slice_2_m2 ("[[" ++ body ++ "]]") = body.
Proof.
  unfold slice_2_m2. simpl.
  replace (String.length (body ++ "]]") - 2) with (String.length body)
    by (rewrite length_app; simpl; lia).
  apply take_app.
Qed.

End StrFacts.


(** ** The dictionary *)

Module DictFacts.

Lemma get_set_same (k : string) (v : value) (d : context) :
  Dict.get k (Dict.set k v d) = Some v.
Proof.
  induction d as [|[k' v'] d IH]; cbn [Dict.set Dict.get].
  - now rewrite String.eqb_refl.
  - destruct (String.eqb k k') eqn:E; cbn [Dict.get]; now rewrite E.
Qed.

Lemma get_set_other (k k' : string) (v : value) (d : context) :
  k' <> k -> Dict.get k' (Dict.set k v d) = Dict.get k' d.
Proof.
  intros Hk. induction d as [|[k0 v0] d IH]; cbn [Dict.set Dict.get].
  - apply String.eqb_neq in Hk. now rewrite Hk.
  - destruct (String.eqb k k0) eqn:E; cbn [Dict.get].
    + apply String.eqb_eq in E. subst k0.
      apply String.eqb_neq in Hk. now rewrite Hk.
    + now rewrite IH.
Qed.

Lemma get_pop_other (k k' : string) (d : context) :
  k' <> k -> Dict.get k' (Dict.pop k d) = Dict.get k' d.
Proof.
  intros Hk. induction d as [|[k0 v0] d IH]; cbn [Dict.pop Dict.get];
    [reflexivity|].
  destruct (String.eqb k k0) eqn:E; cbn [Dict.get].
  - apply String.eqb_eq in E. subst k0.
    apply String.eqb_neq in Hk. now rewrite Hk.
  - now rewrite IH.
Qed.

Lemma get_in (k : string) (v : value) (d : context) :
  wf_dict d -> In (k, v) d -> Dict.get k d = Some v.
Proof.
  unfold wf_dict. induction d as [|[k0 v0] d IH]; cbn [map fst In Dict.get];
    intros Hnd Hin; [contradiction|].
  inversion Hnd as [|? ? Hnot Hnd']; subst.
  destruct Hin as [E | Hin].
  - inversion E; subst. now rewrite String.eqb_refl.
  - destruct (String.eqb k k0) eqn:E; [|now apply IH].
    apply String.eqb_eq in E. subst k0.
    destruct Hnot. change k with (fst (k, v)). now apply in_map.
Qed.

Lemma get_none (k : string) (d : context) :
  Dict.get k d = None -> ~ In k (map fst d).
Proof.
  induction d as [|[k0 v0] d IH]; cbn [map fst In Dict.get]; [tauto|].
  destruct (String.eqb k k0) eqn:E; [discriminate|].
  apply String.eqb_neq in E. intros H [H'|H']; [congruence | now apply IH].
Qed.

Lemma keys_set (k : string) (v : value) (d : context) :
  map fst (Dict.set k v d)
  = match Dict.get k d with
    | Some _ => map fst d
    | None => (map fst d ++ [k])%list
    end.
Proof.
  induction d as [|[k0 v0] d IH]; cbn [Dict.set Dict.get map fst app];
    [reflexivity|].
  destruct (String.eqb k k0) eqn:E; cbn [map fst]; [reflexivity|].
  rewrite IH. now destruct (Dict.get k d).
Qed.

Lemma wf_set (k : string) (v : value) (d : context) :
  wf_dict d -> wf_dict (Dict.set k v d).
Proof.
  unfold wf_dict. intros Hd. rewrite keys_set.
  destruct (Dict.get k d) eqn:E; [assumption|].
  apply get_none in E. apply NoDup_app; [assumption | repeat constructor; tauto |].
  intros x Hx [<-|[]]. contradiction.
Qed.

Lemma keys_pop (k : string) (d : context) :
  forall x, In x (map fst (Dict.pop k d)) -> In x (map fst d).
Proof.
  induction d as [|[k0 v0] d IH]; cbn [Dict.pop map fst In]; [tauto|].
  destruct (String.eqb k k0); cbn [map fst In]; intuition.
Qed.

Lemma wf_pop (k : string) (d : context) : wf_dict d -> wf_dict (Dict.pop k d).
Proof.
  unfold wf_dict. induction d as [|[k0 v0] d IH]; cbn [Dict.pop map fst];
    intros Hd; [constructor|].
  inversion Hd as [|? ? Hnot Hd']; subst.
  destruct (String.eqb k k0); [assumption|].
  cbn [map fst]. constructor; [|now apply IH].
  intros H. apply Hnot. now apply keys_pop in H.
Qed.

Lemma find_sequence_in (d : context) (k : string) (v : value) :
  find_sequence d = Some (k, v) ->
  In (k, v) d /\ has_len v && negb (is_str v) = true.
Proof.
  induction d as [|[k0 v0] d IH]; cbn [find_sequence In]; [discriminate|].
  destruct (has_len v0 && negb (is_str v0)) eqn:E.
  - intros H. inversion H; subst. now split; [left|].
  - intros H. destruct (IH H). now split; [right|].
Qed.

End DictFacts.

(** ** The scanner *)

Section ScanFacts.
Import Str StrFacts.

Lemma eqb_open_sym (c : ascii) : Ascii.eqb c "[" = Ascii.eqb "[" c.
Proof. apply Ascii.eqb_sym. Qed.

Lemma eqb_close_sym (c : ascii) : Ascii.eqb c "]" = Ascii.eqb "]" c.
Proof. apply Ascii.eqb_sym. Qed.

(** Without an opening bracket ahead and with no bracket open, the loop
    runs to the end of the input and the last character read is left out. *)
Lemma loop_no_open (rest : string) :
  forall pc dep1 pre msgs n,
    mem "[" rest = false -> (dep1 <= 0)%Z ->
    exists msgs',
      get_block_loop "[" "]" rest pc dep1 false pre "" msgs n
      = (pre ++ chop (String pc rest), "", true, msgs', n + String.length rest).
Proof.
  induction rest as [|ch rest IH]; intros pc dep1 pre msgs n Hm Hd.
  - exists msgs. simpl. now rewrite app_nil_r, Nat.add_0_r.
  - cbn [mem] in Hm. apply orb_false_elim in Hm as [Hc Hm].
    rewrite <- eqb_open_sym in Hc.
    cbn [get_block_loop]. rewrite Hc. cbn [andb].
    rewrite chop_cons, <- snoc_app.
    replace (n + String.length (String ch rest)) with (S n + String.length rest)
      by (simpl; lia).
    destruct (Ascii.eqb ch "]").
    + replace ((dep1 - 1 =? 0)%Z) with false by (symmetry; apply Z.eqb_neq; lia).
      rewrite andb_false_r. apply IH; [assumption | lia].
    + apply IH; assumption.
Qed.

Lemma scan_no_open (t : string) :
  mem "[" t = false ->
  exists msgs, scan "[" "]" t = (chop t, "", true, msgs, String.length t).
Proof.
  destruct t as [|ch rest]; intros Hm.
  - now exists [].
  - cbn [mem] in Hm. apply orb_false_elim in Hm as [Hc Hm].
    unfold scan. rewrite <- eqb_open_sym in Hc. rewrite Hc.
    destruct (loop_no_open rest ch 0 "" [] 1 Hm (Z.le_refl 0)) as [msgs E].
    exists msgs. rewrite E. reflexivity.
Qed.

Lemma chop_last_of (pc : ascii) (p : string) :
  snoc (chop (String pc p)) (last_of pc p) = String pc p.
Proof.
  revert pc; induction p as [|c p IH]; intros pc; [reflexivity|].
  rewrite chop_cons. cbn [last_of]. specialize (IH c).
  unfold snoc in *. cbn [append]. now rewrite IH.
Qed.

Lemma plain_cons (c : ascii) (p : string) :
  plain (String c p) = true ->
  Ascii.eqb c "[" = false /\ Ascii.eqb c "]" = false /\ plain p = true.
Proof.
  unfold plain. cbn [mem]. rewrite <- eqb_open_sym, <- eqb_close_sym.
  intros H. apply andb_prop in H as [H1 H2].
  apply negb_true_iff, orb_false_elim in H1 as [H1 H1'].
  apply negb_true_iff, orb_false_elim in H2 as [H2 H2'].
  now rewrite H1, H2, H1', H2'.
Qed.

Lemma last_of_plain (pc : ascii) (p : string) :
  Ascii.eqb pc "[" = false -> plain p = true ->
  Ascii.eqb (last_of pc p) "[" = false.
Proof.
  revert pc; induction p as [|c p IH]; intros pc Hpc Hp; [assumption|].
  apply plain_cons in Hp as (Hc & _ & Hp). cbn [last_of]. now apply IH.
Qed.

(** Through text without brackets the loop only moves characters to
    [pre]. *)
Lemma loop_plain (p : string) :
  forall rest pc dep1 pre msgs n,
    plain p = true ->
    get_block_loop "[" "]" (p ++ rest) pc dep1 false pre "" msgs n
    = get_block_loop "[" "]" rest (last_of pc p) dep1 false
        (pre ++ chop (String pc p)) "" msgs (n + String.length p).
Proof.
  induction p as [|c p IH]; intros rest pc dep1 pre msgs n Hp.
  - simpl. now rewrite app_nil_r, Nat.add_0_r.
  - apply plain_cons in Hp as (Ho & Hc & Hp).
    cbn [append get_block_loop]. rewrite Ho, Hc. cbn [andb].
    rewrite IH by assumption. cbn [last_of].
    rewrite chop_cons, snoc_app.
    replace (S n + String.length p) with (n + String.length (String c p))
      by (simpl; lia).
    reflexivity.
Qed.

(** Inside a block, with [d] inner brackets open, the loop collects the
    code up to the two closing brackets that end the block. *)
Lemma loop_body (rest pre : string) (msgs : list string) (body : string) :
  forall d pc blk n,
    nested d body = true ->
    get_block_loop "[" "]" (body ++ "]]" ++ rest) pc (2 + Z.of_nat d) true
      pre blk msgs n
    = (pre, blk ++ String pc (body ++ "]]"), false, msgs,
       n + String.length body + 2).
Proof.
  induction body as [|c body IH]; intros d pc blk n Hn.
  - cbn [nested] in Hn. apply Nat.eqb_eq in Hn. subst d.
    change (2 + Z.of_nat 0)%Z with 2%Z.
    cbn. rewrite andb_false_r. cbn.
    unfold snoc. rewrite !app_assoc. simpl.
    f_equal; try reflexivity; simpl; lia.
  - cbn [nested] in Hn. cbn [append get_block_loop].
    replace (if Ascii.eqb c "[" && Ascii.eqb pc "[" then true else true)
      with true by (now destruct (Ascii.eqb c "[" && Ascii.eqb pc "[")).
    destruct (Ascii.eqb c "[") eqn:Ho.
    + apply Ascii.eqb_eq in Ho. subst c.
      change (Ascii.eqb "[" "]") with false. cbv iota.
      replace (2 + Z.of_nat d + 1)%Z with (2 + Z.of_nat (S d))%Z by lia.
      rewrite IH by assumption. rewrite snoc_app.
      f_equal. simpl. lia.
    + destruct (Ascii.eqb c "]") eqn:Hc.
      * destruct d as [|d]; [discriminate|].
        replace (2 + Z.of_nat (S d) - 1)%Z with (2 + Z.of_nat d)%Z by lia.
        replace ((2 + Z.of_nat d <? 0)%Z) with false
          by (symmetry; apply Z.ltb_ge; lia).
        replace ((2 + Z.of_nat d =? 0)%Z) with false
          by (symmetry; apply Z.eqb_neq; lia).
        rewrite andb_false_r. rewrite IH by assumption. rewrite snoc_app.
        f_equal. simpl. lia.
      * rewrite IH by assumption. rewrite snoc_app.
        f_equal. simpl. lia.
Qed.

(** The scanner on a template that starts with plain text and a block. *)
Lemma scan_block (pre body rest : string) :
  plain pre = true -> nested 0 body = true ->
  scan "[" "]" (pre ++ "[[" ++ body ++ "]]" ++ rest)
  = (pre, "[[" ++ body ++ "]]", false, [],
     String.length pre + String.length body + 4).
Proof.
  intros Hp Hn. destruct pre as [|c p].
  - transitivity
      (get_block_loop "[" "]" (body ++ "]]" ++ rest) "[" (2 + Z.of_nat 0)%Z
         true "" "[" [] 2); [reflexivity|].
    rewrite loop_body by assumption.
    f_equal; try reflexivity; simpl; lia.
  - apply plain_cons in Hp as (Ho & Hc & Hp).
    cbn [append scan]. rewrite Ho.
    rewrite loop_plain by assumption.
    cbn [append get_block_loop].
    change (Ascii.eqb "[" "[") with true. change (Ascii.eqb "[" "]") with false.
    rewrite (last_of_plain c p Ho Hp). cbn [andb].
    fold (snoc (chop (String c p)) (last_of c p)).
    rewrite chop_last_of.
    change (0 + 1 + 1)%Z with (2 + Z.of_nat 0)%Z.
    etransitivity;
      [apply (loop_body rest (String c p) [] body 0 "[" (snoc "" "[") _ Hn)|].
    f_equal; try reflexivity; simpl; lia.
Qed.

Lemma loop_count (rest : string) :
  forall pc dep1 dep2 pre blk msgs n pre' blk' eof msgs' n',
    get_block_loop "[" "]" rest pc dep1 dep2 pre blk msgs n
    = (pre', blk', eof, msgs', n') ->
    n <= n'.
Proof.
  induction rest as [|ch rest IH]; intros pc dep1 dep2 pre blk msgs n
    pre' blk' eof msgs' n' E; cbn [get_block_loop] in E.
  - inversion E; subst. lia.
  - destruct (Ascii.eqb ch "]");
      [destruct (Ascii.eqb pc "]" && _)|];
      try (apply IH in E; lia).
    inversion E; subst. lia.
Qed.

(** A block is at least one character read. *)
Lemma scan_progress (t pre blk : string) (msgs : list string) (n : nat) :
  scan "[" "]" t = (pre, blk, false, msgs, n) -> 1 <= n /\ t <> "".
Proof.
  destruct t as [|ch rest]; cbn [scan]; intros E; [discriminate|].
  apply loop_count in E. split; [lia | discriminate].
Qed.

(** Opening brackets that never come in pairs, and no closing bracket:
    nothing is collected and nothing is written. *)
Lemma loop_unreported (rest : string) :
  forall pc dep1 pre msgs n,
    mem "]" rest = false -> no_double_open pc rest = true ->
    get_block_loop "[" "]" rest pc dep1 false pre "" msgs n
    = (pre ++ chop (String pc rest), "", true, msgs, n + String.length rest).
Proof.
  induction rest as [|ch rest IH]; intros pc dep1 pre msgs n Hm Hd.
  - simpl. now rewrite app_nil_r, Nat.add_0_r.
  - cbn [mem] in Hm. apply orb_false_elim in Hm as [Hc Hm].
    rewrite <- eqb_close_sym in Hc.
    cbn [no_double_open] in Hd. apply andb_prop in Hd as [Hd1 Hd2].
    apply negb_true_iff in Hd1.
    cbn [get_block_loop]. rewrite Hd1, Hc.
    rewrite IH by assumption.
    rewrite chop_cons, snoc_app. f_equal. simpl. lia.
Qed.

Lemma scan_unreported (t : string) :
  mem "]" t = false -> no_double_open " " t = true ->
  scan "[" "]" t = (chop t, "", true, [], String.length t).
Proof.
  destruct t as [|ch rest]; intros Hm Hd; [reflexivity|].
  cbn [mem] in Hm. apply orb_false_elim in Hm as [_ Hm].
  cbn [no_double_open] in Hd. apply andb_prop in Hd as [_ Hd].
  unfold scan. now rewrite loop_unreported.
Qed.

(** Inside a block that is never closed by two brackets in a row, the
    loop runs to the end of the input and reports it. *)
Lemma loop_open_block (body : string) :
  forall pc dep1 pre blk msgs n,
    no_double_close pc body = true -> nonempty blk = true ->
    exists msgs',
      get_block_loop "[" "]" body pc dep1 true pre blk msgs n
      = (pre, "", true, (msgs ++ msgs' ++ [msg_eof])%list,
         n + String.length body) /\
      Forall (eq msg_unbalanced) msgs'.
Proof.
  induction body as [|ch body IH]; intros pc dep1 pre blk msgs n Hd Hb.
  - exists []. cbn [get_block_loop]. rewrite Hb, Nat.add_0_r. now split.
  - cbn [no_double_close] in Hd. apply andb_prop in Hd as [Hd1 Hd2].
    apply negb_true_iff in Hd1.
    cbn [get_block_loop].
    replace (if Ascii.eqb ch "[" && Ascii.eqb pc "[" then true else true)
      with true by (now destruct (Ascii.eqb ch "[" && Ascii.eqb pc "[")).
    assert (Hb' : nonempty (snoc blk pc) = true) by (now destruct blk).
    replace (n + String.length (String ch body)) with (S n + String.length body)
      by (simpl; lia).
    destruct (Ascii.eqb ch "]") eqn:Hc.
    + rewrite andb_true_r in Hd1. rewrite Hd1. cbn [andb].
      match goal with
      | |- context [get_block_loop _ _ _ _ ?d true _ _ ?m _] =>
          destruct (IH ch d pre (snoc blk pc) m (S n) Hd2 Hb') as (msgs' & E & Hf)
      end.
      rewrite E.
      destruct (_ <? 0)%Z.
      * exists (msg_unbalanced :: msgs'). split; [|now constructor].
        now rewrite <- List.app_assoc.
      * now exists msgs'.
    + destruct (IH ch (if Ascii.eqb ch "[" then (dep1 + 1)%Z else dep1) pre
                  (snoc blk pc) msgs (S n) Hd2 Hb') as (msgs' & E & Hf).
      rewrite E. now exists msgs'.
Qed.

Lemma scan_open_block (pre body : string) :
  plain pre = true -> no_double_close "[" body = true ->
  exists msgs',
    scan "[" "]" (pre ++ "[[" ++ body)
    = (pre, "", true, (msgs' ++ [msg_eof])%list,
       String.length pre + 2 + String.length body) /\
    Forall (eq msg_unbalanced) msgs'.
Proof.
  intros Hp Hd. destruct pre as [|c p].
  - destruct (loop_open_block body "[" 2 "" "[" [] 2 Hd eq_refl) as (msgs' & E & Hf).
    exists msgs'. split; [|assumption].
    transitivity (get_block_loop "[" "]" body "[" 2 true "" "[" [] 2);
      [reflexivity|].
    rewrite E. reflexivity.
  - apply plain_cons in Hp as (Ho & Hc & Hp).
    destruct (loop_open_block body "[" 2 (String c p) "[" []
                (S (S (1 + String.length p))) Hd eq_refl) as (msgs' & E & Hf).
    exists msgs'. split; [|assumption].
    cbn [append scan]. rewrite Ho.
    rewrite loop_plain by assumption.
    cbn [append get_block_loop].
    change (Ascii.eqb "[" "[") with true. change (Ascii.eqb "[" "]") with false.
    rewrite (last_of_plain c p Ho Hp). cbn [andb].
    fold (snoc (chop (String c p)) (last_of c p)).
    rewrite chop_last_of.
    etransitivity; [exact E|]. f_equal. simpl. lia.
Qed.

End ScanFacts.

(** ** One turn of [process] *)

Section ProcessFacts.

Context {W : Type} {Py : Python W}.

#[local] Abbreviation state := (state W).
#[local] Abbreviation store := (@store W).

Lemma for_each_ext {A S : Type} (l : list A) (b1 b2 : A -> S -> option S) :
  (forall x s, b1 x s = b2 x s) ->
  forall s, for_each l b1 s = for_each l b2 s.
Proof.
  intros E. induction l as [|x l IH]; intros s; [reflexivity|].
  cbn [for_each]. rewrite E. destruct (b2 x s); auto.
Qed.

Lemma candidates_forks (v : value) : candidates v = (forks v ++ [tail_of v])%list.
Proof. unfold candidates, forks, tail_of. now destruct (py_pop v). Qed.

(** [process] with one unit of fuel more: read a block; at the end of the
    input make the file; otherwise evaluate the block, run a recursive call
    for every value but the last, rewinding the file after each, and go on
    with the last. *)
Lemma process_S (fuel : nat) (f : file) (values : context) (text : string)
    (st : state) :
  process (S fuel) f values text st =
  let '(pre, code, eof, f1, st1) := get_block f CODE_IN CODE_OUT st in
  if eof then
    let '(values', st2) := make_file (text ++ pre) values st1 in
    Some (f1, values', st2)
  else
    let '(key, e) := try_assignment (Str.slice_2_m2 code) in
    let '(vals, st2) := evaluate e values st1 in
    match for_each (forks vals)
            (fun v '(f', vs, st') =>
               let '(vs', out', st'') := bound key code v vs (text ++ pre) st' in
               rewind (tell f1) (process fuel f' vs' out' st''))
            (f1, values, st2) with
    | None => None
    | Some (f', vs, st') =>
        let '(vs', out', st'') := bound key code (tail_of vals) vs (text ++ pre) st' in
        process fuel f' vs' out' st''
    end.
Proof.
  cbn [process].
  destruct (get_block f CODE_IN CODE_OUT st) as [[[[pre code] eof] f1] st1].
  destruct eof; [reflexivity|].
  destruct (try_assignment (Str.slice_2_m2 code)) as [key e].
  destruct (evaluate e values st1) as [vals st2].
  unfold forks, tail_of, bound.
  destruct (py_pop vals) as [last rest| |].
  - cbv beta iota zeta.
    match goal with
    | |- match for_each _ ?b1 _ with _ => _ end
         = match for_each _ ?b2 _ with _ => _ end =>
        rewrite (for_each_ext rest b1 b2)
    end.
    + destruct (for_each _ _ _) as [[[f' vs] st']|]; [|reflexivity].
      destruct (Str.nonempty key); reflexivity.
    + intros v [[f' vs] st']. destruct (Str.nonempty key); reflexivity.
  - cbn [for_each]. destruct (Str.nonempty key); reflexivity.
  - cbn [for_each]. destruct (Str.nonempty key); reflexivity.
Qed.

Lemma for_each_inv {A S : Type} (Inv : S -> Prop) (l : list A)
    (body : A -> S -> option S) :
  (forall x s s', In x l -> Inv s -> body x s = Some s' -> Inv s') ->
  forall s s', Inv s -> for_each l body s = Some s' -> Inv s'.
Proof.
  induction l as [|x l IH]; intros Hb s s' Hs E; cbn [for_each] in E.
  - now inversion E; subst.
  - destruct (body x s) as [s1|] eqn:E1; [|discriminate].
    apply (IH (fun y t t' Hy => Hb y t t' (or_intror Hy)) s1 s'); [|assumption].
    apply (Hb x s s1); [now left | assumption | assumption].
Qed.

Lemma created_app (a b : list event) :
  created (a ++ b) = (created a ++ created b)%list.
Proof.
  induction a as [|ev a IH]; [reflexivity|].
  destruct ev; cbn [created app]; now rewrite ?IH.
Qed.

Lemma emitted_app (a b : list event) :
  emitted (a ++ b) = (emitted a ++ emitted b)%list.
Proof.
  induction a as [|ev a IH]; [reflexivity|].
  destruct ev; cbn [emitted app]; now rewrite ?IH.
Qed.

Lemma quiet_refl (st : state) : quiet st st.
Proof. now repeat split. Qed.

Lemma quiet_trans (a b c : state) : quiet a b -> quiet b c -> quiet a c.
Proof. unfold quiet. intuition congruence. Qed.

Lemma quiet_out_write (m : string) (st : state) : quiet st (out_write m st).
Proof.
  unfold quiet, out_write, log_event; cbn.
  rewrite created_app, emitted_app; cbn. now rewrite !app_nil_r.
Qed.

Lemma quiet_err_write (m : string) (st : state) : quiet st (err_write m st).
Proof.
  unfold quiet, err_write, log_event; cbn.
  rewrite created_app, emitted_app; cbn. now rewrite !app_nil_r.
Qed.

Lemma quiet_set_rng (w : W) (st : state) : quiet st (set_rng w st).
Proof. now repeat split. Qed.

Lemma quiet_out_writes (msgs : list string) (st : state) :
  quiet st (out_writes msgs st).
Proof.
  unfold out_writes. revert st.
  induction msgs as [|m msgs IH]; intros st; [apply quiet_refl|].
  cbn [fold_left]. eapply quiet_trans; [apply quiet_out_write | apply IH].
Qed.

Lemma quiet_evaluate (e : string) (values : context) (st : state) :
  quiet st (snd (evaluate e values st)).
Proof.
  unfold evaluate. destruct (py_eval e values (rng st)) as [[v|m] w]; cbn [snd].
  - apply quiet_set_rng.
  - repeat (eapply quiet_trans; [|apply quiet_err_write]). apply quiet_set_rng.
Qed.

Lemma get_block_scan (f : file) (st : state) :
  get_block f CODE_IN CODE_OUT st =
  let '(pre, blk, eof, msgs, n) := scan "[" "]" (remaining f) in
  (pre, blk, eof, seek (pos f + n) f, out_writes msgs st).
Proof. reflexivity. Qed.

Lemma quiet_get_block (f : file) (st : state) :
  quiet st (snd (get_block f CODE_IN CODE_OUT st)).
Proof.
  rewrite get_block_scan.
  destruct (scan "[" "]" (remaining f)) as [[[[pre blk] eof] msgs] n].
  apply quiet_out_writes.
Qed.

Lemma bound_spec (key code : string) (v : value) (vs : context)
    (out : string) (st : state) :
  exists m,
    bound key code v vs out st
    = (if Str.nonempty key then Dict.set key v vs else vs,
       if Str.nonempty key then out else out ++ py_str v,
       out_write m st).
Proof. unfold bound. destruct (Str.nonempty key); eauto. Qed.

(** A Hoare rule for [process]: [P] holds of the dictionary and the
    globals wherever a block is read, [Q] wherever a call returns, and [V]
    of every value that gets bound. *)
Lemma process_hoare (P Q : context -> state -> Prop) (V : value -> Prop) :
  (forall vs st st', P vs st -> quiet st st' -> P vs st') ->
  (forall e vs st, P vs st -> Forall V (candidates (fst (evaluate e vs st)))) ->
  (forall k v vs st, V v -> Str.nonempty k = true -> P vs st ->
                     P (Dict.set k v vs) st) ->
  (forall text vs st, P vs st ->
                      Q (fst (make_file text vs st)) (snd (make_file text vs st))) ->
  (forall vs st, Q vs st -> P vs st) ->
  forall fuel f values text st f' values' st',
    P values st ->
    process fuel f values text st = Some (f', values', st') ->
    Q values' st'.
Proof.
  intros Hquiet Heval Hset Hmake HQP.
  assert (Hbound : forall key code v vs out st,
             V v -> P vs st ->
             P (fst (fst (bound key code v vs out st)))
               (snd (bound key code v vs out st))).
  { intros key code v vs out st Hv HP.
    destruct (bound_spec key code v vs out st) as [m ->]. cbn [fst snd].
    apply Hquiet with st; [|apply quiet_out_write].
    destruct (Str.nonempty key) eqn:Hk; [now apply Hset | assumption]. }
  induction fuel as [|fuel IH]; intros f values text st f' values' st' HP E;
    [discriminate|].
  rewrite process_S in E.
  pose proof (quiet_get_block f st) as Hq.
  destruct (get_block f CODE_IN CODE_OUT st) as [[[[pre code] eof] f1] st1].
  cbn [snd] in Hq. apply (Hquiet _ _ _ HP) in Hq.
  destruct eof.
  - specialize (Hmake (text ++ pre) values st1 Hq).
    destruct (make_file (text ++ pre) values st1) as [vs2 st2].
    now inversion E; subst.
  - destruct (try_assignment (Str.slice_2_m2 code)) as [key e].
    pose proof (quiet_evaluate e values st1) as Hq2.
    pose proof (Heval e values st1 Hq) as Hc.
    destruct (evaluate e values st1) as [vals st2]. cbn [fst snd] in Hq2, Hc.
    apply (Hquiet _ _ _ Hq) in Hq2.
    rewrite candidates_forks in Hc. apply Forall_app in Hc as [Hf Ht].
    inversion Ht as [|? ? Hlast _]; subst.
    destruct (for_each _ _ _) as [[[f2 vs2] st3]|] eqn:Efor in E; [|discriminate].
    assert (HP3 : P vs2 st3).
    { apply (for_each_inv (fun s : store => P (snd (fst s)) (snd s)))
        with (s := (f1, values, st2)) (s' := (f2, vs2, st3)) in Efor;
        [exact Efor| |exact Hq2].
      intros v [[fa vsa] sta] [[fb vsb] stb] Hin HPa Eb. cbn [fst snd] in *.
      pose proof (Hbound key code v vsa (text ++ pre) sta) as Hb.
      destruct (bound key code v vsa (text ++ pre) sta) as [[vs' out'] st''].
      cbn [fst snd] in Hb.
      destruct (process fuel fa vs' out' st'') as [[[fc vsc] stc]|] eqn:Ep;
        [|discriminate].
      cbn [rewind] in Eb. inversion Eb; subst.
      apply HQP. eapply IH; [|exact Ep]. apply Hb; [|assumption].
      rewrite Forall_forall in Hf. now apply Hf. }
    pose proof (Hbound key code (tail_of vals) vs2 (text ++ pre) st3 Hlast HP3) as Hb.
    destruct (bound key code (tail_of vals) vs2 (text ++ pre) st3)
      as [[vs' out'] st''].
    eapply IH; [|exact E]. exact Hb.
Qed.

Lemma for_each_acc {A B S : Type} (Inv : S -> Prop) (out : S -> list B)
    (g : A -> list B) (l : list A) (body : A -> S -> option S) :
  (forall x s, In x l -> Inv s ->
     exists s', body x s = Some s' /\ Inv s' /\ out s' = (out s ++ g x)%list) ->
  forall s, Inv s ->
    exists s', for_each l body s = Some s' /\ Inv s' /\
               out s' = (out s ++ flat_map g l)%list.
Proof.
  induction l as [|x l IH]; intros Hb s Hs; cbn [for_each flat_map].
  - exists s. now rewrite app_nil_r.
  - destruct (Hb x s (or_introl eq_refl) Hs) as (s1 & -> & Hs1 & E1).
    destruct (IH (fun y t Hy => Hb y t (or_intror Hy)) s1 Hs1) as (s2 & E & Hs2 & E2).
    exists s2. repeat split; [assumption | assumption |].
    now rewrite E2, E1, app_assoc.
Qed.

Lemma seek_same (f f' : file) : content f' = content f -> seek (tell f) f' = f.
Proof. destruct f, f'; unfold seek, tell; cbn; now intros ->. Qed.

Lemma remaining_seek (f : file) (n : nat) :
  remaining (seek (pos f + n) f) = Str.drop n (remaining f).
Proof. unfold remaining, seek; cbn. apply StrFacts.drop_add. Qed.

(** [process] returns once the fuel exceeds the number of characters left
    to read, and leaves the text of the file alone. *)
Lemma process_total (fuel : nat) :
  forall f values text st,
    String.length (remaining f) < fuel ->
    exists f' values' st',
      process fuel f values text st = Some (f', values', st') /\
      content f' = content f.
Proof.
  induction fuel as [|fuel IH]; intros f values text st Hlen; [lia|].
  rewrite process_S, get_block_scan.
  destruct (scan "[" "]" (remaining f)) as [[[[pre code] eof] msgs] n] eqn:Es.
  destruct eof.
  - destruct (make_file (text ++ pre) values (out_writes msgs st)) as [vs2 st2].
    now eauto.
  - apply scan_progress in Es as [Hn Hne].
    set (f1 := seek (pos f + n) f).
    assert (Hlen1 : String.length (remaining f1) < fuel).
    { unfold f1. rewrite remaining_seek, StrFacts.length_drop.
      destruct (remaining f); [congruence|].
      cbn [String.length] in Hlen |- *. lia. }
    destruct (try_assignment (Str.slice_2_m2 code)) as [key e].
    destruct (evaluate e values (out_writes msgs st)) as [vals st2].
    assert (Hcall : forall v (s : store), fst (fst s) = f1 ->
              exists s', (let '(f', vs, st') := s in
                          let '(vs', out', st'') := bound key code v vs (text ++ pre) st' in
                          process fuel f' vs' out' st'') = Some s' /\
                         content (fst (fst s')) = content f1).
    { intros v [[fa vsa] sta] Ha. cbn [fst] in Ha. subst fa.
      destruct (bound key code v vsa (text ++ pre) sta) as [[vs' out'] st''].
      destruct (IH f1 vs' out' st'' Hlen1) as (fb & vsb & stb & -> & Hc).
      now exists (fb, vsb, stb). }
    match goal with
    | |- context [@for_each _ ?S ?l ?b ?s0] =>
        destruct (fun H => for_each_acc (fun s : S => fst (fst s) = f1)
                    (fun _ => @nil unit) (fun _ => []) l b H s0 eq_refl)
          as (s' & -> & Hs' & _)
    end.
    + intros v s _ Hs. destruct (Hcall v s Hs) as ([[fb vsb] stb] & E & Hc).
      destruct s as [[fa vsa] sta].
      destruct (bound key code v vsa (text ++ pre) sta) as [[vs' out'] st''].
      rewrite E. cbn [rewind fst] in *. eexists; repeat split.
      now apply seek_same.
    + destruct (Hcall (tail_of vals) s' Hs') as ([[fb vsb] stb] & E & Hc).
      destruct s' as [[fa vsa] sta]. exists fb, vsb, stb. now split.
Qed.

Lemma partition_absent (sep : ascii) (s : string) :
  Str.mem sep s = false -> Str.partition sep s = (s, "", "").
Proof.
  induction s as [|c s IH]; cbn [Str.mem Str.partition]; intros H; [reflexivity|].
  apply orb_false_elim in H as [Hc Hs].
  rewrite Ascii.eqb_sym, Hc, (IH Hs). reflexivity.
Qed.

Lemma try_assignment_absent (cmd : string) :
  Str.mem "=" cmd = false -> try_assignment cmd = ("", cmd).
Proof.
  intros H. unfold try_assignment. rewrite (partition_absent _ _ H).
  cbn. now rewrite andb_false_r.
Qed.

Lemma evaluate_returns (e : string) (values : context) (st : state) (v : value) :
  fst (py_eval e values (rng st)) = Returns v ->
  exists w, evaluate e values st = (v, set_rng w st).
Proof.
  unfold evaluate. destruct (py_eval e values (rng st)) as [r w]; cbn [fst].
  intros ->. now exists w.
Qed.

Lemma texts_app (a b : list event) : texts (a ++ b) = (texts a ++ texts b)%list.
Proof. unfold texts. now rewrite created_app, map_app. Qed.

Lemma texts_quiet (st st' : state) :
  quiet st st' -> texts (trace st') = texts (trace st).
Proof. unfold texts. now intros (_ & _ & _ & -> & _). Qed.

Lemma texts_make_file (text : string) (values : context) (st : state) :
  texts (trace (snd (make_file text values st)))
  = (texts (trace st) ++ [text])%list.
Proof.
  unfold make_file, next_file_name, extend_files_made, log_event.
  cbn [snd trace]. rewrite <- app_assoc, texts_app. cbn. reflexivity.
Qed.

Lemma map_flat_map {A B C : Type} (F : B -> C) (h : A -> list B) (l : list A) :
  map F (flat_map h l) = flat_map (fun x => map F (h x)) l.
Proof.
  induction l as [|x l IH]; [reflexivity|].
  cbn [flat_map]. now rewrite map_app, IH.
Qed.

Lemma drop_block (pre body rest : string) :
  Str.drop (String.length pre + String.length body + 4)
    (pre ++ "[[" ++ body ++ "]]" ++ rest) = rest.
Proof.
  replace (pre ++ "[[" ++ body ++ "]]" ++ rest)
    with ((pre ++ "[[" ++ body ++ "]]") ++ rest)
    by (rewrite StrFacts.app_assoc; cbn [append];
        now rewrite StrFacts.app_assoc).
  replace (String.length pre + String.length body + 4)
    with (String.length (pre ++ "[[" ++ body ++ "]]"))
    by (rewrite StrFacts.length_app; cbn [append String.length];
        rewrite StrFacts.length_app; cbn [String.length]; lia).
  apply StrFacts.drop_app.
Qed.

(** The files of a template made of blocks with fixed results: one per
    element of the product of the candidate lists, in lexicographic
    order. *)
Lemma process_blocks (tail : string) (bs : list block) :
  Forall fixed_block bs -> Str.mem "[" tail = false ->
  forall fuel f values text st,
    length bs < fuel ->
    remaining f = template bs tail ->
    exists f' values' st',
      process fuel f values text st = Some (f', values', st') /\
      content f' = content f /\
      texts (trace st')
      = (texts (trace st)
         ++ map (fun choice => (text ++ render bs choice ++ Str.chop tail)%string)
              (product (map (fun b => candidates (result b)) bs)))%list.
Proof.
  intros Hbs Htail. induction bs as [|b bs IH];
    intros fuel f values text st Hfuel Hrem;
    (destruct fuel as [|fuel]; [cbn in Hfuel; lia|]);
    rewrite process_S, get_block_scan, Hrem; cbn [template].
  - destruct (scan_no_open tail Htail) as [msgs ->].
    pose proof (texts_make_file (text ++ Str.chop tail) values (out_writes msgs st)) as Ht.
    destruct (make_file (text ++ Str.chop tail) values (out_writes msgs st))
      as [vs2 st2].
    exists (seek (pos f + String.length tail) f), vs2, st2.
    repeat split. cbn [snd] in Ht. rewrite Ht.
    rewrite (texts_quiet _ _ (quiet_out_writes msgs st)). reflexivity.
  - inversion Hbs as [|? ? (Hp & Hn & Hev) Hbs']; subst.
    rewrite scan_block by assumption.
    cbv beta iota zeta. cbn [out_writes fold_left].
    rewrite StrFacts.slice_block.
    unfold code_of in Hev.
    destruct (try_assignment (body b)) as [key e] eqn:Eta. cbn [fst snd] in *.
    destruct (evaluate_returns e values st (result b) (Hev _ _)) as [w ->].
    set (f1 := seek (pos f + (String.length (lead b) + String.length (body b) + 4)) f).
    set (P := product (map (fun b => candidates (result b)) bs)).
    set (code := "[[" ++ body b ++ "]]").
    assert (Hrem1 : remaining f1 = template bs tail).
    { unfold f1. rewrite remaining_seek, Hrem. cbn [template]. apply drop_block. }
    set (g := fun v : value =>
                map (fun choice =>
                       (if Str.nonempty key then text ++ lead b
                        else (text ++ lead b) ++ py_str v)
                       ++ render bs choice ++ Str.chop tail) P).
    assert (Hcall : forall v (s : store), fst (fst s) = f1 ->
              exists s' : store,
                (let '(f', vs, st') := s in
                 let '(vs', out', st'') := bound key code v vs (text ++ lead b) st' in
                 process fuel f' vs' out' st'') = Some s' /\
                content (fst (fst s')) = content f1 /\
                texts (trace (snd s')) = (texts (trace (snd s)) ++ g v)%list).
    { intros v [[fa vsa] sta] Ha. cbn [fst] in Ha. subst fa.
      destruct (bound_spec key code v vsa (text ++ lead b) sta) as [m ->].
      destruct (IH Hbs' fuel f1 (if Str.nonempty key then Dict.set key v vsa else vsa)
                  (if Str.nonempty key then text ++ lead b
                   else (text ++ lead b) ++ py_str v)
                  (out_write m sta))
        as (fb & vsb & stb & -> & Hc & Ht);
        [cbn in Hfuel; lia | assumption |].
      exists (fb, vsb, stb). repeat split; [assumption|].
      cbn [snd]. rewrite Ht. now rewrite (texts_quiet _ _ (quiet_out_write _ sta)). }
    match goal with
    | |- context [@for_each _ ?S ?l ?body ?s0] =>
        destruct (fun H => for_each_acc (fun s : S => fst (fst s) = f1)
                    (fun s : S => texts (trace (snd s))) g l body H s0 eq_refl)
          as (s' & -> & Hs' & Hacc)
    end.
    + intros v s _ Hs. destruct (Hcall v s Hs) as ([[fb vsb] stb] & E & Hc & Ht).
      destruct s as [[fa vsa] sta].
      destruct (bound key code v vsa (text ++ lead b) sta) as [[vs' out'] st''].
      rewrite E. cbn [rewind fst snd] in *. eexists; repeat split.
      * now apply seek_same.
      * assumption.
    + destruct (Hcall (tail_of (result b)) s' Hs') as ([[fb vsb] stb] & E & Hc & Ht).
      destruct s' as [[fa vsa] sta]. exists fb, vsb, stb.
      repeat split; [assumption | cbn [fst] in Hc; now rewrite Hc |].
      cbn [snd] in *. rewrite Ht, Hacc, <- app_assoc.
      f_equal. cbn [map product]. fold P.
      rewrite map_flat_map, candidates_forks, flat_map_app.
      cbn [flat_map]. rewrite app_nil_r.
      f_equal; [apply flat_map_ext; intros v|]; unfold g; rewrite map_map;
        apply map_ext; intros choice; cbn [render]; unfold target;
        rewrite Eta; cbn [fst];
        destruct (Str.nonempty key); cbn [append];
        now rewrite !StrFacts.app_assoc.
Qed.

Lemma make_file_spec (text : string) (values : context) (st : state) :
  let r := make_file text values st in
  file_index (snd r) = S (file_index st) /\
  files_made (snd r)
  = (files_made st ++ [motif_apply (file_motif st) (file_index st)])%list /\
  created (trace (snd r))
  = (created (trace st) ++ [(motif_apply (file_motif st) (file_index st), text)])%list /\
  emitted (trace (snd r)) = (emitted (trace st) ++ [values])%list /\
  fst r = Dict.set "n" (VInt (Z.of_nat (S (file_index st)))) values.
Proof.
  unfold make_file, next_file_name, extend_files_made, log_event.
  cbn [fst snd trace file_index files_made file_motif].
  rewrite <- app_assoc, created_app, emitted_app. cbn.
  rewrite ?app_nil_r. now repeat split.
Qed.

Lemma for_each_rel {A B C S : Type} (Inv : S -> Prop) (out : S -> list B)
    (R : B -> C -> Prop) (g : A -> list C) (l : list A)
    (body : A -> S -> option S) :
  (forall x s s', In x l -> Inv s -> body x s = Some s' ->
     Inv s' /\ exists cs, out s' = (out s ++ cs)%list /\ Forall2 R cs (g x)) ->
  forall s s', Inv s -> for_each l body s = Some s' ->
    Inv s' /\ exists cs, out s' = (out s ++ cs)%list /\ Forall2 R cs (flat_map g l).
Proof.
  induction l as [|x l IH]; intros Hb s s' Hs E; cbn [for_each flat_map] in *.
  - inversion E; subst. split; [assumption|]. exists []. now rewrite app_nil_r.
  - destruct (body x s) as [s1|] eqn:E1; [|discriminate].
    destruct (Hb x s s1 (or_introl eq_refl) Hs E1) as (Hs1 & cs1 & Ho1 & Hr1).
    destruct (IH (fun y t t' Hy => Hb y t t' (or_intror Hy)) s1 s' Hs1 E)
      as (Hs' & cs2 & Ho2 & Hr2).
    split; [assumption|]. exists (cs1 ++ cs2)%list.
    split; [now rewrite Ho2, Ho1, app_assoc | now apply Forall2_app].
Qed.

Lemma Forall2_weaken {B C : Type} (R1 R2 : B -> C -> Prop) (cs : list B)
    (P : list C) :
  Forall2 R1 cs P ->
  (forall c ch, In ch P -> R1 c ch -> R2 c ch) ->
  Forall2 R2 cs P.
Proof.
  induction 1 as [|c ch cs P Hr Hf IH]; intros Himp; constructor.
  - apply Himp; [now left | assumption].
  - apply IH. intros c' ch' Hin. apply Himp. now right.
Qed.

Lemma Forall2_map_right {B C D : Type} (R : B -> D -> Prop) (h : C -> D)
    (cs : list B) (P : list C) :
  Forall2 (fun c ch => R c (h ch)) cs P -> Forall2 R cs (map h P).
Proof. induction 1; cbn [map]; now constructor. Qed.

Lemma product_length {A : Type} (ls : list (list A)) (ch : list A) :
  In ch (product ls) -> length ch = length ls.
Proof.
  revert ch. induction ls as [|l ls IH]; intros ch Hin; cbn [product] in Hin.
  - destruct Hin as [<-|[]]. reflexivity.
  - apply in_flat_map in Hin as (x & _ & Hin).
    apply in_map_iff in Hin as (ch' & <- & Hin'). cbn [length].
    now rewrite (IH ch' Hin').
Qed.

(** What lies under the keys the blocks assign to does not matter once the
    assignments are made. *)
Lemma assign_agree (bs : list block) :
  forall ch d d',
    length ch = length bs ->
    (forall k, untouched bs k -> Dict.get k d = Dict.get k d') ->
    same_off_n (assign (bindings bs ch) d) (assign (bindings bs ch) d').
Proof.
  induction bs as [|b bs IH]; intros ch d d' Hlen Hd.
  - destruct ch; [|discriminate]. intros k Hk. apply Hd. now split.
  - destruct ch as [|v ch]; [discriminate|]. cbn [bindings].
    injection Hlen as Hlen.
    destruct (Str.nonempty (target b)) eqn:Hb.
    + cbn [assign fold_left fst snd]. apply (IH ch); [assumption|].
      intros k [Hk Hbs]. destruct (string_dec k (target b)) as [->|Hne].
      * now rewrite !DictFacts.get_set_same.
      * rewrite !DictFacts.get_set_other by assumption. apply Hd.
        split; [assumption|]. intros b' [<-|Hin] Hb'; [congruence | now apply Hbs].
    + apply (IH ch); [assumption|]. intros k [Hk Hbs]. apply Hd.
      split; [assumption|]. intros b' [<-|Hin] Hb'; [congruence | now apply Hbs].
Qed.

Lemma same_off_n_trans (a b c : context) :
  same_off_n a b -> same_off_n b c -> same_off_n a c.
Proof. intros H1 H2 k Hk. now rewrite H1, H2. Qed.

Lemma emitted_quiet (st st' : state) :
  quiet st st' -> emitted (trace st') = emitted (trace st).
Proof. now intros (_ & _ & _ & _ & ->). Qed.

(** The dictionaries the files of such a template are made with: for the
    branch of [choice], the dictionary [process] started from with the
    assignments of the branch made, [n] apart.  Keys that no block assigns
    to are as they were when the call returns. *)
Lemma process_blocks_dict (tail : string) (bs : list block) :
  Forall fixed_block bs -> Str.mem "[" tail = false ->
  forall fuel f values text st f' values' st',
    remaining f = template bs tail ->
    process fuel f values text st = Some (f', values', st') ->
    content f' = content f /\
    (exists cs,
       emitted (trace st') = (emitted (trace st) ++ cs)%list /\
       Forall2 (fun c choice => same_off_n c (assign (bindings bs choice) values))
         cs (product (map (fun b => candidates (result b)) bs))) /\
    (forall k, untouched bs k -> Dict.get k values' = Dict.get k values).
Proof.
  intros Hbs Htail. induction bs as [|b bs IH];
    intros fuel f values text st f' values' st' Hrem E;
    (destruct fuel as [|fuel]; [discriminate|]);
    rewrite process_S, get_block_scan, Hrem in E; cbn [template] in E.
  - destruct (scan_no_open tail Htail) as [msgs Es]. rewrite Es in E.
    destruct (make_file_spec (text ++ Str.chop tail) values (out_writes msgs st))
      as (_ & _ & _ & He & Hv).
    destruct (make_file (text ++ Str.chop tail) values (out_writes msgs st))
      as [vs2 st2].
    cbn [fst snd] in *. inversion E; subst. split; [reflexivity|]. split.
    + exists [values]. rewrite He, (emitted_quiet _ _ (quiet_out_writes msgs st)).
      split; [reflexivity|]. constructor; [|constructor].
      intros k Hk. reflexivity.
    + intros k [Hk _]. now rewrite DictFacts.get_set_other.
  - inversion Hbs as [|? ? (Hp & Hn & Hev) Hbs']; subst.
    rewrite scan_block in E by assumption.
    cbv beta iota zeta in E. cbn [out_writes fold_left] in E.
    rewrite StrFacts.slice_block in E.
    unfold code_of in Hev.
    destruct (try_assignment (body b)) as [key e] eqn:Eta. cbn [fst snd] in *.
    pose proof (quiet_evaluate e values st) as Hq2.
    destruct (evaluate_returns e values st (result b) (Hev _ _)) as [w Ev].
    rewrite Ev in E, Hq2. cbn [snd] in Hq2.
    set (st2 := set_rng w st) in *.
    set (f1 := seek (pos f + (String.length (lead b) + String.length (body b) + 4)) f) in *.
    set (P := product (map (fun b => candidates (result b)) bs)).
    set (code := "[[" ++ body b ++ "]]") in *.
    assert (Hrem1 : remaining f1 = template bs tail).
    { unfold f1. rewrite remaining_seek, Hrem. cbn [template]. apply drop_block. }
    assert (Htb : target b = key) by (unfold target; now rewrite Eta).
    set (R := fun (c : context) (choice : list value) =>
                same_off_n c (assign (bindings (b :: bs) choice) values)).
    assert (Hcall : forall v fa vsa sta fc vsc stc,
              fa = f1 ->
              (forall k, untouched (b :: bs) k -> Dict.get k vsa = Dict.get k values) ->
              (let '(vs', out', st'') := bound key code v vsa (text ++ lead b) sta in
               process fuel fa vs' out' st'') = Some (fc, vsc, stc) ->
              content fc = content f1 /\
              (forall k, untouched (b :: bs) k -> Dict.get k vsc = Dict.get k values) /\
              exists cs, emitted (trace stc) = (emitted (trace sta) ++ cs)%list /\
                         Forall2 R cs (map (cons v) P)).
    { intros v fa vsa sta fc vsc stc -> Hfr Ec.
      destruct (bound_spec key code v vsa (text ++ lead b) sta) as [m Eb].
      rewrite Eb in Ec.
      destruct (IH Hbs' _ _ _ _ _ _ _ _ Hrem1 Ec) as (Hc & (cs & Hem & Hf2) & Hfr').
      split; [assumption|]. split.
      - intros k Hk. rewrite Hfr'.
        + destruct (Str.nonempty key) eqn:Hkey; [|now apply Hfr].
          rewrite DictFacts.get_set_other; [now apply Hfr|].
          destruct Hk as [_ Hk]. intros ->.
          apply (Hk b); [now left | now rewrite Htb | assumption].
        + destruct Hk as [Hk1 Hk2]. split; [assumption|].
          intros b' Hin. apply Hk2. now right.
      - exists cs. rewrite Hem, (emitted_quiet _ _ (quiet_out_write m sta)).
        split; [reflexivity|]. apply Forall2_map_right.
        refine (Forall2_weaken _ _ _ _ Hf2 _). intros c ch Hin Hc1.
        unfold R. cbn [bindings]. rewrite Htb.
        eapply same_off_n_trans; [exact Hc1|].
        apply product_length in Hin. rewrite length_map in Hin.
        destruct (Str.nonempty key) eqn:Hkey.
        + cbn [assign fold_left fst snd]. apply assign_agree; [assumption|].
          intros k [Hk1 Hk2]. destruct (string_dec k key) as [->|Hne].
          * now rewrite !DictFacts.get_set_same.
          * rewrite !DictFacts.get_set_other by assumption. apply Hfr.
            split; [assumption|].
            intros b' [<-|Hin'] Hb'; [congruence | now apply Hk2].
        + apply assign_agree; [assumption|]. intros k [Hk1 Hk2]. apply Hfr.
          split; [assumption|].
          intros b' [<-|Hin'] Hb'; [congruence | now apply Hk2]. }
    destruct (for_each _ _ _) as [[[f2 vs2] st3]|] eqn:Efor in E; [|discriminate].
    assert (Hloop :
              (f2 = f1 /\
               forall k, untouched (b :: bs) k -> Dict.get k vs2 = Dict.get k values) /\
              exists cs, emitted (trace st3) = (emitted (trace st2) ++ cs)%list /\
                         Forall2 R cs (flat_map (fun v => map (cons v) P)
                                         (forks (result b)))).
    { refine (for_each_rel
                (fun s : file * context * state =>
                   fst (fst s) = f1 /\
                   forall k, untouched (b :: bs) k ->
                             Dict.get k (snd (fst s)) = Dict.get k values)
                (fun s : file * context * state => emitted (trace (snd s)))
                R (fun v => map (cons v) P) _ _ _ (f1, values, st2) (f2, vs2, st3)
                _ Efor).
      - intros v [[fa vsa] sta] [[fb vsb] stb] _ [Ha Hfr] Eb. cbn [fst snd] in *.
        destruct (bound key code v vsa (text ++ lead b) sta) as [[vs' out'] st'']
          eqn:Ebd.
        destruct (process fuel fa vs' out' st'') as [[[fc vsc] stc]|] eqn:Ep;
          [|discriminate].
        cbn [rewind] in Eb. inversion Eb; subst fb vsb stb.
        destruct (Hcall v fa vsa sta fc vsc stc Ha Hfr) as (Hc & Hfr' & Hcs).
        { now rewrite Ebd. }
        split; [|assumption]. split; [|assumption].
        change (seek (tell f1) fc = f1). now apply seek_same.
      - cbn [fst snd]. split; [reflexivity | reflexivity]. }
    destruct Hloop as ((-> & Hfr2) & cs1 & Hem1 & Hf1).
    destruct (bound key code (tail_of (result b)) vs2 (text ++ lead b) st3)
      as [[vs' out'] st''] eqn:Ebd.
    destruct (Hcall (tail_of (result b)) f1 vs2 st3 f' values' st' eq_refl Hfr2)
      as (Hc & Hfr' & cs2 & Hem2 & Hf2).
    { now rewrite Ebd. }
    split; [assumption|]. split; [|assumption].
    exists (cs1 ++ cs2)%list. split.
    + rewrite Hem2, Hem1, (emitted_quiet _ _ Hq2). now rewrite app_assoc.
    + cbn [map product]. fold P. rewrite candidates_forks, flat_map_app.
      apply Forall2_app; [assumption|]. cbn [flat_map]. now rewrite app_nil_r.
Qed.

Lemma candidates_list (l : list value) : l <> [] -> candidates (VList l) = l.
Proof.
  intros Hl. unfold candidates, py_pop.
  assert (H : forall l : list value, l <> [] ->
            exists r x, unsnoc l = Some (r, x) /\ l = (r ++ [x])%list).
  { clear. induction l as [|y l IH]; intros Hl; [congruence|].
    cbn [unsnoc]. destruct l as [|z l].
    - now exists [], y.
    - destruct IH as (r & x & -> & E); [discriminate|].
      exists (y :: r), x. split; [reflexivity|]. now rewrite E. }
  destruct (H l Hl) as (r & x & -> & ->). reflexivity.
Qed.

Lemma length_product {A : Type} (ls : list (list A)) :
  length (product ls) = fold_right Nat.mul 1 (map (@length A) ls).
Proof.
  induction ls as [|l ls IH]; [reflexivity|].
  cbn [product map fold_right]. rewrite <- IH.
  induction l as [|x l IHl]; [reflexivity|].
  cbn [flat_map]. rewrite length_app, length_map, IHl. reflexivity.
Qed.

End ProcessFacts.

(** ** Counting the files *)

Section CountFacts.

Context {W : Type} {Py : Python W}.

#[local] Abbreviation state := (state W).

Lemma progress_refl (st : state) : counted st -> progress st st.
Proof. unfold progress. intros H. repeat split; [assumption | lia | lia]. Qed.

Lemma progress_trans (a b c : state) :
  progress a b -> progress b c -> progress a c.
Proof. unfold progress. intros (? & ? & ?) (? & ? & ?). repeat split; [assumption | lia | lia]. Qed.

Lemma progress_quiet (a b c : state) : progress a b -> quiet b c -> progress a c.
Proof.
  unfold progress, counted, quiet.
  intros (Hc & Hle & Hm) (Hi & Hf & _ & Hcr & _).
  rewrite Hi, Hf, Hcr. now repeat split.
Qed.

Lemma make_file_progress (text : string) (values : context) (st0 st : state) :
  progress st0 st ->
  progress st0 (snd (make_file text values st)) /\
  file_index st0 < file_index (snd (make_file text values st)) /\
  Dict.get "n" (fst (make_file text values st))
  = Some (VInt (Z.of_nat (file_index (snd (make_file text values st))))).
Proof.
  intros (Hc & Hle & Hm).
  destruct (make_file_spec text values st) as (Hi & Hf & Hcr & _ & Hv).
  unfold progress, counted in *.
  rewrite Hi, Hf, Hcr, Hv, !length_app, DictFacts.get_set_same. cbn [length].
  repeat split; lia.
Qed.

(** After [process] the index has moved on and [n] is the index. *)
Lemma process_counted (fuel : nat) (f : file) (values : context)
    (text : string) (st : state) (f' : file) (values' : context) (st' : state) :
  counted st -> wf_dict values ->
  process fuel f values text st = Some (f', values', st') ->
  progress st st' /\ wf_dict values' /\
  file_index st < file_index st' /\
  Dict.get "n" values' = Some (VInt (Z.of_nat (file_index st'))).
Proof.
  intros Hc Hwf E.
  enough (H : (progress st st' /\ wf_dict values') /\
              file_index st < file_index st' /\
              Dict.get "n" values' = Some (VInt (Z.of_nat (file_index st'))))
    by tauto.
  refine (process_hoare
            (fun vs s => progress st s /\ wf_dict vs)
            (fun vs s => (progress st s /\ wf_dict vs) /\
                         file_index st < file_index s /\
                         Dict.get "n" vs = Some (VInt (Z.of_nat (file_index s))))
            (fun _ => True) _ _ _ _ _ fuel f values text st f' values' st' _ E).
  - intros vs s s' [Hp Hw] Hq. split; [eapply progress_quiet; eauto | assumption].
  - intros e vs s _. apply Forall_forall. trivial.
  - intros k v vs s _ _ [Hp Hw]. split; [assumption | now apply DictFacts.wf_set].
  - intros t vs s [Hp Hw].
    destruct (make_file_progress t vs st s Hp) as (Hp' & Hlt & Hn).
    destruct (make_file_spec t vs s) as (_ & _ & _ & _ & Hv).
    repeat split; try assumption; try apply Hp'.
    rewrite Hv. now apply DictFacts.wf_set.
  - tauto.
  - split; [now apply progress_refl | assumption].
Qed.

Lemma pop_sequence_spec (values : context) :
  wf_dict values ->
  let '(key, vals, values1) := pop_sequence values in
  wf_dict values1 /\
  (forall k, k <> key -> Dict.get k values1 = Dict.get k values) /\
  (Str.nonempty key = true ->
   Dict.get key values = Some vals /\ has_len vals && negb (is_str vals) = true).
Proof.
  intros Hwf. unfold pop_sequence.
  destruct (find_sequence values) as [[k v]|] eqn:E.
  - apply DictFacts.find_sequence_in in E as [Hin Hseq].
    split; [now apply DictFacts.wf_pop|]. split.
    + intros k' Hk'. now apply DictFacts.get_pop_other.
    + intros _. split; [now apply DictFacts.get_in | assumption].
  - split; [assumption|]. split; [reflexivity | discriminate].
Qed.

Lemma n_follows_refl (st : state) (vs : context) : n_follows st vs st vs.
Proof. unfold n_follows. split; [lia | reflexivity]. Qed.

(** After [expand_values] the run is still counted, and [n] is the index
    as soon as one file was made. *)
Lemma expand_values_counted (fuel : nat) :
  forall f values text st f' values' st' z,
    counted st -> wf_dict values -> Dict.get "n" values = Some (VInt z) ->
    expand_values fuel f values text st = Some (f', values', st') ->
    progress st st' /\ wf_dict values' /\ n_follows st values st' values'.
Proof.
  induction fuel as [|fuel IH];
    intros f values text st f' values' st' z Hc Hwf Hn E; [discriminate|].
  cbn [expand_values] in E.
  pose proof (pop_sequence_spec values Hwf) as Hpop.
  destruct (pop_sequence values) as [[key vals] values1].
  destruct Hpop as (Hwf1 & Hother & Hkey).
  destruct (Str.nonempty key) eqn:Hk.
  - destruct (Hkey eq_refl) as [Hget Hseq].
    assert (Hkn : "n" <> key).
    { intros <-. rewrite Hn in Hget. inversion Hget; subst. discriminate. }
    destruct (for_each _ _ _) as [[[f2 vs2] st2]|] eqn:Efor in E; [|discriminate].
    assert (Hinv : progress st st2 /\ wf_dict vs2 /\ n_follows st values st2 vs2).
    { refine (for_each_inv
                (fun s : file * context * state =>
                   progress st (snd s) /\ wf_dict (snd (fst s)) /\
                   n_follows st values (snd s) (snd (fst s)))
                _ _ _ (f, values1, st) (f2, vs2, st2) _ Efor).
      - intros v [[fa vsa] sta] [[fb vsb] stb] _ (Hp & Hw & Hf) Eb.
        cbn [fst snd] in *.
        destruct (expand_values fuel fa (Dict.set key v vsa) text sta)
          as [[[fc vsc] stc]|] eqn:Ec; [|discriminate].
        cbn [rewind] in Eb. inversion Eb; subst.
        assert (Hna : exists z', Dict.get "n" vsa = Some (VInt z')).
        { destruct Hf as [Hf1 Hf2]. destruct Hp as (_ & Hle & _).
          destruct (Nat.eq_dec (file_index sta) (file_index st)) as [Heq|Hne].
          - rewrite (Hf2 Heq). eauto.
          - rewrite Hf1 by lia. eauto. }
        destruct Hna as [z' Hna].
        destruct (IH fa (Dict.set key v vsa) text sta fc vsb stb z')
          as (Hp' & Hw' & Hf'); try assumption.
        + apply Hp.
        + now apply DictFacts.wf_set.
        + now rewrite DictFacts.get_set_other.
        + split; [apply (progress_trans _ _ _ Hp Hp')|].
          split; [assumption|]. split.
          * intros Hlt. destruct Hf' as [Hf1' Hf2']. destruct Hf as [Hf1 Hf2].
            destruct Hp as (_ & Hle & _). destruct Hp' as (_ & Hle' & _).
            destruct (Nat.eq_dec (file_index stb) (file_index sta)) as [Heq|Hne].
            -- rewrite (Hf2' Heq), DictFacts.get_set_other by assumption.
               rewrite Heq. apply Hf1. lia.
            -- apply Hf1'. lia.
          * intros Heq. destruct Hf' as [Hf1' Hf2']. destruct Hf as [Hf1 Hf2].
            destruct Hp as (_ & Hle & _). destruct Hp' as (_ & Hle' & _).
            rewrite Hf2' by lia. rewrite DictFacts.get_set_other by assumption.
            apply Hf2. lia.
      - cbn [fst snd]. split; [now apply progress_refl|].
        split; [assumption|]. split; [lia|].
        intros _. now apply Hother. }
    destruct Hinv as (Hp & Hw & Hf1 & Hf2).
    inversion E; subst.
    split; [assumption|]. split; [now apply DictFacts.wf_set|]. split.
    + intros Hlt. rewrite DictFacts.get_set_other by assumption. now apply Hf1.
    + intros Heq. rewrite DictFacts.get_set_other by assumption. now apply Hf2.
  - destruct (process_counted fuel f values1 text st f' values' st' Hc Hwf1 E)
      as (Hp & Hw & Hlt & Hn').
    split; [assumption|]. split; [assumption|]. split.
    + intros _. assumption.
    + intros Heq. lia.
Qed.

Lemma begin_template_spec (iname : string) (st : state) :
  file_index (begin_template iname st) = file_index st /\
  trace (begin_template iname st) = trace st /\
  files_made (begin_template iname st) = [].
Proof.
  unfold begin_template, set_name_motif.
  destruct (os_path_splitext (os_path_basename iname)) as [main ext].
  destruct (if Str.mem "." main then os_path_splitext main else (main, ext)).
  now repeat split.
Qed.

Lemma n_follows_trans (a b c : state) (va vb vc : context) :
  progress a b -> progress b c ->
  n_follows a va b vb -> n_follows b vb c vc -> n_follows a va c vc.
Proof.
  unfold n_follows. intros (_ & Hab & _) (_ & Hbc & _) [H1 H2] [H3 H4]. split.
  - intros Hlt. destruct (Nat.eq_dec (file_index c) (file_index b)) as [E|E].
    + rewrite (H4 E), E. apply H1. lia.
    + apply H3. lia.
  - intros E. rewrite H4 by lia. apply H2. lia.
Qed.

Lemma n_follows_int (a b : state) (va vb : context) (z : Z) :
  progress a b -> n_follows a va b vb -> Dict.get "n" va = Some (VInt z) ->
  exists z', Dict.get "n" vb = Some (VInt z').
Proof.
  intros (_ & Hle & _) [H1 H2] Hn.
  destruct (Nat.eq_dec (file_index b) (file_index a)) as [E|E].
  - rewrite (H2 E). eauto.
  - rewrite H1 by lia. eauto.
Qed.

(** One template: the run stays counted, the index moves by the number of
    files of the template, and once a file was made [n] is the number of
    files made since the start of the run. *)
Lemma parse_counted (fuel : nat) (iname text : string) (values : context)
    (repeat : nat) (st : state) (made : list string) (values' : context)
    (st' : state) :
  counted st -> wf_dict values ->
  parse fuel iname text values repeat st = Some (made, values', st') ->
  counted st' /\ wf_dict values' /\ made = files_made st' /\
  file_index st' = file_index st + length made /\
  (made <> [] ->
   Dict.get "n" values' = Some (VInt (Z.of_nat (length (created (trace st')))))).
Proof.
  intros Hc Hwf E. unfold parse in E.
  set (values0 := Dict.set "n" (VInt 0) values) in *.
  set (st0 := begin_template iname st) in *.
  destruct (begin_template_spec iname st) as (Hi0 & Ht0 & Hm0). fold st0 in Hi0, Ht0, Hm0.
  assert (Hc0 : counted st0) by (unfold counted in *; now rewrite Hi0, Ht0).
  assert (Hwf0 : wf_dict values0) by now apply DictFacts.wf_set.
  assert (Hn0 : Dict.get "n" values0 = Some (VInt 0))
    by apply DictFacts.get_set_same.
  destruct (for_each _ _ _) as [[vs1 st1]|] eqn:Efor in E; [|discriminate].
  inversion E; subst made values' st'. clear E.
  assert (Hinv : progress st0 st1 /\ wf_dict vs1 /\ n_follows st0 values0 st1 vs1).
  { refine (for_each_inv
              (fun s : context * state =>
                 progress st0 (snd s) /\ wf_dict (fst s) /\
                 n_follows st0 values0 (snd s) (fst s))
              _ _ _ (values0, st0) (vs1, st1) _ Efor).
    - intros x [vsa sta] [vsb stb] _ (Hp & Hw & Hf) Eb. cbn [fst snd] in *.
      destruct (expand_values fuel (open_file text) vsa "" sta)
        as [[[fc vsc] stc]|] eqn:Ec; [|discriminate].
      inversion Eb; subst.
      destruct (n_follows_int _ _ _ _ _ Hp Hf Hn0) as [z' Hna].
      destruct (expand_values_counted fuel _ _ _ _ _ _ _ z' (proj1 Hp) Hw Hna Ec)
        as (Hp' & Hw' & Hf').
      split; [apply (progress_trans _ _ _ Hp Hp')|]. split; [assumption|].
      apply (n_follows_trans _ _ _ _ _ _ Hp Hp' Hf Hf').
    - cbn [fst snd]. split; [now apply progress_refl|]. split; [assumption|].
      apply n_follows_refl. }
  destruct Hinv as ((Hc1 & Hle & Hm) & Hw1 & Hf1 & _).
  rewrite Hi0 in Hle, Hm. rewrite Hm0 in Hm. cbn [length] in Hm.
  split; [assumption|]. split; [assumption|]. split; [reflexivity|].
  split; [lia|].
  intros Hne. rewrite Hf1.
  - now rewrite Hc1.
  - rewrite Hi0. destruct (files_made st1); [congruence | cbn [length] in Hm; lia].
Qed.

Lemma parse_inputs_counted (fuel : nat) (inputs : list (string * string))
    (values : context) (repeat : nat) (st : state) (values' : context)
    (st' : state) :
  counted st -> wf_dict values ->
  (files_made st <> [] ->
   Dict.get "n" values = Some (VInt (Z.of_nat (length (created (trace st)))))) ->
  parse_inputs fuel inputs values repeat st = Some (values', st') ->
  counted st' /\ wf_dict values' /\
  (files_made st' <> [] ->
   Dict.get "n" values' = Some (VInt (Z.of_nat (length (created (trace st')))))).
Proof.
  intros Hc Hwf Hn E. unfold parse_inputs in E.
  refine (for_each_inv
            (fun s : context * state =>
               counted (snd s) /\ wf_dict (fst s) /\
               (files_made (snd s) <> [] ->
                Dict.get "n" (fst s)
                = Some (VInt (Z.of_nat (length (created (trace (snd s))))))))
            _ _ _ (values, st) (values', st') _ E); [|now repeat split].
  intros [iname text] [vsa sta] [vsb stb] _ (Hca & Hwa & _) Eb.
  cbn [fst snd] in *.
  destruct (parse fuel iname text vsa repeat sta) as [[[made vsc] stc]|] eqn:Ep;
    [|discriminate].
  inversion Eb; subst.
  destruct (parse_counted _ _ _ _ _ _ _ _ _ Hca Hwa Ep) as (Hcb & Hwb & Hm & _ & Hnb).
  subst made. now repeat split.
Qed.

End CountFacts.

(** ** Scalars in the dictionary *)

Section ScalarFacts.

Context {W : Type} {Py : Python W}.

Lemma flat_candidates (v : value) :
  flat v = true -> Forall (fun x => scalar x = true) (candidates v).
Proof.
  unfold flat. intros H. apply orb_prop in H as [H|H].
  - destruct v; try discriminate; repeat constructor; assumption.
  - destruct v as [| |[|x l]| |]; try discriminate.
    rewrite candidates_list by discriminate.
    apply Forall_forall. now apply forallb_forall.
Qed.

Lemma all_scalar_set (k : string) (v : value) (d : context) :
  scalar v = true -> all_scalar d = true -> all_scalar (Dict.set k v d) = true.
Proof.
  intros Hv. unfold all_scalar.
  induction d as [|[k0 v0] d IH]; cbn [Dict.set forallb snd].
  - now rewrite Hv.
  - intros H. apply andb_prop in H as [H0 Hd].
    destruct (String.eqb k k0); cbn [forallb snd].
    + now rewrite Hv, Hd.
    + now rewrite H0, IH.
Qed.

Lemma find_sequence_none (d : context) :
  find_sequence d = None -> all_scalar d = true.
Proof.
  unfold all_scalar, scalar.
  induction d as [|[k v] d IH]; cbn [find_sequence forallb snd]; [reflexivity|].
  destruct (has_len v && negb (is_str v)); [discriminate|].
  intros H. now rewrite IH.
Qed.

Lemma get_of_in (k : string) (v : value) (d : context) :
  In (k, v) d -> Dict.get k d <> None.
Proof.
  induction d as [|[k0 v0] d IH]; cbn [In Dict.get]; [tauto|].
  intros [E|Hin].
  - inversion E; subst. rewrite String.eqb_refl. discriminate.
  - destruct (String.eqb k k0); [discriminate | now apply IH].
Qed.

Lemma nonempty_neq (k : string) : Str.nonempty k = true -> "" <> k.
Proof. now destruct k. Qed.

Lemma process_scalar (fuel : nat) (f : file) (values : context)
    (text : string) (st : state W) (f' : file) (values' : context)
    (st' : state W) :
  flat_results Py ->
  all_scalar values = true -> scalar_run values st ->
  process fuel f values text st = Some (f', values', st') ->
  all_scalar values' = true /\ scalar_run values' st'.
Proof.
  intros Hflat Ha Hr E.
  refine (process_hoare
            (fun vs s => all_scalar vs = true /\ scalar_run vs s)
            (fun vs s => all_scalar vs = true /\ scalar_run vs s)
            (fun v => scalar v = true)
            _ _ _ _ _ fuel f values text st f' values' st' (conj Ha Hr) E).
  - intros vs s s' (H1 & H2 & H3) (_ & _ & _ & _ & Hq).
    unfold scalar_run. now rewrite Hq.
  - intros e vs s (H1 & _). unfold evaluate.
    specialize (Hflat e vs (rng s) H1).
    destruct (py_eval e vs (rng s)) as [[v|m] w]; cbn [fst] in *.
    + now apply flat_candidates.
    + repeat constructor.
  - intros k v vs s Hv Hk (H1 & H2 & H3). split; [now apply all_scalar_set|].
    split; [|assumption].
    rewrite DictFacts.get_set_other; [assumption | now apply nonempty_neq].
  - intros t vs s (H1 & H2 & H3).
    destruct (make_file_spec t vs s) as (_ & _ & _ & He & Hv).
    rewrite Hv. split; [now apply all_scalar_set|].
    split; [rewrite DictFacts.get_set_other; [assumption | discriminate]|].
    rewrite He. apply Forall_app. split; [assumption | now repeat constructor].
  - tauto.
Qed.

Lemma expand_values_scalar (fuel : nat) :
  flat_results Py ->
  forall f values text st f' values' st',
    scalar_run values st ->
    expand_values fuel f values text st = Some (f', values', st') ->
    scalar_run values' st'.
Proof.
  intros Hflat. induction fuel as [|fuel IH];
    intros f values text st f' values' st' Hr E; [discriminate|].
  cbn [expand_values] in E. unfold pop_sequence in E.
  destruct (find_sequence values) as [[key vals]|] eqn:Ef.
  - apply DictFacts.find_sequence_in in Ef as [Hin _].
    destruct (Str.nonempty key) eqn:Hk.
    + apply nonempty_neq in Hk.
      destruct (for_each _ _ _) as [[[f2 vs2] st2]|] eqn:Efor in E; [|discriminate].
      inversion E; subst.
      assert (Hinv : scalar_run vs2 st').
      { refine (for_each_inv
                  (fun s : file * context * state W => scalar_run (snd (fst s)) (snd s))
                  _ _ _ (f, Dict.pop key values, st) (f', vs2, st') _ Efor).
        - intros v [[fa vsa] sta] [[fb vsb] stb] _ Ha Eb. cbn [fst snd] in *.
          destruct (expand_values fuel fa (Dict.set key v vsa) text sta)
            as [[[fc vsc] stc]|] eqn:Ec; [|discriminate].
          cbn [rewind] in Eb. inversion Eb; subst.
          eapply IH; [|exact Ec]. destruct Ha as [Ha1 Ha2].
          split; [|assumption]. now rewrite DictFacts.get_set_other.
        - cbn [fst snd]. destruct Hr as [Hr1 Hr2]. split; [|assumption].
          now rewrite DictFacts.get_pop_other. }
      destruct Hinv as [H1 H2]. split; [|assumption].
      now rewrite DictFacts.get_set_other.
    + destruct key; [|discriminate].
      apply get_of_in in Hin. now destruct Hr.
  - cbn [Str.nonempty] in E.
    eapply process_scalar; eauto. now apply find_sequence_none.
Qed.

(** A template binds scalars only when its snippets give scalars or lists
    of scalars. *)
Lemma process_all_scalar (fuel : nat) (f : file) (values : context)
    (text : string) (st : state W) (f' : file) (values' : context)
    (st' : state W) :
  flat_results Py ->
  all_scalar values = true ->
  process fuel f values text st = Some (f', values', st') ->
  all_scalar values' = true.
Proof.
  intros Hflat Ha E.
  refine (process_hoare
            (fun vs _ => all_scalar vs = true) (fun vs _ => all_scalar vs = true)
            (fun v => scalar v = true)
            _ _ _ _ _ fuel f values text st f' values' st' Ha E).
  - auto.
  - intros e vs s H1. unfold evaluate.
    specialize (Hflat e vs (rng s) H1).
    destruct (py_eval e vs (rng s)) as [[v|m] w]; cbn [fst] in *.
    + now apply flat_candidates.
    + repeat constructor.
  - intros k v vs s Hv Hk H1. now apply all_scalar_set.
  - intros t vs s H1.
    destruct (make_file_spec t vs s) as (_ & _ & _ & _ & Hv).
    rewrite Hv. now apply all_scalar_set.
  - auto.
Qed.

(** What [evaluate] returns in a dictionary of scalars is forked into
    scalars. *)
Lemma evaluate_flat (e : string) (values : context) (st : state W) :
  flat_results Py ->
  all_scalar values = true ->
  Forall (fun x => scalar x = true) (candidates (fst (evaluate e values st))).
Proof.
  intros Hflat Ha. unfold evaluate.
  specialize (Hflat e values (rng st) Ha).
  destruct (py_eval e values (rng st)) as [[v|m] w]; cbn [fst] in *.
  - now apply flat_candidates.
  - repeat constructor.
Qed.

End ScalarFacts.

(** ** The claims *)

#[local] Existing Instance Mini.python.

(** Concrete runs are settled by evaluation: [ran] computes the call on
    the left of the first equation and instantiates the existentials with
    its components. *)
Ltac ran :=
  lazymatch goal with
  | |- exists a b c, ?lhs = Some _ /\ _ =>
      let r := eval vm_compute in lhs in
      lazymatch r with
      | Some (?x, ?y, ?z) =>
          exists x, y, z; split; [vm_compute; reflexivity|]
      end
  | |- exists a b, ?lhs = Some _ /\ _ =>
      let r := eval vm_compute in lhs in
      lazymatch r with
      | Some (?x, ?y) => exists x, y; split; [vm_compute; reflexivity|]
      end
  end.

(** C1.  A template made of blocks whose results do not depend on the
    dictionary, value blocks and assignment blocks alike: [process] makes
    one file per element of the cartesian product of the candidate lists
    (for a non-empty list, its elements in their order), in lexicographic
    order with the first block varying slowest; the text of each file
    shows the values chosen at the value blocks, the dictionary it is made
    with holds the values chosen at the assignment blocks, and there are
    as many files as the product of the lengths. *)
Theorem C1_lexicographic_order {W : Type} {Py : Python W}
    (bs : list block) (tail : string) (fuel : nat) (f : file)
    (values : context) (text : string) (st : state W) :
  Forall fixed_block bs ->
  Str.mem "[" tail = false ->
  length bs < fuel ->
  remaining f = template bs tail ->
  let choices := product (map (fun b => candidates (result b)) bs) in
  exists f' values' st' cs,
    process fuel f values text st = Some (f', values', st') /\
    texts (trace st')
    = (texts (trace st)
       ++ map (fun choice => (text ++ render bs choice ++ Str.chop tail)%string)
            choices)%list /\
    emitted (trace st') = (emitted (trace st) ++ cs)%list /\
    Forall2 (fun c choice => same_off_n c (assign (bindings bs choice) values))
      cs choices /\
    length choices
    = fold_right Nat.mul 1 (map (fun b => length (candidates (result b))) bs).
Proof.
  intros Hbs Htail Hfuel Hrem choices.
  destruct (process_blocks tail bs Hbs Htail fuel f values text st Hfuel Hrem)
    as (f' & values' & st' & E & _ & Ht).
  destruct (process_blocks_dict tail bs Hbs Htail fuel f values text st
              f' values' st' Hrem E) as (_ & (cs & Hem & Hf) & _).
  exists f', values', st', cs.
  split; [assumption|]. split; [assumption|]. split; [assumption|].
  split; [assumption|].
  unfold choices. now rewrite length_product, map_map.
Qed.

Lemma C1_witness :
  exists f' values' st' cs,
    process 3 (open_file (template rate_speed newline)) [("n", VInt 0)] ""
      (initial_state tt) = Some (f', values', st') /\
    texts (trace st')
    = ([] ++ map (fun choice => ("" ++ render rate_speed choice ++ Str.chop newline)%string)
               (product (map (fun b => candidates (result b)) rate_speed)))%list /\
    emitted (trace st') = ([] ++ cs)%list /\
    Forall2 (fun c choice =>
               same_off_n c (assign (bindings rate_speed choice) [("n", VInt 0)]))
      cs (product (map (fun b => candidates (result b)) rate_speed)) /\
    length (product (map (fun b => candidates (result b)) rate_speed))
    = fold_right Nat.mul 1 (map (fun b => length (candidates (result b))) rate_speed).
Proof.
  apply (C1_lexicographic_order (Py := Mini.python) rate_speed newline 3
           (open_file (template rate_speed newline)) [("n", VInt 0)] ""
           (initial_state tt)).
  - repeat constructor.
  - reflexivity.
  - cbn. lia.
  - reflexivity.
Defined.

(** Example 1 of the documentation, nine files, and a reduced Example 3,
    where two assignment blocks feed two value blocks. *)
Example example_1_files :
  exists made values' st',
    parse 4 "config.cym.tpl" (template rate_speed newline) [] 1 (initial_state tt)
    = Some (made, values', st') /\
    texts (trace st')
    = map (fun rs => "rate=" ++ fst rs ++ newline ++ "speed=" ++ snd rs)
        [("1", "-1"); ("1", "0"); ("1", "1");
         ("10", "-1"); ("10", "0"); ("10", "1");
         ("100", "-1"); ("100", "0"); ("100", "1")].
Proof. ran. reflexivity. Qed.

Example example_3_files :
  exists made values' st',
    parse 6 "config.cym.tpl" "[[ x = [0, 1] ]][[ y = [0, 1, 2] ]]a=[[ x ]] b=[[ y ]]!"
      [] 1 (initial_state tt)
    = Some (made, values', st') /\
    texts (trace st')
    = ["a=0 b=0"; "a=0 b=1"; "a=0 b=2"; "a=1 b=0"; "a=1 b=1"; "a=1 b=2"].
Proof. ran. reflexivity. Qed.

(** A template without an opening bracket gives one file: the template
    less its last character, which differs from the template unless the
    template is empty. *)
Lemma no_block_template {W : Type} {Py : Python W} (t : string) (fuel : nat)
    (values : context) (st : state W) :
  Str.mem "[" t = false ->
  exists f' values' st',
    process (S fuel) (open_file t) values "" st = Some (f', values', st') /\
    texts (trace st') = (texts (trace st) ++ [Str.chop t])%list /\
    (t <> "" -> Str.chop t <> t).
Proof.
  intros Ht.
  destruct (process_blocks t [] (Forall_nil _) Ht (S fuel) (open_file t) values "" st)
    as (f' & values' & st' & E & _ & Htx); [cbn; lia | reflexivity |].
  exists f', values', st'. split; [assumption|].
  split; [now rewrite Htx | apply StrFacts.chop_shorter].
Qed.

(** C2.  The template [rate=1] followed by a newline has no block; the one
    file made from it is [rate=1], without the newline: [get_block] leaves
    the loop at the end of the input before the last character read is
    copied. *)
Theorem C2_last_character_lost :
  exists made values' st',
    parse 2 "config.cym.tpl" ("rate=1" ++ newline) [] 1 (initial_state tt)
    = Some (made, values', st') /\
    made = ["config0000.cym"] /\
    texts (trace st') = ["rate=1"] /\
    texts (trace st') <> ["rate=1" ++ newline].
Proof.
  ran. split; [reflexivity|]. split; [reflexivity | discriminate].
Qed.

(** C3 (as stated) fails.  A tuple and an empty list both have a length
    and are not strings, yet [process] does not take either for a sequence
    of candidates: [pop()] raises [AttributeError] on the first and
    [IndexError] on the second, and the object is substituted whole, in
    one file. *)
Lemma C3_counterexample :
  scalar (VTuple [VInt 1; VInt 2]) = false /\
  scalar (VList []) = false /\
  (exists made values' st',
     parse 3 "config.cym.tpl" "v=[[ (1, 2) ]]!" [] 1 (initial_state tt)
     = Some (made, values', st') /\
     texts (trace st') = ["v=(1, 2)"]) /\
  (exists made values' st',
     parse 3 "config.cym.tpl" "v=[[ [] ]]!" [] 1 (initial_state tt)
     = Some (made, values', st') /\
     texts (trace st') = ["v=[]"]).
Proof. split; [reflexivity|]. split; [reflexivity|]. split; ran; reflexivity. Qed.

Lemma candidates_cases (v : value) :
  candidates v = match v with VList (x :: l) => x :: l | w => [w] end.
Proof.
  destruct v as [| |[|x l]| |]; try reflexivity.
  apply candidates_list. discriminate.
Qed.

Lemma flat_map_unit {A B : Type} (h : A -> B) (l : list A) :
  flat_map (fun x => [h x]) l = map h l.
Proof. induction l as [|x l IH]; [reflexivity|]. cbn. now rewrite IH. Qed.

(** C3, amended.  A block whose result is a non-empty list is taken for a
    sequence of candidates: one file per element, in their order.  A block
    whose result is an empty list, a string or an object without length is
    taken for one value: one file.  (Tuples are left aside.) *)
Theorem C3_fork_trigger {W : Type} {Py : Python W} (b : block) (tail : string)
    (f : file) (values : context) (text : string) (st : state W) :
  fixed_block b ->
  Str.mem "[" tail = false ->
  remaining f = template [b] tail ->
  (forall l, result b <> VTuple l) ->
  exists f' values' st',
    process 2 f values text st = Some (f', values', st') /\
    texts (trace st')
    = (texts (trace st)
       ++ map (fun v => (text ++ render [b] [v] ++ Str.chop tail)%string)
            (match result b with
             | VList (x :: l) => x :: l
             | v => [v]
             end))%list.
Proof.
  intros Hb Htail Hrem _.
  destruct (process_blocks tail [b] (Forall_cons _ Hb (Forall_nil _)) Htail
              2 f values text st) as (f' & values' & st' & E & _ & Ht);
    [cbn; lia | assumption |].
  exists f', values', st'. split; [assumption|].
  rewrite Ht. f_equal. cbn [map product].
  rewrite map_flat_map. cbn [map]. rewrite flat_map_unit.
  rewrite candidates_cases.
  destruct (result b) as [| |[|? ?]| |]; reflexivity.
Qed.

Lemma C3_witness :
  exists f' values' st',
    process 2 (open_file (template [ {| lead := "v="; body := " [1, 2] ";
                                         result := VList [VInt 1; VInt 2] |} ] "!"))
      [("n", VInt 0)] "" (initial_state tt)
    = Some (f', values', st') /\
    texts (trace st')
    = ([] ++ map (fun v =>
                    ("" ++ render [ {| lead := "v="; body := " [1, 2] ";
                                       result := VList [VInt 1; VInt 2] |} ] [v]
                     ++ Str.chop "!")%string)
               [VInt 1; VInt 2])%list.
Proof.
  apply (C3_fork_trigger (Py := Mini.python)
           {| lead := "v="; body := " [1, 2] "; result := VList [VInt 1; VInt 2] |}
           "!" _ [("n", VInt 0)] "" (initial_state tt)).
  - repeat constructor.
  - reflexivity.
  - reflexivity.
  - discriminate.
Defined.

(** C4 (as stated) fails.  The assignment block of the template binds [x]
    to each of the two inner lists in turn, and each file is made with a
    list in the dictionary. *)
Lemma C4_counterexample :
  exists made values' st',
    parse 9 "t.txt.tpl" "[[ x = [[1, 2], [3, 4]] ]]!" [] 1 (initial_state tt)
    = Some (made, values', st') /\
    emitted (trace st')
    = [ [("n", VInt 0); ("x", VList [VInt 1; VInt 2])];
        [("n", VInt 1); ("x", VList [VInt 3; VInt 4])] ] /\
    forallb all_scalar (emitted (trace st')) = false.
Proof. ran. split; reflexivity. Qed.

Lemma all_scalar_find (d : context) :
  all_scalar d = true -> find_sequence d = None.
Proof.
  unfold all_scalar, scalar.
  induction d as [|[k v] d IH]; cbn [find_sequence forallb snd]; [reflexivity|].
  intros H. apply andb_prop in H as [Hv Hd]. apply negb_true_iff in Hv.
  rewrite Hv. now apply IH.
Qed.

Lemma expand_values_of_scalars {W : Type} {Py : Python W} (fuel : nat)
    (f : file) (values : context) (text : string) (st : state W) :
  flat_results Py ->
  all_scalar values = true -> scalar_run values st ->
  String.length (remaining f) + 1 < fuel ->
  exists f' values' st',
    expand_values fuel f values text st = Some (f', values', st') /\
    all_scalar values' = true /\ scalar_run values' st'.
Proof.
  intros Hflat Ha Hr Hlen. destruct fuel as [|fuel]; [lia|].
  cbn [expand_values]. unfold pop_sequence.
  rewrite (all_scalar_find values Ha). cbn [Str.nonempty].
  destruct (process_total fuel f values text st) as (f' & values' & st' & E & _);
    [lia|].
  exists f', values', st'. split; [assumption|].
  now apply (process_scalar fuel f values text st f' values' st').
Qed.

(** C4, amended.  Let every snippet, evaluated in a dictionary of scalars,
    raise or give a scalar or a non-empty list of scalars.  Then, whatever
    sequences the dictionary handed to [parse] holds under its non-empty
    keys, nested or not, every file is made with a dictionary of scalars:
    [expand_values] has expanded the sequences given from outside, and the
    template has bound scalars only.  When the dictionary handed to [parse]
    holds scalars only, [parse] returns once the fuel exceeds the length of
    the template by two. *)
Theorem C4_scalars_at_emission {W : Type} {Py : Python W} (fuel : nat)
    (iname text : string) (values : context) (repeat : nat) (st : state W) :
  flat_results Py ->
  Dict.get "" values = None ->
  Forall (fun c => all_scalar c = true) (emitted (trace st)) ->
  (forall made values' st',
     parse fuel iname text values repeat st = Some (made, values', st') ->
     Forall (fun c => all_scalar c = true) (emitted (trace st'))) /\
  (all_scalar values = true ->
   String.length text + 1 < fuel ->
   exists made values' st',
     parse fuel iname text values repeat st = Some (made, values', st')).
Proof.
  intros Hflat Hk He.
  assert (Hr0 : scalar_run (Dict.set "n" (VInt 0) values) (begin_template iname st)).
  { split.
    - rewrite DictFacts.get_set_other; [assumption | discriminate].
    - destruct (begin_template_spec iname st) as (_ & -> & _). assumption. }
  split.
  - intros made values' st' E. unfold parse in E.
    destruct (for_each _ _ _) as [[vs1 st1]|] eqn:Efor in E; [|discriminate].
    inversion E; subst. clear E.
    enough (H : scalar_run values' st') by apply H.
    refine (for_each_inv
              (fun s : context * state W => scalar_run (fst s) (snd s))
              _ _ _ _ (values', st') _ Efor); [|exact Hr0].
    intros x [vsa sta] [vsb stb] _ Ha Eb. cbn [fst snd] in *.
    destruct (expand_values fuel (open_file text) vsa "" sta)
      as [[[fc vsc] stc]|] eqn:Ec; [|discriminate].
    inversion Eb; subst. eapply expand_values_scalar; eauto.
  - intros Ha Hlen. unfold parse.
    match goal with
    | |- context [@for_each _ ?S ?l ?b ?s0] =>
        destruct (for_each_acc
                    (fun s : S => all_scalar (fst s) = true /\
                                  scalar_run (fst s) (snd s))
                    (fun _ => @nil unit) (fun _ => []) l b)
          with (s := s0) as ([vs1 st1] & -> & _ & _)
    end.
    + intros x [vsa sta] _ [Hs Hr]. cbn [fst snd] in *.
      destruct (expand_values_of_scalars fuel (open_file text) vsa "" sta
                  Hflat Hs Hr) as (f' & vs' & st' & -> & Hs' & Hr');
        [exact Hlen|].
      exists (vs', st'). split; [reflexivity|]. split; [|reflexivity].
      split; assumption.
    + split; [|exact Hr0]. now apply all_scalar_set.
    + now eexists _, _, _.
Qed.

Lemma eval_flat_results : flat_results (with_eval Mini.python eval_flat).
Proof.
  intros cmd vs w _. cbn [py_eval with_eval]. unfold eval_flat.
  destruct (Mini.eval cmd vs w) as [[v|m] w']; cbn [fst]; [|exact I].
  destruct (flat v) eqn:E; cbn [fst]; [exact E | exact I].
Qed.

Lemma C4_witness :
  let given := [("a", VList [VList [VInt 1; VInt 2]; VInt 3])] in
  let text := "[[ x = [1, 2] ]]v=[[ x ]]!" in
  (forall made values' st',
     @parse unit (with_eval Mini.python eval_flat) 30 "t.txt.tpl" text given 1
       (initial_state tt) = Some (made, values', st') ->
     Forall (fun c => all_scalar c = true) (emitted (trace st'))) /\
  (all_scalar given = true ->
   String.length text + 1 < 30 ->
   exists made values' st',
     @parse unit (with_eval Mini.python eval_flat) 30 "t.txt.tpl" text given 1
       (initial_state tt) = Some (made, values', st')).
Proof.
  apply (C4_scalars_at_emission (Py := with_eval Mini.python eval_flat) 30
           "t.txt.tpl" "[[ x = [1, 2] ]]v=[[ x ]]!"
           [("a", VList [VList [VInt 1; VInt 2]; VInt 3])] 1 (initial_state tt)).
  - exact eval_flat_results.
  - reflexivity.
  - constructor.
Defined.

(** That run: six files, each made with scalars for [a] and [x]. *)
Example nested_given_sequence :
  exists made values' st',
    @parse unit (with_eval Mini.python eval_flat) 30 "t.txt.tpl"
      "[[ x = [1, 2] ]]v=[[ x ]]!"
      [("a", VList [VList [VInt 1; VInt 2]; VInt 3])] 1 (initial_state tt)
    = Some (made, values', st') /\
    map (fun c => (Dict.get "a" c, Dict.get "x" c)) (emitted (trace st'))
    = [ (Some (VInt 1), Some (VInt 1)); (Some (VInt 1), Some (VInt 2));
        (Some (VInt 2), Some (VInt 1)); (Some (VInt 2), Some (VInt 2));
        (Some (VInt 3), Some (VInt 1)); (Some (VInt 3), Some (VInt 2)) ].
Proof. ran. reflexivity. Qed.

Lemma out_writes_trace {W : Type} (msgs : list string) (st : state W) :
  trace (out_writes msgs st) = (trace st ++ map OutLine msgs)%list.
Proof.
  unfold out_writes. revert st.
  induction msgs as [|m msgs IH]; intros st; cbn [fold_left map].
  - now rewrite app_nil_r.
  - rewrite IH. unfold out_write, log_event. cbn [trace].
    now rewrite <- app_assoc.
Qed.

Lemma stderr_of_out_lines (tr : list event) (msgs : list string) :
  stderr_of false (tr ++ map OutLine msgs) = stderr_of false tr.
Proof.
  induction tr as [|ev tr IH]; cbn [app stderr_of].
  - induction msgs as [|m msgs IHm]; [reflexivity | exact IHm].
  - destruct ev; now rewrite ?IH.
Qed.

(** C5 (as stated) fails.  The template [val=[[ 5 ]] of the specification,
    read while [config.cym.tpl] is the current template: nothing reaches
    the error stream, and the one line written, to [out], is the fixed
    text about the end of the input, without the name.  The template
    [rate[1], whose bracket is never matched: nothing is written at all. *)
Lemma C5_counterexample :
  let st := begin_template "config.cym.tpl" (initial_state tt) in
  let left_open := snd (get_block (open_file "val=[[ 5 ]") CODE_IN CODE_OUT st) in
  let unmatched := snd (get_block (open_file "rate[1") CODE_IN CODE_OUT st) in
  stderr_of (out_verbose left_open) (trace left_open) = [] /\
  trace left_open = [OutLine msg_eof] /\
  trace unmatched = [].
Proof. repeat split. Qed.

(** C5, amended.  A template that ends inside a block (plain text, [[[],
    and code in which no two closing brackets follow each other):
    [get_block] returns the text before the block with the end-of-input
    flag, and writes to [out], and only there, the fixed line about the
    end of the input, after one fixed line for each closing bracket that
    took the depth below zero; with [out] the null device nothing reaches
    [sys.stderr]; [process] then makes the file of the branch from the text
    before the block.  A template that only leaves single brackets open is
    not reported at all. *)
Theorem C5_malformed_template {W : Type} {Py : Python W} (pre body : string)
    (fuel : nat) (values : context) (text : string) (st : state W) :
  plain pre = true ->
  no_double_close "[" body = true ->
  let f := open_file (pre ++ "[[" ++ body) in
  (exists msgs f1 st1,
     get_block f CODE_IN CODE_OUT st = (pre, "", true, f1, st1) /\
     trace st1 = (trace st ++ map OutLine (msgs ++ [msg_eof]))%list /\
     Forall (eq msg_unbalanced) msgs /\
     stderr_of false (trace st1) = stderr_of false (trace st)) /\
  (exists f' values' st',
     process (S fuel) f values text st = Some (f', values', st') /\
     texts (trace st') = (texts (trace st) ++ [(text ++ pre)%string])%list) /\
  (forall t, Str.mem "]" t = false -> no_double_open " " t = true ->
     get_block (open_file t) CODE_IN CODE_OUT st
     = (Str.chop t, "", true, seek (String.length t) (open_file t), st)).
Proof.
  intros Hp Hd f.
  destruct (scan_open_block pre body Hp Hd) as (msgs & Es & Hf).
  assert (Hgb : get_block f CODE_IN CODE_OUT st
                = (pre, "", true,
                   seek (pos f + (String.length pre + 2 + String.length body)) f,
                   out_writes (msgs ++ [msg_eof]) st)).
  { rewrite get_block_scan. change (remaining f) with (pre ++ "[[" ++ body).
    now rewrite Es. }
  split; [|split].
  - eexists msgs, _, _. split; [exact Hgb|].
    rewrite out_writes_trace. split; [reflexivity|]. split; [assumption|].
    apply stderr_of_out_lines.
  - rewrite process_S, Hgb.
    pose proof (texts_make_file (text ++ pre) values
                  (out_writes (msgs ++ [msg_eof]) st)) as Ht.
    destruct (make_file (text ++ pre) values (out_writes (msgs ++ [msg_eof]) st))
      as [vs2 st2].
    eexists _, vs2, st2. split; [reflexivity|]. cbn [snd] in Ht. rewrite Ht.
    now rewrite (texts_quiet _ _ (quiet_out_writes _ st)).
  - intros t Hm Ho. rewrite get_block_scan.
    change (remaining (open_file t)) with t.
    now rewrite (scan_unreported t Hm Ho).
Qed.

Lemma C5_witness :
  let f := open_file ("val=" ++ "[[" ++ " 5 ]") in
  let st := initial_state tt in
  (exists msgs f1 st1,
     get_block f CODE_IN CODE_OUT st = ("val=", "", true, f1, st1) /\
     trace st1 = (trace st ++ map OutLine (msgs ++ [msg_eof]))%list /\
     Forall (eq msg_unbalanced) msgs /\
     stderr_of false (trace st1) = stderr_of false (trace st)) /\
  (exists f' values' st',
     process 1 f [("n", VInt 0)] "" st = Some (f', values', st') /\
     texts (trace st') = (texts (trace st) ++ [("" ++ "val=")%string])%list) /\
  (forall t, Str.mem "]" t = false -> no_double_open " " t = true ->
     get_block (open_file t) CODE_IN CODE_OUT st
     = (Str.chop t, "", true, seek (String.length t) (open_file t), st)).
Proof.
  apply (C5_malformed_template (Py := Mini.python) "val=" " 5 ]" 0
           [("n", VInt 0)] "" (initial_state tt)); reflexivity.
Defined.

Lemma evaluate_raises {W : Type} {Py : Python W} (e : string) (values : context)
    (st : state W) (msg : string) (w : W) :
  py_eval e values (rng st) = (Raises msg, w) ->
  fst (evaluate e values st) = VStr e /\
  trace (snd (evaluate e values st))
  = (trace st
     ++ [ErrLine (esc ++ "[95m");
         ErrLine ("Error in file `" ++ template_name st ++ "`:" ++ nl);
         ErrLine (esc ++ "[0m");
         ErrLine ("    Could not evaluate [[" ++ e ++ "]]" ++ nl);
         ErrLine ("    " ++ msg ++ nl)])%list.
Proof.
  intros E. unfold evaluate. rewrite E. cbn [fst snd].
  split; [reflexivity|].
  unfold err_write, log_event, set_rng. cbn [trace template_name].
  now rewrite <- !app_assoc.
Qed.

(** C6.  A block whose code raises in [eval]: [evaluate] returns the code
    itself as a string and writes to [sys.stderr] the name of the template,
    the code and the message of the exception; no file is made or lost by
    it; [process] binds the string like any single value (to the name of an
    assignment, to the text otherwise) and goes on with the next block, and
    the call returns. *)
Theorem C6_evaluation_failure {W : Type} {Py : Python W}
    (fuel : nat) (f f1 : file) (values : context)
    (text pre code key e msg : string) (st st1 : state W) (w : W) :
  get_block f CODE_IN CODE_OUT st = (pre, code, false, f1, st1) ->
  try_assignment (Str.slice_2_m2 code) = (key, e) ->
  py_eval e values (rng st1) = (Raises msg, w) ->
  String.length (remaining f) < S fuel ->
  let st2 := snd (evaluate e values st1) in
  fst (evaluate e values st1) = VStr e /\
  trace st2
  = (trace st1
     ++ [ErrLine (esc ++ "[95m");
         ErrLine ("Error in file `" ++ template_name st1 ++ "`:" ++ nl);
         ErrLine (esc ++ "[0m");
         ErrLine ("    Could not evaluate [[" ++ e ++ "]]" ++ nl);
         ErrLine ("    " ++ msg ++ nl)])%list /\
  quiet st1 st2 /\
  process (S fuel) f values text st
  = (if Str.nonempty key
     then process fuel f1 (Dict.set key (VStr e) values) (text ++ pre)
            (out_write (line_bound key e) st2)
     else process fuel f1 values ((text ++ pre) ++ e)
            (out_write (line_subst code e) st2)) /\
  exists r, process (S fuel) f values text st = Some r.
Proof.
  intros Hgb Hta Hev Hlen st2.
  destruct (evaluate_raises e values st1 msg w Hev) as [Hres Htr].
  split; [assumption|]. split; [assumption|].
  split; [apply quiet_evaluate|]. split.
  - rewrite process_S, Hgb, Hta.
    subst st2. destruct (evaluate e values st1) as [vals st2].
    cbn [fst snd] in *. subst vals.
    cbn [forks tail_of py_pop for_each]. unfold bound. rewrite py_str_str.
    destruct (Str.nonempty key); reflexivity.
  - destruct (process_total (S fuel) f values text st Hlen)
      as (f' & values' & st' & E & _).
    now exists (f', values', st').
Qed.

Lemma C6_witness :
  let st := initial_state tt in
  let f := open_file "v=[[ foo ]]!" in
  let st2 := snd (evaluate " foo " [("n", VInt 0)] st) in
  fst (evaluate " foo " [("n", VInt 0)] st) = VStr " foo " /\
  trace st2
  = (trace st
     ++ [ErrLine (esc ++ "[95m");
         ErrLine ("Error in file `" ++ template_name st ++ "`:" ++ nl);
         ErrLine (esc ++ "[0m");
         ErrLine ("    Could not evaluate [[" ++ " foo " ++ "]]" ++ nl);
         ErrLine ("    " ++ "name 'foo' is not defined" ++ nl)])%list /\
  quiet st st2 /\
  process 13 f [("n", VInt 0)] "" st
  = (if Str.nonempty ""
     then process 12 (seek 11 f) (Dict.set "" (VStr " foo ") [("n", VInt 0)])
            ("" ++ "v=") (out_write (line_bound "" " foo ") st2)
     else process 12 (seek 11 f) [("n", VInt 0)] (("" ++ "v=") ++ " foo ")
            (out_write (line_subst "[[ foo ]]" " foo ") st2)) /\
  exists r, process 13 f [("n", VInt 0)] "" st = Some r.
Proof.
  apply (C6_evaluation_failure (Py := Mini.python) 12 (open_file "v=[[ foo ]]!")
           (seek 11 (open_file "v=[[ foo ]]!")) [("n", VInt 0)] "" "v="
           "[[ foo ]]" "" " foo " "name 'foo' is not defined"
           (initial_state tt) (initial_state tt) tt).
  - reflexivity.
  - reflexivity.
  - reflexivity.
  - cbn. lia.
Defined.

Lemma partition_first (sep : ascii) (k v : string) :
  Str.mem sep k = false ->
  Str.partition sep (k ++ String sep v) = (k, String sep "", v).
Proof.
  induction k as [|c k IH]; cbn [Str.mem Str.partition append]; intros H.
  - now rewrite Ascii.eqb_refl.
  - apply orb_false_elim in H as [Hc Hk].
    rewrite Ascii.eqb_sym, Hc, (IH Hk). reflexivity.
Qed.

(** C7 (as stated) fails: [x == 5] is split at its first [=] into two
    non-empty sides, so it is taken for an assignment to [x] of the code
    [= 5]. *)
Lemma C7_counterexample :
  try_assignment "x == 5" = ("x", "= 5") /\
  try_assignment "x == 5" <> ("", "x == 5").
Proof. split; [reflexivity | discriminate]. Qed.

(** C7, amended.  With [k] free of [=]: the content [k=v] is an assignment
    exactly when [k] and [v] are both non-empty, whatever [v] starts with,
    and then the name is [k] stripped and the code [v] stripped; otherwise,
    and for a content without [=] such as [k] itself, the whole content is
    the code and there is no name. *)
Theorem C7_assignment_detection (k v : string) :
  Str.mem "=" k = false ->
  try_assignment (k ++ "=" ++ v)
  = (if Str.nonempty k && Str.nonempty v
     then (Str.strip k, Str.strip v)
     else ("", k ++ "=" ++ v)) /\
  try_assignment k = ("", k).
Proof.
  intros Hk. split; [|now apply try_assignment_absent].
  unfold try_assignment. cbn [append]. rewrite (partition_first _ _ _ Hk).
  cbn. now rewrite andb_true_r.
Qed.

Lemma C7_witness :
  try_assignment ("x " ++ "=" ++ "= 5")
  = (if Str.nonempty "x " && Str.nonempty "= 5"
     then (Str.strip "x ", Str.strip "= 5")
     else ("", "x " ++ "=" ++ "= 5")) /\
  try_assignment "x " = ("", "x ").
Proof. apply (C7_assignment_detection "x " "= 5"). reflexivity. Defined.

(** [process] never unbinds a key. *)
Lemma process_keeps_keys {W : Type} {Py : Python W} (k : string) (fuel : nat)
    (f : file) (values : context) (text : string) (st : state W)
    (f' : file) (values' : context) (st' : state W) :
  process fuel f values text st = Some (f', values', st') ->
  Dict.get k values <> None -> Dict.get k values' <> None.
Proof.
  intros E Hk.
  assert (Hset : forall k' v vs, Dict.get k vs <> None ->
                                 Dict.get k (Dict.set k' v vs) <> None).
  { intros k' v vs H. destruct (string_dec k k') as [->|Hne].
    - rewrite DictFacts.get_set_same. discriminate.
    - now rewrite DictFacts.get_set_other. }
  refine (process_hoare
            (fun vs _ => Dict.get k vs <> None)
            (fun vs _ => Dict.get k vs <> None)
            (fun _ => True) _ _ _ _ _ fuel f values text st f' values' st' Hk E);
    try tauto.
  - intros e vs s _. apply Forall_forall. trivial.
  - intros k' v vs s _ _. apply Hset.
  - intros t vs s H.
    destruct (make_file_spec t vs s) as (_ & _ & _ & _ & ->). now apply Hset.
Qed.

Lemma for_each_app {A S : Type} (l1 l2 : list A) (body : A -> S -> option S)
    (s : S) :
  for_each (l1 ++ l2) body s
  = match for_each l1 body s with
    | Some s1 => for_each l2 body s1
    | None => None
    end.
Proof.
  revert s. induction l1 as [|x l1 IH]; intros s; cbn [app for_each];
    [reflexivity|].
  destruct (body x s) as [s1|]; [apply IH | reflexivity].
Qed.

(** What a call of [process] hands back: the dictionary its last file was
    made with, [n] set to the index reached. *)
Lemma process_hands_back {W : Type} {Py : Python W} (fuel : nat) (f : file)
    (values : context) (text : string) (st : state W)
    (f' : file) (values' : context) (st' : state W) :
  process fuel f values text st = Some (f', values', st') ->
  exists new leaf,
    emitted (trace st') = (emitted (trace st) ++ new ++ [leaf])%list /\
    values' = Dict.set "n" (VInt (Z.of_nat (file_index st'))) leaf.
Proof.
  intros E.
  refine (process_hoare
            (fun _ s => exists new,
                 emitted (trace s) = (emitted (trace st) ++ new)%list)
            (fun vs s => exists new leaf,
                 emitted (trace s) = (emitted (trace st) ++ new ++ [leaf])%list /\
                 vs = Dict.set "n" (VInt (Z.of_nat (file_index s))) leaf)
            (fun _ => True)
            _ _ _ _ _ fuel f values text st f' values' st' _ E).
  - intros vs s s' (new & Hn) (_ & _ & _ & _ & He). exists new. now rewrite He.
  - intros e vs s _. apply Forall_forall. intros; exact I.
  - intros k v vs s _ _ H. exact H.
  - intros t vs s (new & Hn).
    destruct (make_file_spec t vs s) as (Hi & _ & _ & He & Hv).
    exists new, vs. rewrite He, Hv, Hi, Hn. now rewrite app_assoc.
  - intros vs s (new & leaf & Hn & _). exists (new ++ [leaf])%list. exact Hn.
  - exists []. now rewrite app_nil_r.
Qed.

(** [expand_values] never unbinds a key, the empty key apart: a sequence
    held under the empty key is taken out and not put back. *)
Lemma expand_values_keeps_keys {W : Type} {Py : Python W} (k : string)
    (fuel : nat) :
  k <> "" ->
  forall (f : file) (values : context) (text : string) (st : state W)
         (f' : file) (values' : context) (st' : state W),
    expand_values fuel f values text st = Some (f', values', st') ->
    Dict.get k values <> None -> Dict.get k values' <> None.
Proof.
  intros Hk.
  assert (Hset : forall k' v vs, Dict.get k vs <> None ->
                                 Dict.get k (Dict.set k' v vs) <> None).
  { intros k' v vs H. destruct (string_dec k k') as [->|Hne].
    - rewrite DictFacts.get_set_same. discriminate.
    - now rewrite DictFacts.get_set_other. }
  induction fuel as [|fuel IH];
    intros f values text st f' values' st' E Hb; [discriminate|].
  cbn [expand_values] in E. unfold pop_sequence in E.
  destruct (find_sequence values) as [[key vals]|] eqn:Ef.
  - destruct (Str.nonempty key) eqn:Hkey.
    + destruct (for_each _ _ _) as [[[f2 vs2] st2]|] eqn:Efor in E; [|discriminate].
      inversion E; subst. clear E.
      destruct (string_dec k key) as [->|Hne].
      * rewrite DictFacts.get_set_same. discriminate.
      * rewrite DictFacts.get_set_other by assumption.
        apply (for_each_inv
                 (fun s : @store W => Dict.get k (snd (fst s)) <> None))
          with (s := (f, Dict.pop key values, st)) (s' := (f', vs2, st')) in Efor;
          [exact Efor| |].
        -- intros v [[fa vsa] sta] [[fb vsb] stb] _ Ha Eb. cbn [fst snd] in *.
           destruct (expand_values fuel fa (Dict.set key v vsa) text sta)
             as [[[fc vsc] stc]|] eqn:Ec; [|discriminate].
           cbn [rewind] in Eb. inversion Eb; subst.
           eapply IH; [exact Ec|]. now apply Hset.
        -- cbn [fst snd]. now rewrite DictFacts.get_pop_other.
    + destruct key; [|discriminate].
      eapply process_keeps_keys; [exact E|].
      now rewrite DictFacts.get_pop_other.
  - cbn [Str.nonempty] in E. eapply process_keeps_keys; eassumption.
Qed.

(** C8 (as stated) fails.  The recursive call that [process] makes for the
    first value of [[[ x=[1,2] ]]], in a dictionary where [x] was 7,
    returns with [x] at 1: the previous value is not put back.  And in the
    template [[[x=[1,2]]][[y]][[y=x]]] the branch of [x=2] finds [y] bound
    by the branch of [x=1], which has returned: its file reads [1], where
    the first branch, with [y] unbound, wrote the code [y] itself. *)
Lemma C8_counterexample :
  (exists f' values' st',
     process 20 (seek 13 (open_file "[[ x=[1,2] ]]!"))
       (Dict.set "x" (VInt 1) [("n", VInt 0); ("x", VInt 7)]) ""
       (initial_state tt) = Some (f', values', st') /\
     Dict.get "x" values' = Some (VInt 1)) /\
  (exists made values' st',
     parse 9 "t.txt.tpl" "[[x=[1,2]]][[y]][[y=x]]" [] 1 (initial_state tt)
     = Some (made, values', st') /\
     texts (trace st') = ["y"; "1"]).
Proof. split; ran; reflexivity. Qed.

(** C8, amended.  Let every snippet evaluate, in a dictionary of
    scalars, to a scalar or to a list of scalars that is not empty, an
    object of its own.  A fork of [process] on an assignment block, in a
    dictionary of scalars, [u] and [v] being two candidates in a row, [v]
    possibly the last one, which the call keeps for itself.  The
    candidates before [u] have run one after the other in the one
    dictionary.  The recursive call for [u] hands back the dictionary its
    last file was made with, [n] set to the index reached: nothing is put
    back, every key bound when the call started is still bound, and to a
    scalar.  [v] is then bound in that very dictionary, which overwrites
    the forked key and nothing else, so that the run of [v] starts with
    every binding the completed branch has made.  In [expand_values] the
    candidates of the popped key are bound the same way, one after the
    other in the one dictionary; once all have run the key is bound to
    the whole sequence again, and no entry is lost. *)
Theorem C8_bindings_after_fork {W : Type} {Py : Python W} (fuel : nat)
    (f : file) (values : context) (text : string) (st : state W)
    (pre code : string) (f1 : file) (st1 : state W) (key e : string)
    (vals : value) (st2 : state W) (a b : list value) (u v : value)
    (r : @store W) :
  flat_results Py ->
  all_scalar values = true ->
  get_block f CODE_IN CODE_OUT st = (pre, code, false, f1, st1) ->
  try_assignment (Str.slice_2_m2 code) = (key, e) ->
  Str.nonempty key = true ->
  evaluate e values st1 = (vals, st2) ->
  candidates vals = (a ++ u :: v :: b)%list ->
  process (S fuel) f values text st = Some r ->
  (exists fa Da sta fu Du stu,
     for_each a (sibling fuel key code (text ++ pre) (tell f1)) (f1, values, st2)
     = Some (fa, Da, sta) /\
     process fuel fa (Dict.set key u Da) (text ++ pre)
       (out_write (line_bound key (py_str u)) sta)
     = Some (fu, Du, stu) /\
     (exists new leaf,
        emitted (trace stu) = (emitted (trace sta) ++ new ++ [leaf])%list /\
        Du = Dict.set "n" (VInt (Z.of_nat (file_index stu))) leaf) /\
     all_scalar Du = true /\
     (forall k, Dict.get k (Dict.set key u Da) <> None -> Dict.get k Du <> None) /\
     exists rv,
       process fuel (seek (tell f1) fu) (Dict.set key v Du) (text ++ pre)
         (out_write (line_bound key (py_str v)) stu)
       = Some rv /\
       (b = [] -> rv = r)) /\
  (forall fuel2 g vs t s key2 vals2 vs1 g' vs' s',
     Dict.get "" vs = None ->
     pop_sequence vs = (key2, vals2, vs1) ->
     Str.nonempty key2 = true ->
     expand_values (S fuel2) g vs t s = Some (g', vs', s') ->
     (exists D,
        for_each (elements vals2) (given_sibling fuel2 key2 t (tell g)) (g, vs1, s)
        = Some (g', D, s') /\
        vs' = Dict.set key2 vals2 D) /\
     Dict.get key2 vs' = Some vals2 /\
     (forall k, Dict.get k vs <> None -> Dict.get k vs' <> None)).
Proof.
  intros Hflat Hsc Hblk Hasg Hkey Hev Hc E. split.
  - assert (E' : match for_each (forks vals)
                          (sibling fuel key code (text ++ pre) (tell f1))
                          (f1, values, st2) with
                  | Some (f', vs, st') =>
                      process fuel f' (Dict.set key (tail_of vals) vs) (text ++ pre)
                        (out_write (line_bound key (py_str (tail_of vals))) st')
                  | None => None
                  end = Some r).
    { rewrite <- E, process_S, Hblk, Hasg, Hev. cbv beta iota.
      unfold sibling.
      destruct (for_each _ _ _) as [[[f' vs] st']|]; [|reflexivity].
      unfold bound. now rewrite Hkey. }
    clear E. rename E' into E.
    pose proof (evaluate_flat e values st1 Hflat Hsc) as Hcand.
    rewrite Hev in Hcand. cbn [fst] in Hcand.
    rewrite Hc in Hcand. apply Forall_app in Hcand as [Hsa Hsu].
    inversion Hsu as [|? ? Hu_scalar _]; subst.
    rewrite candidates_forks in Hc.
    assert (Hu : forall (s : @store W) fa Da sta,
               s = (fa, Da, sta) ->
               sibling fuel key code (text ++ pre) (tell f1) u s
               = rewind (tell f1)
                   (process fuel fa (Dict.set key u Da) (text ++ pre)
                      (out_write (line_bound key (py_str u)) sta))).
    { intros s fa Da sta ->. unfold sibling, bound. now rewrite Hkey. }
    assert (Hbefore : forall fa Da sta,
               for_each a (sibling fuel key code (text ++ pre) (tell f1))
                 (f1, values, st2) = Some (fa, Da, sta) ->
               all_scalar Da = true).
    { intros fa Da sta Ea.
      apply (for_each_inv (fun s : @store W => all_scalar (snd (fst s)) = true))
        with (s := (f1, values, st2)) (s' := (fa, Da, sta)) in Ea;
        [exact Ea| |exact Hsc].
      intros x [[fx vx] sx] [[fy vy] sy] Hin Hx Ey. cbn [fst snd] in *.
      unfold sibling, bound in Ey. rewrite Hkey in Ey.
      destruct (process fuel fx (Dict.set key x vx) _ _) as [[[fz vz] sz]|] eqn:Ez;
        [|discriminate].
      cbn [rewind] in Ey. inversion Ey; subst.
      eapply process_all_scalar; [exact Hflat| |exact Ez].
      apply all_scalar_set; [|assumption].
      rewrite Forall_forall in Hsa. now apply Hsa. }
    assert (Hback : forall fa Da sta fu Du stu,
               all_scalar Da = true ->
               process fuel fa (Dict.set key u Da) (text ++ pre)
                 (out_write (line_bound key (py_str u)) sta)
               = Some (fu, Du, stu) ->
               (exists new leaf,
                  emitted (trace stu) = (emitted (trace sta) ++ new ++ [leaf])%list /\
                  Du = Dict.set "n" (VInt (Z.of_nat (file_index stu))) leaf) /\
               all_scalar Du = true /\
               (forall k, Dict.get k (Dict.set key u Da) <> None ->
                          Dict.get k Du <> None)).
    { intros fa Da sta fu Du stu HDa Ep. split; [|split].
      - destruct (process_hands_back _ _ _ _ _ _ _ _ Ep) as (new & leaf & Hn & Hd).
        exists new, leaf. split; [|exact Hd].
        rewrite Hn. destruct (quiet_out_write (line_bound key (py_str u)) sta)
          as (_ & _ & _ & _ & ->). reflexivity.
      - eapply process_all_scalar; [exact Hflat| |exact Ep].
        now apply all_scalar_set.
      - intros k. eapply process_keeps_keys. exact Ep. }
    destruct b as [|t b'] using rev_ind; [|clear IHb'].
    + (* v is the last candidate: the call keeps it for itself *)
      change (a ++ [u; v])%list with (a ++ [u] ++ [v])%list in Hc.
      rewrite !app_assoc in Hc. apply app_inj_tail in Hc as [Hf Ht].
      rewrite Hf, for_each_app in E.
      destruct (for_each a _ _) as [[[fa Da] sta]|] eqn:Ea; [|discriminate].
      cbn [for_each] in E. rewrite (Hu _ fa Da sta eq_refl) in E.
      destruct (process fuel fa (Dict.set key u Da) _ _) as [[[fu Du] stu]|] eqn:Eu;
        [|discriminate].
      cbn [rewind] in E. rewrite Ht in E.
      exists fa, Da, sta, fu, Du, stu.
      destruct (Hback _ _ _ _ _ _ (Hbefore _ _ _ eq_refl) Eu) as (H1 & H2 & H3).
      repeat split; try assumption. exists r. now split.
    + (* v is forked on as well *)
      change (a ++ u :: v :: b' ++ [t])%list
        with (a ++ [u] ++ [v] ++ b' ++ [t])%list in Hc.
      rewrite !app_assoc in Hc. apply app_inj_tail in Hc as [Hf Ht].
      rewrite Hf, <- !app_assoc, for_each_app in E.
      destruct (for_each a _ _) as [[[fa Da] sta]|] eqn:Ea; [|discriminate].
      cbn [app for_each] in E. rewrite (Hu _ fa Da sta eq_refl) in E.
      destruct (process fuel fa (Dict.set key u Da) _ _) as [[[fu Du] stu]|] eqn:Eu;
        [|discriminate].
      cbn [rewind] in E. unfold sibling at 1, bound in E. rewrite Hkey in E.
      destruct (process fuel (seek (tell f1) fu) (Dict.set key v Du) _ _)
        as [rv|] eqn:Ev; [|discriminate].
      exists fa, Da, sta, fu, Du, stu.
      destruct (Hback _ _ _ _ _ _ (Hbefore _ _ _ eq_refl) Eu) as (H1 & H2 & H3).
      repeat split; try assumption. exists rv. split; [exact Ev|].
      intros Hb. destruct b'; discriminate Hb.
  - intros fuel2 g vs t s key2 vals2 vs1 g' vs' s' Hempty Hpop Hk2 E2.
    assert (Hkeep : forall k, Dict.get k vs <> None -> Dict.get k vs' <> None).
    { intros k Hb. apply (expand_values_keeps_keys k (S fuel2)) with
        (f := g) (values := vs) (text := t) (st := s) (f' := g') (st' := s');
        [|assumption|assumption].
      intros ->. contradiction. }
    cbn [expand_values] in E2. rewrite Hpop, Hk2 in E2.
    change (fun v0 '(ifile, values0, st0) =>
              rewind (tell g)
                (expand_values fuel2 ifile (Dict.set key2 v0 values0) t st0))
      with (given_sibling fuel2 key2 t (tell g)) in E2.
    destruct (for_each _ _ _) as [[[g2 D] s2]|] eqn:Efor in E2; [|discriminate].
    inversion E2; subst. split; [|split].
    + exists D. now split.
    + apply DictFacts.get_set_same.
    + exact Hkeep.
Qed.

Lemma C8_witness :
  let Py := with_eval Mini.python eval_flat in
  let f := open_file "[[x=[1,2]]][[y]][[y=x]]" in
  let f1 := seek 11 f in
  let vs0 := [("n", VInt 0)] in
  let st := initial_state tt in
  exists r,
    @process unit Py 9 f vs0 "" st = Some r /\
    (exists fa Da sta fu Du stu,
       for_each [] (@sibling unit Py 8 "x" "[[x=[1,2]]]" "" (tell f1)) (f1, vs0, st)
       = Some (fa, Da, sta) /\
       @process unit Py 8 fa (Dict.set "x" (VInt 1) Da) ""
         (out_write (line_bound "x" (py_str (VInt 1))) sta)
       = Some (fu, Du, stu) /\
       (exists new leaf,
          emitted (trace stu) = (emitted (trace sta) ++ new ++ [leaf])%list /\
          Du = Dict.set "n" (VInt (Z.of_nat (file_index stu))) leaf) /\
       all_scalar Du = true /\
       (forall k, Dict.get k (Dict.set "x" (VInt 1) Da) <> None ->
                  Dict.get k Du <> None) /\
       exists rv,
         @process unit Py 8 (seek (tell f1) fu) (Dict.set "x" (VInt 2) Du) ""
           (out_write (line_bound "x" (py_str (VInt 2))) stu)
         = Some rv /\
         (@nil value = [] -> rv = r)) /\
    (forall fuel2 g vs t s key2 vals2 vs1 g' vs' s',
       Dict.get "" vs = None ->
       pop_sequence vs = (key2, vals2, vs1) ->
       Str.nonempty key2 = true ->
       @expand_values unit Py (S fuel2) g vs t s = Some (g', vs', s') ->
       (exists D,
          for_each (elements vals2) (@given_sibling unit Py fuel2 key2 t (tell g))
            (g, vs1, s)
          = Some (g', D, s') /\
          vs' = Dict.set key2 vals2 D) /\
       Dict.get key2 vs' = Some vals2 /\
       (forall k, Dict.get k vs <> None -> Dict.get k vs' <> None)).
Proof.
  intros Py f f1 vs0 st.
  destruct (@process unit Py 9 f vs0 "" st) as [r|] eqn:E; [|discriminate E].
  exists r. split; [reflexivity|].
  apply (C8_bindings_after_fork (Py := Py) 8 f vs0 "" st
           "" "[[x=[1,2]]]" f1 st "x" "[1,2]" (VList [VInt 1; VInt 2]) st
           [] [] (VInt 1) (VInt 2) r);
    solve [exact eval_flat_results | reflexivity | exact E].
Defined.

(** In that run the branch of [x=2] starts where the branch of [x=1]
    stopped: with [y] bound to 1 and [n] at 1. *)
Example second_sibling_starts :
  exists fu Du stu,
    process 8 (seek 11 (open_file "[[x=[1,2]]][[y]][[y=x]]"))
      (Dict.set "x" (VInt 1) [("n", VInt 0)]) ""
      (out_write (line_bound "x" (py_str (VInt 1))) (initial_state tt))
    = Some (fu, Du, stu) /\
    Dict.set "x" (VInt 2) Du = [("n", VInt 1); ("x", VInt 2); ("y", VInt 1)].
Proof. ran. reflexivity. Qed.

(** C10.  A run over the templates [inputs] from the initial state of the
    module, ending in the state [st'].  The index of the next file is the
    number of files made since the start of the run.  An emission in that
    state sets [n] to the number of files made so far, itself included, and
    so does every call of [process], which returns right after its last
    emission.  When the last template gave at least one file, [n] is the
    number of files of the whole run, although [parse] has set it to 0 for
    each template; and one more template takes the count on from there by
    the number of its own files. *)
Theorem C10_n_is_global_file_count {W : Type} {Py : Python W} (w : W)
    (fuel : nat) (inputs : list (string * string)) (values : context)
    (repeat : nat) (values' : context) (st' : state W) :
  wf_dict values ->
  parse_inputs fuel inputs values repeat (initial_state w) = Some (values', st') ->
  file_index st' = length (created (trace st')) /\
  (forall text vs,
     let r := make_file text vs st' in
     Dict.get "n" (fst r)
     = Some (VInt (Z.of_nat (length (created (trace (snd r)))))) /\
     length (created (trace (snd r))) = S (length (created (trace st')))) /\
  (forall fuel2 f vs text f2 vs2 st2,
     wf_dict vs ->
     process fuel2 f vs text st' = Some (f2, vs2, st2) ->
     Dict.get "n" vs2 = Some (VInt (Z.of_nat (length (created (trace st2)))))) /\
  (files_made st' <> [] ->
   Dict.get "n" values' = Some (VInt (Z.of_nat (length (created (trace st')))))) /\
  (forall fuel2 iname text made vs2 st2,
     parse fuel2 iname text values' repeat st' = Some (made, vs2, st2) ->
     length (created (trace st2)) = length (created (trace st')) + length made /\
     (made <> [] ->
      Dict.get "n" vs2 = Some (VInt (Z.of_nat (length (created (trace st2))))))).
Proof.
  intros Hwf E.
  destruct (parse_inputs_counted fuel inputs values repeat (initial_state w)
              values' st') as (Hc & Hw & Hn); try assumption.
  - reflexivity.
  - intros H. now destruct H.
  - split; [exact Hc|]. split; [|split; [|split; [assumption|]]].
    + intros text vs r.
      destruct (make_file_spec text vs st') as (Hi & _ & Hcr & _ & Hv).
      fold r in Hi, Hcr, Hv. rewrite Hv, Hcr, length_app, DictFacts.get_set_same.
      cbn [length]. unfold counted in Hc. rewrite Hc.
      split; [repeat f_equal; lia | lia].
    + intros fuel2 f vs text f2 vs2 st2 Hvs Ep.
      destruct (process_counted _ _ _ _ _ _ _ _ Hc Hvs Ep) as ((Hc2 & _) & _ & _ & Hn2).
      now rewrite <- Hc2.
    + intros fuel2 iname text made vs2 st2 Ep.
      destruct (parse_counted _ _ _ _ _ _ _ _ _ Hc Hw Ep) as (Hc2 & _ & _ & Hi & Hn2).
      unfold counted in Hc, Hc2. split; [lia | assumption].
Qed.

Lemma C10_witness :
  exists values' st',
    parse_inputs 30 two_inputs [] 1 (initial_state tt) = Some (values', st') /\
    file_index st' = length (created (trace st')) /\
    (forall text vs,
       let r := make_file text vs st' in
       Dict.get "n" (fst r)
       = Some (VInt (Z.of_nat (length (created (trace (snd r)))))) /\
       length (created (trace (snd r))) = S (length (created (trace st')))) /\
    (forall fuel2 f vs text f2 vs2 st2,
       wf_dict vs ->
       process fuel2 f vs text st' = Some (f2, vs2, st2) ->
       Dict.get "n" vs2 = Some (VInt (Z.of_nat (length (created (trace st2)))))) /\
    (files_made st' <> [] ->
     Dict.get "n" values' = Some (VInt (Z.of_nat (length (created (trace st')))))) /\
    (forall fuel2 iname text made vs2 st2,
       parse fuel2 iname text values' 1 st' = Some (made, vs2, st2) ->
       length (created (trace st2)) = length (created (trace st')) + length made /\
       (made <> [] ->
        Dict.get "n" vs2 = Some (VInt (Z.of_nat (length (created (trace st2))))))).
Proof.
  ran.
  eapply (C10_n_is_global_file_count (Py := Mini.python) tt 30 two_inputs [] 1).
  - constructor.
  - vm_compute; reflexivity.
Defined.

(** The run of [two_inputs]: the second template starts with [n] at 0, its
    second file sees [n] at 4, and [n] ends at 5, the number of files of
    the run. *)
Example two_templates_run :
  exists values' st',
    parse_inputs 30 two_inputs [] 1 (initial_state tt) = Some (values', st') /\
    created (trace st')
    = [("a0000.txt", "1"); ("a0001.txt", "2"); ("a0002.txt", "3");
       ("b0003.txt", "7;n=0"); ("b0004.txt", "8;n=4")] /\
    files_made st' = ["b0003.txt"; "b0004.txt"] /\
    Dict.get "n" values' = Some (VInt 5).
Proof. ran. split; [reflexivity|]. split; reflexivity. Qed.

(** * Further properties *)

Section StepFacts.

Context {W : Type} {Py : Python W}.

#[local] Abbreviation state := (state W).
#[local] Abbreviation store := (file * context * state)%type.

Lemma process_rel (R : string -> state -> state -> Prop) :
  (forall t s, R t s s) ->
  (forall t a b c, R t a b -> R t b c -> R t a c) ->
  (forall t x a b, R (t ++ x) a b -> R t a b) ->
  (forall t m s, R t s (out_write m s)) ->
  (forall t e vs s, R t s (snd (evaluate e vs s))) ->
  (forall t vs s, R t s (snd (make_file t vs s))) ->
  forall fuel f values text st f' values' st',
    process fuel f values text st = Some (f', values', st') ->
    R text st st'.
Proof.
  intros Hrefl Htrans Hweak Hout Heval Hmake.
  assert (Houts : forall t msgs s, R t s (out_writes msgs s)).
  { intros t msgs. unfold out_writes.
    induction msgs as [|m msgs IH]; intros s; cbn [fold_left]; [apply Hrefl|].
    eapply Htrans; [apply Hout | apply IH]. }
  induction fuel as [|fuel IH]; intros f values text st f' values' st' E;
    [discriminate|].
  rewrite process_S, get_block_scan in E.
  destruct (scan "[" "]" (remaining f)) as [[[[pre code] eof] msgs] n].
  pose proof (Houts text msgs st) as H1.
  destruct eof.
  - pose proof (Hmake (text ++ pre) values (out_writes msgs st)) as H2.
    destruct (make_file (text ++ pre) values (out_writes msgs st)) as [vs2 st2].
    inversion E; subst. cbn [snd] in H2.
    eapply Htrans; [exact H1|]. eapply Hweak; exact H2.
  - destruct (try_assignment (Str.slice_2_m2 code)) as [key e].
    pose proof (Heval text e values (out_writes msgs st)) as H2.
    destruct (evaluate e values (out_writes msgs st)) as [vals st2].
    cbn [snd] in H2.
    assert (Hcall : forall v fa vsa sta fb vsb stb,
              (let '(vs', out', st'') := bound key code v vsa (text ++ pre) sta in
               process fuel fa vs' out' st'') = Some (fb, vsb, stb) ->
              R text sta stb).
    { intros v fa vsa sta fb vsb stb Ep.
      destruct (bound_spec key code v vsa (text ++ pre) sta) as [m Eb].
      rewrite Eb in Ep. apply IH in Ep.
      eapply Htrans; [apply (Hout text m)|].
      destruct (Str.nonempty key).
      - eapply Hweak; exact Ep.
      - rewrite StrFacts.app_assoc in Ep. eapply Hweak; exact Ep. }
    destruct (for_each _ _ _) as [[[f2 vs2] st3]|] eqn:Efor in E; [|discriminate].
    assert (H3 : R text st st3).
    { apply (for_each_inv (fun s : store => R text st (snd s)))
        with (s := (seek (pos f + n) f, values, st2)) (s' := (f2, vs2, st3)) in Efor.
      - exact Efor.
      - intros v [[fa vsa] sta] [[fb vsb] stb] _ Ha Eb. cbn [snd] in *.
        destruct (bound key code v vsa (text ++ pre) sta) as [[vs' out'] st''] eqn:Ebd.
        destruct (process fuel fa vs' out' st'') as [[[fc vsc] stc]|] eqn:Ep;
          [|discriminate].
        cbn [rewind] in Eb. inversion Eb; subst.
        eapply Htrans; [exact Ha|].
        apply (Hcall v fa vsa sta fc vsb stb). now rewrite Ebd.
      - cbn [snd]. eapply Htrans; [exact H1 | exact H2]. }
    eapply Htrans; [exact H3|].
    eapply Hcall. exact E.
Qed.

Lemma expand_values_rel (R : string -> state -> state -> Prop) :
  (forall t s, R t s s) ->
  (forall t a b c, R t a b -> R t b c -> R t a c) ->
  (forall t x a b, R (t ++ x) a b -> R t a b) ->
  (forall t m s, R t s (out_write m s)) ->
  (forall t e vs s, R t s (snd (evaluate e vs s))) ->
  (forall t vs s, R t s (snd (make_file t vs s))) ->
  forall fuel f values text st f' values' st',
    expand_values fuel f values text st = Some (f', values', st') ->
    R text st st'.
Proof.
  intros Hrefl Htrans Hweak Hout Heval Hmake.
  induction fuel as [|fuel IH]; intros f values text st f' values' st' E;
    [discriminate|].
  cbn [expand_values] in E.
  destruct (pop_sequence values) as [[key vals] values1].
  destruct (Str.nonempty key).
  - destruct (for_each _ _ _) as [[[f2 vs2] st2]|] eqn:Efor in E; [|discriminate].
    inversion E; subst.
    apply (for_each_inv (fun s : store => R text st (snd s)))
      with (s := (f, values1, st)) (s' := (f', vs2, st')) in Efor.
    + exact Efor.
    + intros v [[fa vsa] sta] [[fb vsb] stb] _ Ha Eb. cbn [snd] in *.
      destruct (expand_values fuel fa (Dict.set key v vsa) text sta)
        as [[[fc vsc] stc]|] eqn:Ep; [|discriminate].
      cbn [rewind] in Eb. inversion Eb; subst.
      eapply Htrans; [exact Ha|]. eapply IH; exact Ep.
    + apply Hrefl.
  - eapply process_rel; eassumption.
Qed.

(** *** The settings are left alone *)

Lemma same_settings_refl (s : state) : same_settings s s.
Proof. now repeat split. Qed.

Lemma same_settings_trans (a b c : state) :
  same_settings a b -> same_settings b c -> same_settings a c.
Proof. unfold same_settings. intuition congruence. Qed.

Lemma same_settings_evaluate (e : string) (vs : context) (s : state) :
  same_settings s (snd (evaluate e vs s)).
Proof.
  unfold evaluate. destruct (py_eval e vs (rng s)) as [[v|m] w]; now repeat split.
Qed.

Lemma same_settings_make_file (t : string) (vs : context) (s : state) :
  same_settings s (snd (make_file t vs s)).
Proof. now repeat split. Qed.

(** *** Names of the files *)

Lemma names_between_refl (a b : state) :
  file_index b = file_index a -> names_between a b = [].
Proof. unfold names_between. intros ->. now rewrite Nat.sub_diag. Qed.

Lemma named_refl (s : state) : named s s.
Proof.
  unfold named. rewrite names_between_refl, !app_nil_r by reflexivity.
  now repeat split.
Qed.

Lemma names_between_app (a b c : state) :
  file_motif b = file_motif a ->
  file_index a <= file_index b -> file_index b <= file_index c ->
  names_between a c = (names_between a b ++ names_between b c)%list.
Proof.
  unfold names_between. intros -> Hab Hbc.
  rewrite <- map_app. f_equal.
  replace (file_index c - file_index a)
    with ((file_index b - file_index a) + (file_index c - file_index b)) by lia.
  rewrite seq_app. do 2 f_equal. lia.
Qed.

Lemma named_trans (a b c : state) : named a b -> named b c -> named a c.
Proof.
  intros (Hm1 & Hi1 & Hf1 & Hc1) (Hm2 & Hi2 & Hf2 & Hc2).
  unfold named. rewrite (names_between_app a b c) by assumption.
  rewrite Hf2, Hf1, Hc2, Hc1, !app_assoc.
  repeat split; [congruence | lia].
Qed.

Lemma named_quiet (a b : state) :
  file_motif b = file_motif a -> quiet a b -> named a b.
Proof.
  intros Hm (Hi & Hf & _ & Hc & _). unfold named.
  rewrite names_between_refl, !app_nil_r by assumption.
  repeat split; [assumption | lia | assumption | now rewrite Hc].
Qed.

Lemma named_make_file (t : string) (vs : context) (s : state) :
  named s (snd (make_file t vs s)).
Proof.
  destruct (make_file_spec t vs s) as (Hi & Hf & Hc & _ & _).
  unfold named, names_between. rewrite Hi, Hf, Hc.
  replace (S (file_index s) - file_index s) with 1 by lia. cbn [seq map].
  rewrite map_app. cbn [map fst].
  repeat split. lia.
Qed.

Lemma expand_values_named (fuel : nat) (f : file) (values : context)
    (text : string) (st : state) (f' : file) (values' : context) (st' : state) :
  expand_values fuel f values text st = Some (f', values', st') ->
  named st st'.
Proof.
  apply (expand_values_rel (fun _ a b => named a b)).
  - intros _ s. apply named_refl.
  - intros _ a b c. apply named_trans.
  - auto.
  - intros _ m s. apply named_quiet; [reflexivity | apply quiet_out_write].
  - intros _ e vs s. apply named_quiet; [|apply quiet_evaluate].
    apply same_settings_evaluate.
  - intros. apply named_make_file.
Qed.

End StepFacts.

(** *** Indices in file names *)

Module NameFacts.

Lemma append_inv_tail (a b c : string) : a ++ c = b ++ c -> a = b.
Proof.
  intros E.
  assert (L : String.length a = String.length b).
  { apply (f_equal String.length) in E. rewrite !StrFacts.length_app in E. lia. }
  revert b E L. induction a as [|x a IH]; intros [|y b] E L; cbn in L;
    try discriminate; [reflexivity|].
  cbn in E. inversion E; subst. f_equal. apply IH; [assumption | lia].
Qed.

Lemma append_inv_head (a b c : string) : a ++ b = a ++ c -> b = c.
Proof. induction a as [|x a IH]; cbn; intros E; [assumption|]. inversion E; auto. Qed.

Lemma uint_of_zeros (k : nat) (s : string) :
  NilEmpty.uint_of_string (Str.zeros k ++ s)
  = option_map (Nat.iter k Decimal.D0) (NilEmpty.uint_of_string s).
Proof.
  induction k as [|k IH]; cbn [Str.zeros append Nat.iter].
  - now destruct (NilEmpty.uint_of_string s).
  - cbn [NilEmpty.uint_of_string]. rewrite IH.
    now destruct (NilEmpty.uint_of_string s).
Qed.

Lemma of_uint_zeros (k : nat) (d : Decimal.uint) :
  Nat.of_uint (Nat.iter k Decimal.D0 d) = Nat.of_uint d.
Proof. induction k as [|k IH]; [reflexivity|]. cbn [Nat.iter]. exact IH. Qed.

Lemma uint_of_nat (n : nat) :
  exists d, NilEmpty.uint_of_string (Str.of_nat n) = Some d /\ Nat.of_uint d = n.
Proof.
  unfold Str.of_nat, NilZero.string_of_uint.
  pose proof (DecimalNat.Unsigned.of_to n) as Hn.
  destruct (Nat.to_uint n) eqn:E;
    [exists (Decimal.D0 Decimal.Nil); split; [reflexivity | exact Hn] | ..];
    rewrite <- E; (eexists; split; [apply NilEmpty.usu | now rewrite E]).
Qed.

(** The index can be read back from the padded number. *)
Lemma zfill_read (w n : nat) :
  option_map Nat.of_uint (NilEmpty.uint_of_string (Str.zfill w n)) = Some n.
Proof.
  unfold Str.zfill. rewrite uint_of_zeros.
  destruct (uint_of_nat n) as (d & -> & Hd). cbn [option_map].
  now rewrite of_uint_zeros, Hd.
Qed.

Lemma zfill_inj (w i j : nat) : Str.zfill w i = Str.zfill w j -> i = j.
Proof.
  intros E. pose proof (zfill_read w i) as Hi. rewrite E, zfill_read in Hi.
  congruence.
Qed.

Lemma motif_apply_inj (m : motif) (i j : nat) :
  motif_apply m i = motif_apply m j -> i = j.
Proof.
  unfold motif_apply. intros E.
  apply append_inv_head, append_inv_tail in E. now apply zfill_inj in E.
Qed.

Lemma NoDup_names (m : motif) (i k : nat) :
  NoDup (map (motif_apply m) (seq i k)).
Proof.
  revert i. induction k as [|k IH]; intros i; cbn [seq map]; constructor.
  - rewrite in_map_iff. intros (j & E & Hj).
    apply motif_apply_inj in E. apply in_seq in Hj. lia.
  - apply IH.
Qed.

End NameFacts.

(** The files of one call of [parse]: their names, where they stand among
    the files of the run, and the index reached. *)
Lemma parse_made {W : Type} {Py : Python W} (fuel : nat)
    (iname text : string) (values : context) (repeat : nat) (st : state W)
    (made : list string) (values' : context) (st' : state W) :
  parse fuel iname text values repeat st = Some (made, values', st') ->
  made = map (motif_apply (file_motif (set_name_motif iname st)))
           (seq (file_index st) (length made)) /\
  map fst (created (trace st')) = (map fst (created (trace st)) ++ made)%list /\
  file_index st' = file_index st + length made.
Proof.
  unfold parse. intros E.
  destruct (for_each _ _ _) as [[vs2 st2]|] eqn:Efor in E; [|discriminate].
  inversion E; subst; clear E.
  apply (for_each_inv
           (fun s : context * state W => named (begin_template iname st) (snd s)))
    with (s := (Dict.set "n" (VInt 0) values, begin_template iname st))
         (s' := (values', st')) in Efor.
  - cbn [snd] in Efor. destruct Efor as (Hm & Hi & Hf & Hc).
    destruct (begin_template_spec iname st) as (Ei & Et & Ef).
    rewrite Ef in Hf. rewrite Et in Hc. cbn [app] in Hf.
    unfold names_between in Hf, Hc. rewrite Ei in Hf, Hc, Hi.
    assert (Hl : length (files_made st') = file_index st' - file_index st).
    { now rewrite Hf, length_map, length_seq. }
    rewrite Hl. repeat split.
    + exact Hf.
    + now rewrite Hc, <- Hf.
    + lia.
  - intros x [vsa sta] [vsb stb] _ Ha Eb. cbn [snd] in *.
    destruct (expand_values fuel (open_file text) vsa "" sta)
      as [[[fc vsc] stc]|] eqn:Ep; [|discriminate].
    inversion Eb; subst.
    eapply named_trans; [exact Ha|]. eapply expand_values_named; exact Ep.
  - apply named_refl.
Qed.

(** X1.  The list [parse] returns holds the names of the files this call
    created, in the order of creation: the motif of the template applied
    to consecutive indices, the first being the index the run had reached.
    No name comes twice.  (The name of
    the template holds no percent sign: [motif_apply] is then
    [file_motif % file_index].) *)
Theorem parse_names {W : Type} {Py : Python W} (fuel : nat)
    (iname text : string) (values : context) (repeat : nat) (st : state W)
    (made : list string) (values' : context) (st' : state W) :
  parse fuel iname text values repeat st = Some (made, values', st') ->
  made = map (motif_apply (file_motif (set_name_motif iname st)))
           (seq (file_index st) (length made)) /\
  map fst (created (trace st')) = (map fst (created (trace st)) ++ made)%list /\
  file_index st' = file_index st + length made /\
  NoDup made.
Proof.
  intros E.
  destruct (parse_made fuel iname text values repeat st made values' st' E)
    as (Hm & Hc & Hi).
  repeat split; try assumption.
  rewrite Hm. apply NameFacts.NoDup_names.
Qed.

Lemma parse_names_witness :
  exists made values' st',
    parse 4 "config.cym.tpl" (template rate_speed newline) [] 1 (initial_state tt)
    = Some (made, values', st') /\
    made = map (motif_apply
                  (file_motif (set_name_motif "config.cym.tpl" (initial_state tt))))
             (seq 0 (length made)) /\
    map fst (created (trace st')) = made /\
    file_index st' = length made /\
    NoDup made.
Proof.
  ran.
  eapply (parse_names (Py := Mini.python) 4 "config.cym.tpl"
           (template rate_speed newline) [] 1 (initial_state tt)).
  vm_compute; reflexivity.
Defined.

(** X2.  A call of [expand_values], hence of [process], leaves the
    settings of the run alone, whatever the template and the interpreter
    do: the target directory, the width of the numbers, the motif of the
    file names, the name of the template and the destination of [out] are
    written by [main] and [parse] only. *)
Theorem settings_are_kept {W : Type} {Py : Python W} (fuel : nat) (f : file)
    (values : context) (text : string) (st : state W)
    (f' : file) (values' : context) (st' : state W) :
  expand_values fuel f values text st = Some (f', values', st') ->
  same_settings st st'.
Proof.
  apply (expand_values_rel (fun _ a b => same_settings a b)).
  - intros _ s. apply same_settings_refl.
  - intros _ a b c. apply same_settings_trans.
  - auto.
  - intros _ m s. now repeat split.
  - intros _. apply same_settings_evaluate.
  - intros. apply same_settings_make_file.
Qed.

Lemma settings_are_kept_witness :
  exists f' values' st',
    expand_values 9 (open_file "v=[[ x ]]!")
      [("n", VInt 0); ("x", VList [VInt 1; VInt 2])] "" (initial_state tt)
    = Some (f', values', st') /\
    same_settings (initial_state tt) st'.
Proof.
  ran.
  eapply (settings_are_kept (Py := Mini.python) 9 (open_file "v=[[ x ]]!")
            [("n", VInt 0); ("x", VList [VInt 1; VInt 2])] "" (initial_state tt)).
  vm_compute; reflexivity.
Defined.

(** X3.  What a call of [process] or [expand_values] has, the text
    produced so far, opens every file the call makes: text once produced
    is never changed, whatever the template and the interpreter do. *)
Theorem text_so_far_is_kept {W : Type} {Py : Python W} (fuel : nat) (f : file)
    (values : context) (text : string) (st : state W)
    (f' : file) (values' : context) (st' : state W) :
  expand_values fuel f values text st = Some (f', values', st') ->
  exists new,
    texts (trace st') = (texts (trace st) ++ new)%list /\
    Forall (fun t => exists rest, t = text ++ rest) new.
Proof.
  apply (expand_values_rel
           (fun t a b => exists new,
              texts (trace b) = (texts (trace a) ++ new)%list /\
              Forall (fun x => exists rest, x = t ++ rest) new)).
  - intros t s. exists []. now rewrite app_nil_r.
  - intros t a b c (n1 & E1 & F1) (n2 & E2 & F2). exists (n1 ++ n2)%list.
    split; [now rewrite E2, E1, app_assoc | now apply Forall_app].
  - intros t x a b (n1 & E1 & F1). exists n1. split; [assumption|].
    eapply Forall_impl; [|exact F1]. intros y (rest & ->).
    exists (x ++ rest). apply StrFacts.app_assoc.
  - intros t m s. exists []. rewrite app_nil_r.
    split; [|constructor]. apply texts_quiet, quiet_out_write.
  - intros t e vs s. exists []. rewrite app_nil_r.
    split; [|constructor]. apply texts_quiet, quiet_evaluate.
  - intros t vs s. exists [t]. split; [apply texts_make_file|].
    constructor; [|constructor]. exists "". now rewrite StrFacts.app_nil_r.
Qed.

Lemma text_so_far_is_kept_witness :
  exists f' values' st',
    expand_values 9 (open_file "v=[[ x ]]!")
      [("n", VInt 0); ("x", VList [VInt 1; VInt 2])] "# " (initial_state tt)
    = Some (f', values', st') /\
    exists new,
      texts (trace st') = (texts (trace (initial_state tt)) ++ new)%list /\
      Forall (fun t => exists rest, t = "# " ++ rest) new.
Proof.
  ran.
  eapply (text_so_far_is_kept (Py := Mini.python) 9 (open_file "v=[[ x ]]!")
            [("n", VInt 0); ("x", VList [VInt 1; VInt 2])] "# " (initial_state tt)).
  vm_compute; reflexivity.
Defined.

Lemma stderr_of_app (v : bool) (a b : list event) :
  stderr_of v (a ++ b) = (stderr_of v a ++ stderr_of v b)%list.
Proof.
  induction a as [|ev a IH]; [reflexivity|].
  destruct ev, v; cbn [stderr_of app]; now rewrite ?IH.
Qed.

(** X4.  With [out] the null device, as it is unless [+] is given,
    [sys.stderr] is written only by a failed evaluation: if no snippet
    raises, a call of [expand_values], hence of [process], leaves the
    error stream as it found it. *)
Theorem silent_unless_eval_fails {W : Type} {Py : Python W} (fuel : nat)
    (f : file) (values : context) (text : string) (st : state W)
    (f' : file) (values' : context) (st' : state W) :
  (forall e vs w, exists v, fst (py_eval e vs w) = Returns v) ->
  expand_values fuel f values text st = Some (f', values', st') ->
  stderr_of false (trace st') = stderr_of false (trace st).
Proof.
  intros Hev.
  apply (expand_values_rel
           (fun _ a b => stderr_of false (trace b) = stderr_of false (trace a))).
  - reflexivity.
  - intros _ a b c. congruence.
  - auto.
  - intros _ m s. cbn. rewrite stderr_of_app. cbn. apply app_nil_r.
  - intros _ e vs s. destruct (Hev e vs (rng s)) as [v Hv].
    destruct (evaluate_returns e vs s v Hv) as [w ->]. reflexivity.
  - intros t vs s. unfold make_file, next_file_name, extend_files_made, log_event.
    cbn [snd trace]. rewrite !stderr_of_app. cbn. now rewrite !app_nil_r.
Qed.

Lemma silent_unless_eval_fails_witness :
  exists f' values' st',
    @expand_values unit (with_eval Mini.python eval_one) 9
      (open_file "v=[[ x ]] w=[[ y = 2 ]]!") [("a", VList [VInt 1; VInt 2])] ""
      (initial_state tt)
    = Some (f', values', st') /\
    stderr_of false (trace st') = stderr_of false (trace (initial_state tt)).
Proof.
  ran.
  eapply (silent_unless_eval_fails (Py := with_eval Mini.python eval_one) 9
            (open_file "v=[[ x ]] w=[[ y = 2 ]]!") [("a", VList [VInt 1; VInt 2])] ""
            (initial_state tt)).
  - intros e vs w. now exists (VInt 1).
  - vm_compute; reflexivity.
Defined.

Section SplitFacts.
Import Str StrFacts.

(** One turn of the loop of [get_block]. *)
Lemma loop_cons (s e : ascii) (ch : ascii) (rest : string) (pc : ascii)
    (dep1 : Z) (dep2 : bool) (pre blk : string) (msgs : list string) (n : nat) :
  get_block_loop s e (String ch rest) pc dep1 dep2 pre blk msgs n =
  let dep1a := if Ascii.eqb ch s then (dep1 + 1)%Z else dep1 in
  let dep2a := if Ascii.eqb ch s && Ascii.eqb pc s then true else dep2 in
  let blka := if dep2a then snoc blk pc else blk in
  let prea := if dep2a then pre else snoc pre pc in
  let dep1b := if Ascii.eqb ch e then (dep1a - 1)%Z else dep1a in
  let msgsb :=
    if Ascii.eqb ch e && (dep1b <? 0)%Z then (msgs ++ [msg_unbalanced])%list
    else msgs in
  if Ascii.eqb ch e && (Ascii.eqb pc e && (dep1b =? 0)%Z)
  then (prea, snoc blka ch, false, msgsb, S n)
  else get_block_loop s e rest ch dep1b dep2a prea blka msgsb (S n).
Proof.
  cbn [get_block_loop]. cbv zeta. destruct (Ascii.eqb ch e); reflexivity.
Qed.

Lemma loop_split (rest : string) :
  forall pc dep1 dep2 pre blk msgs n pre' blk' eof msgs' n',
    (dep2 = false -> blk = "") ->
    get_block_loop "[" "]" rest pc dep1 dep2 pre blk msgs n
    = (pre', blk', eof, msgs', n') ->
    exists k,
      if eof then
        blk' = "" /\ n' = n + String.length rest /\
        exists lost,
          (pre ++ blk) ++ chop (String pc rest) = pre' ++ lost /\
          msgs' = (msgs ++ repeat msg_unbalanced k
                   ++ (if nonempty lost then [msg_eof] else []))%list
      else
        exists used rest',
          rest = used ++ rest' /\
          (pre ++ blk) ++ String pc used = pre' ++ blk' /\
          n' = n + String.length used /\
          msgs' = (msgs ++ repeat msg_unbalanced k)%list.
Proof.
  induction rest as [|ch rest IH];
    intros pc dep1 dep2 pre blk msgs n pre' blk' eof msgs' n' Hinv E.
  - cbn [get_block_loop] in E. inversion E; subst. exists 0.
    split; [reflexivity|]. split; [cbn; lia|].
    exists blk. split; [cbn; now rewrite app_nil_r|].
    cbn [repeat app]. destruct (nonempty blk); [reflexivity | now rewrite List.app_nil_r].
  - rewrite loop_cons in E. cbv zeta in E.
    set (dep2a := if Ascii.eqb ch "[" && Ascii.eqb pc "[" then true else dep2) in *.
    set (blka := if dep2a then snoc blk pc else blk) in *.
    set (prea := if dep2a then pre else snoc pre pc) in *.
    set (dep1b := if Ascii.eqb ch "]" then _ else _) in *.
    set (msgsb := if Ascii.eqb ch "]" && (dep1b <? 0)%Z then _ else _) in *.
    assert (Hm : exists j, msgsb = (msgs ++ repeat msg_unbalanced j)%list).
    { subst msgsb. destruct (Ascii.eqb ch "]" && (dep1b <? 0)%Z);
        [now exists 1 | exists 0; now rewrite List.app_nil_r]. }
    destruct Hm as [j Hm].
    assert (Hcat : prea ++ blka = (pre ++ blk) ++ String pc "").
    { subst prea blka. destruct dep2a eqn:Ed.
      - unfold snoc. now rewrite app_assoc.
      - assert (dep2 = false) as Hd
            by (subst dep2a; destruct (Ascii.eqb ch "[" && Ascii.eqb pc "[");
                [discriminate | assumption]).
        rewrite (Hinv Hd). unfold snoc. now rewrite !app_nil_r. }
    assert (Hinv' : dep2a = false -> blka = "").
    { intros Ed. subst blka. rewrite Ed. apply Hinv. subst dep2a.
      destruct (Ascii.eqb ch "[" && Ascii.eqb pc "["); [discriminate | assumption]. }
    destruct (Ascii.eqb ch "]" && (Ascii.eqb pc "]" && (dep1b =? 0)%Z)).
    + inversion E; subst pre' blk' eof msgs' n'. exists j.
      exists (String ch ""), rest. split; [reflexivity|].
      split; [|split; [cbn; lia | exact Hm]].
      change (snoc blka ch) with (blka ++ String ch "").
      rewrite <- (app_assoc prea blka), Hcat, (app_assoc (pre ++ blk)).
      reflexivity.
    + apply IH in E; [|exact Hinv']. destruct E as [k E]. exists (j + k).
      rewrite repeat_app, Hm in *. rewrite Hcat in E.
      destruct eof.
      * destruct E as (Hb & Hn & lost & Hl & Hmsgs).
        split; [assumption|]. split; [cbn [String.length]; lia|].
        exists lost. split.
        -- rewrite chop_cons, <- Hl, (app_assoc (pre ++ blk)). reflexivity.
        -- rewrite Hmsgs, <- !List.app_assoc. reflexivity.
      * destruct E as (used & rest' & Hr & Hl & Hn & Hmsgs).
        exists (String ch used), rest'. split; [now rewrite Hr|].
        split; [|split].
        -- rewrite <- Hl, (app_assoc (pre ++ blk)). reflexivity.
        -- cbn [String.length]. lia.
        -- rewrite Hmsgs, <- !List.app_assoc. reflexivity.
Qed.

Lemma loop_shape (rest : string) :
  forall pc dep1 dep2 pre blk msgs n pre' blk' msgs' n',
    in_block dep2 blk pc ->
    get_block_loop "[" "]" rest pc dep1 dep2 pre blk msgs n
    = (pre', blk', false, msgs', n') ->
    blk' = "]" \/ exists body, blk' = "[[" ++ body ++ "]]".
Proof.
  induction rest as [|ch rest IH];
    intros pc dep1 dep2 pre blk msgs n pre' blk' msgs' n' Hin E.
  - cbn [get_block_loop] in E. discriminate.
  - rewrite loop_cons in E. cbv zeta in E.
    destruct (Ascii.eqb ch "]" && _) eqn:Eret in E.
    + apply andb_prop in Eret as [Ech Eret]. apply andb_prop in Eret as [Epc _].
      apply Ascii.eqb_eq in Ech, Epc. subst ch pc.
      change (Ascii.eqb "]" "[") with false in E. cbn [andb] in E.
      inversion E; subst. unfold in_block in Hin. destruct dep2.
      * destruct Hin as [[_ Hpc]|[b ->]]; [discriminate|].
        right. exists b. unfold snoc. cbn. now rewrite !app_assoc.
      * subst blk. now left.
    + eapply IH; [|exact E]. clear E Eret IH.
      unfold in_block in *.
      destruct (Ascii.eqb ch "[") eqn:Ech, (Ascii.eqb pc "[") eqn:Epc;
        cbn [andb]; try apply Ascii.eqb_eq in Ech; try apply Ascii.eqb_eq in Epc;
        subst.
      * destruct dep2.
        -- right. destruct Hin as [[-> _]|[b ->]]; [now exists "" |].
           exists (snoc b "["). reflexivity.
        -- subst blk. now left.
      * destruct dep2; [|assumption].
        right. destruct Hin as [[_ ->]|[b ->]]; [discriminate|].
        exists (snoc b pc). reflexivity.
      * destruct dep2; [|assumption].
        right. destruct Hin as [[-> _]|[b ->]]; [now exists "" |].
        exists (snoc b "["). reflexivity.
      * destruct dep2; [|assumption].
        right. destruct Hin as [[_ ->]|[b ->]]; [discriminate|].
        exists (snoc b pc). reflexivity.
Qed.

(** The scanner on any text. *)
Lemma scan_split (t pre code : string) (eof : bool) (msgs : list string) (n : nat) :
  scan "[" "]" t = (pre, code, eof, msgs, n) ->
  exists k,
    if eof then
      code = "" /\ n = String.length t /\
      exists lost,
        chop t = pre ++ lost /\
        msgs = (repeat msg_unbalanced k
                ++ (if nonempty lost then [msg_eof] else []))%list
    else
      (code = "]" \/ exists body, code = "[[" ++ body ++ "]]") /\
      exists rest,
        t = pre ++ code ++ rest /\ n = String.length (pre ++ code) /\
        msgs = repeat msg_unbalanced k.
Proof.
  destruct t as [|ch rest]; intros E.
  - inversion E; subst. exists 0. repeat split. now exists "".
  - unfold scan in E. pose proof E as E2.
    apply loop_split in E; [|reflexivity]. destruct E as [k E]. exists k.
    destruct eof.
    + destruct E as (Hb & Hn & lost & Hl & Hm).
      split; [assumption|]. split; [cbn [String.length]; lia|].
      exists lost. split; assumption.
    + apply loop_shape in E2; [|reflexivity]. split; [assumption|].
      destruct E as (used & rest' & Hr & Hl & Hn & Hm).
      exists rest'. cbn [append] in Hl.
      split; [now rewrite <- app_assoc, <- Hl, Hr|].
      split; [|assumption].
      rewrite <- Hl. cbn [String.length]. lia.
Qed.

End SplitFacts.

(** X5.  [get_block] on any text, from any position.  When it returns a
    block, the text before the block, the block and what is left to read
    make up what was there to read, in this order: no character is lost,
    added or moved; the block is two opening brackets, code, two closing
    brackets, or else a lone closing bracket (met when two single brackets
    close together).  At the end of the input it returns no block and
    leaves nothing to read; the text it returns, followed by what it had
    collected of a block left open, is what was there to read less the
    last character; the line about the end of the input goes to [out]
    exactly when something of a block is dropped.  The other lines
    written are the lines about unbalanced brackets. *)
Theorem get_block_splits {W : Type} {Py : Python W} (f : file) (st : state W)
    (pre code : string) (eof : bool) (f1 : file) (st1 : state W) :
  get_block f CODE_IN CODE_OUT st = (pre, code, eof, f1, st1) ->
  content f1 = content f /\
  exists k,
    if eof then
      code = "" /\ remaining f1 = "" /\
      exists lost,
        Str.chop (remaining f) = pre ++ lost /\
        trace st1
        = (trace st
           ++ map OutLine (repeat msg_unbalanced k
                           ++ (if Str.nonempty lost then [msg_eof] else [])))%list
    else
      remaining f = pre ++ code ++ remaining f1 /\
      (code = "]" \/ exists body, code = "[[" ++ body ++ "]]") /\
      trace st1 = (trace st ++ map OutLine (repeat msg_unbalanced k))%list.
Proof.
  rewrite get_block_scan.
  destruct (scan "[" "]" (remaining f)) as [[[[pre0 code0] eof0] msgs] n] eqn:Es.
  intros E. inversion E; subst; clear E. split; [reflexivity|].
  apply scan_split in Es as [k Es]. exists k.
  rewrite remaining_seek, out_writes_trace. destruct eof.
  - destruct Es as (Hc & Hn & lost & Hl & Hm). subst n.
    split; [assumption|]. split.
    + rewrite <- (StrFacts.app_nil_r (remaining f)) at 2. apply StrFacts.drop_app.
    + exists lost. now rewrite Hm.
  - destruct Es as (Hs & rest & Ht & Hn & Hm). subst n msgs.
    split; [|split; [assumption | reflexivity]].
    rewrite Ht at 2.
    rewrite <- (StrFacts.app_assoc pre code rest), StrFacts.drop_app.
    exact Ht.
Qed.

Lemma get_block_splits_witness :
  let f := open_file "a=[[ 1 ]]b" in
  let f1 := seek 9 f in
  content f1 = content f /\
  exists k,
    remaining f = "a=" ++ "[[ 1 ]]" ++ remaining f1 /\
    ("[[ 1 ]]" = "]" \/ exists body, "[[ 1 ]]" = "[[" ++ body ++ "]]") /\
    trace (initial_state tt)
    = (trace (initial_state tt) ++ map OutLine (repeat msg_unbalanced k))%list.
Proof.
  apply (get_block_splits (Py := Mini.python) (open_file "a=[[ 1 ]]b")
           (initial_state tt) "a=" "[[ 1 ]]" false (seek 9 (open_file "a=[[ 1 ]]b"))
           (initial_state tt)).
  vm_compute; reflexivity.
Defined.

Section EndFacts.

Context {W : Type} {Py : Python W}.

Lemma process_named (fuel : nat) (f : file) (values : context)
    (text : string) (st : state W) (f' : file) (values' : context) (st' : state W) :
  process fuel f values text st = Some (f', values', st') ->
  named st st'.
Proof.
  apply (process_rel (fun _ a b => named a b)).
  - intros _ s. apply named_refl.
  - intros _ a b c. apply named_trans.
  - auto.
  - intros _ m s. apply named_quiet; [reflexivity | apply quiet_out_write].
  - intros _ e vs s. apply named_quiet; [|apply quiet_evaluate].
    apply same_settings_evaluate.
  - intros. apply named_make_file.
Qed.

(** A call of [process] that returns has read the template to its end and
    has made a file. *)
Lemma process_eof (fuel : nat) :
  forall f values text (st : state W) f' values' st',
    process fuel f values text st = Some (f', values', st') ->
    remaining f' = "" /\ file_index st < file_index st' /\
    content f' = content f.
Proof.
  induction fuel as [|fuel IH]; intros f values text st f' values' st' E;
    [discriminate|].
  rewrite process_S, get_block_scan in E.
  destruct (scan "[" "]" (remaining f)) as [[[[pre code] eof] msgs] n] eqn:Es.
  pose proof (quiet_out_writes msgs st) as (Hi1 & _).
  destruct eof.
  - destruct (make_file_spec (text ++ pre) values (out_writes msgs st)) as (Hi & _).
    destruct (make_file (text ++ pre) values (out_writes msgs st)) as [vs2 st2].
    inversion E; subst. cbn [snd] in Hi.
    apply scan_split in Es as (k & _ & Hn & _). subst n.
    split; [|split; [lia | reflexivity]].
    rewrite remaining_seek.
    rewrite <- (StrFacts.app_nil_r (remaining f)) at 2. apply StrFacts.drop_app.
  - destruct (try_assignment (Str.slice_2_m2 code)) as [key e].
    pose proof (quiet_evaluate e values (out_writes msgs st)) as (Hi2 & _).
    destruct (evaluate e values (out_writes msgs st)) as [vals st2].
    cbn [snd] in Hi2.
    destruct (for_each _ _ _) as [[[f2 vs2] st3]|] eqn:Efor in E; [|discriminate].
    assert (H3 : file_index st <= file_index st3 /\ content f2 = content f).
    { apply (for_each_inv (fun s : file * context * state W =>
                             file_index st <= file_index (snd s) /\
                             content (fst (fst s)) = content f))
        with (s := (seek (pos f + n) f, values, st2)) (s' := (f2, vs2, st3)) in Efor.
      - exact Efor.
      - intros v [[fa vsa] sta] [[fb vsb] stb] _ [Ha Hca] Eb. cbn [fst snd] in *.
        destruct (bound_spec key code v vsa (text ++ pre) sta) as [m Ebd].
        rewrite Ebd in Eb.
        destruct (process fuel fa _ _ _) as [[[fc vsc] stc]|] eqn:Ep in Eb;
          [|discriminate].
        cbn [rewind] in Eb. inversion Eb; subst.
        apply IH in Ep as (_ & Hlt & Hcc). cbn in Hlt.
        split; [lia|]. cbn [seek content]. congruence.
      - cbn [fst snd seek content]. split; [lia | reflexivity]. }
    destruct H3 as [H3 Hc2].
    destruct (bound_spec key code (tail_of vals) vs2 (text ++ pre) st3) as [m Ebd].
    rewrite Ebd in E. apply IH in E as (Hr & Hlt & Hc). cbn in Hlt.
    split; [assumption|]. split; [lia | congruence].
Qed.

End EndFacts.

(** X6.  Whenever a call of [process] returns, it has read the template
    to its end, left the text of the file alone, and made at least one
    file.  And it does return, as soon as the fuel exceeds the number of
    characters left to read, when the dictionary holds scalars and every
    snippet evaluates, in a dictionary of scalars, to a scalar or to a
    list of scalars that is not empty, an object of its own. *)
Theorem process_ends {W : Type} {Py : Python W} (fuel : nat) (f : file)
    (values : context) (text : string) (st : state W) :
  (forall f' values' st',
     process fuel f values text st = Some (f', values', st') ->
     content f' = content f /\
     remaining f' = "" /\
     length (created (trace st)) < length (created (trace st'))) /\
  (flat_results Py ->
   all_scalar values = true ->
   String.length (remaining f) < fuel ->
   exists f' values' st',
     process fuel f values text st = Some (f', values', st') /\
     all_scalar values' = true).
Proof.
  split.
  - intros f' values' st' E.
    destruct (process_eof fuel f values text st f' values' st' E) as (Hr & _ & Hc).
    split; [assumption|]. split; [assumption|].
    destruct (process_named fuel f values text st f' values' st' E)
      as (_ & _ & _ & Hn).
    apply (f_equal (@length string)) in Hn.
    rewrite length_app, !length_map in Hn. unfold names_between in Hn.
    rewrite length_map, length_seq in Hn.
    destruct (process_eof fuel f values text st f' values' st' E) as (_ & Hlt & _).
    lia.
  - intros Hflat Hs Hlen.
    destruct (process_total fuel f values text st Hlen)
      as (f' & values' & st' & E & _).
    exists f', values', st'. split; [assumption|].
    exact (process_all_scalar fuel f values text st f' values' st' Hflat Hs E).
Qed.

Lemma process_ends_witness :
  let f := open_file "[[ x = [1, 2] ]]v=[[ x ]]!" in
  (forall f' values' st',
     @process unit (with_eval Mini.python eval_flat) 27 f [("n", VInt 0)] ""
       (initial_state tt) = Some (f', values', st') ->
     content f' = content f /\
     remaining f' = "" /\
     0 < length (created (trace st'))) /\
  (flat_results (with_eval Mini.python eval_flat) ->
   all_scalar [("n", VInt 0)] = true ->
   String.length (remaining f) < 27 ->
   exists f' values' st',
     @process unit (with_eval Mini.python eval_flat) 27 f [("n", VInt 0)] ""
       (initial_state tt) = Some (f', values', st') /\
     all_scalar values' = true).
Proof.
  intros f.
  exact (process_ends (Py := with_eval Mini.python eval_flat) 27 f
           [("n", VInt 0)] "" (initial_state tt)).
Defined.

(** That run returns, with two files. *)
Example process_ends_run :
  exists f' values' st',
    @process unit (with_eval Mini.python eval_flat) 27
      (open_file "[[ x = [1, 2] ]]v=[[ x ]]!") [("n", VInt 0)] "" (initial_state tt)
    = Some (f', values', st') /\
    texts (trace st') = ["v=1"; "v=2"].
Proof. ran. reflexivity. Qed.

Section SingleBrackets.
Import Str StrFacts.

Lemma last_of_not (c pc : ascii) (p : string) :
  mem c p = false -> p <> "" -> Ascii.eqb (last_of pc p) c = false.
Proof.
  revert pc. induction p as [|d p IH]; intros pc Hm Hp; [congruence|].
  cbn [mem] in Hm. apply orb_false_elim in Hm as [Hd Hm]. cbn [last_of].
  destruct p as [|d' p'].
  - cbn [last_of]. now rewrite Ascii.eqb_sym.
  - apply IH; [assumption | discriminate].
Qed.

Lemma plain_mem (p : string) :
  plain p = true -> mem "[" p = false /\ mem "]" p = false.
Proof.
  unfold plain. intros H. apply andb_prop in H as [H1 H2].
  now apply negb_true_iff in H1, H2.
Qed.

Lemma snoc_chop (pre : string) (pc : ascii) (p : string) :
  snoc (pre ++ chop (String pc p)) (last_of pc p) = pre ++ String pc p.
Proof.
  rewrite <- (chop_last_of pc p) at 2. unfold snoc. apply app_assoc.
Qed.

(** Two single brackets that close together, the first having just been
    read outside of any bracket. *)
Lemma loop_single_brackets (p q rest pre : string) (msgs : list string) (n : nat) :
  plain p = true -> p <> "" -> plain q = true ->
  get_block_loop "[" "]" (p ++ "[" ++ q ++ "]]" ++ rest) "[" 1 false pre "" msgs n
  = (pre ++ "[" ++ p ++ "[" ++ q ++ "]", "]", false, msgs,
     n + String.length p + String.length q + 3).
Proof.
  intros Hp Hne Hq.
  rewrite loop_plain by assumption.
  destruct (plain_mem p Hp) as [Hpo Hpc].
  pose proof (last_of_not "[" "[" p Hpo Hne) as Hl.
  cbn [append]. rewrite loop_cons. cbv zeta.
  change (Ascii.eqb "[" "[") with true. change (Ascii.eqb "[" "]") with false.
  rewrite Hl. cbn [andb]. rewrite snoc_chop.
  rewrite loop_plain by assumption.
  cbn [append]. rewrite loop_cons. cbv zeta.
  change (Ascii.eqb "]" "[") with false. change (Ascii.eqb "]" "]") with true.
  assert (Hlq : Ascii.eqb (last_of "[" q) "]" = false).
  { destruct q as [|c q']; [reflexivity|].
    apply last_of_not; [apply (plain_mem _ Hq) | discriminate]. }
  rewrite Hlq. cbn [andb].
  change ((1 + 1 - 1 <? 0)%Z) with false. cbv iota.
  rewrite snoc_chop.
  rewrite loop_cons. cbv zeta.
  change (Ascii.eqb "]" "[") with false. change (Ascii.eqb "]" "]") with true.
  cbn [andb]. change ((1 + 1 - 1 - 1 <? 0)%Z) with false.
  change ((1 + 1 - 1 - 1 =? 0)%Z) with true. cbv iota.
  assert (Et : snoc ((pre ++ String "[" p) ++ String "[" q) "]"
               = pre ++ String "[" (p ++ String "[" (q ++ "]"))).
  { unfold snoc. rewrite !app_assoc. cbn [append]. rewrite ?app_assoc.
    reflexivity. }
  rewrite Et. repeat (f_equal; try reflexivity). lia.
Qed.

Lemma scan_single_brackets (a p q rest : string) :
  plain a = true -> plain p = true -> p <> "" -> plain q = true ->
  scan "[" "]" (a ++ "[" ++ p ++ "[" ++ q ++ "]]" ++ rest)
  = (a ++ "[" ++ p ++ "[" ++ q ++ "]", "]", false, [],
     String.length a + String.length p + String.length q + 4).
Proof.
  intros Ha Hp Hne Hq. destruct a as [|c a'].
  - change ("" ++ "[" ++ p ++ "[" ++ q ++ "]]" ++ rest)
      with (String "[" (p ++ "[" ++ q ++ "]]" ++ rest)).
    cbn [scan]. change (Ascii.eqb "[" "[") with true. cbv iota.
    rewrite (loop_single_brackets p q rest "" [] 1) by assumption.
    f_equal. cbn [String.length]. lia.
  - apply plain_cons in Ha as (Ho & Hc & Ha).
    change (String c a' ++ "[" ++ p ++ "[" ++ q ++ "]]" ++ rest)
      with (String c (a' ++ String "[" (p ++ "[" ++ q ++ "]]" ++ rest))).
    cbn [scan]. rewrite Ho.
    rewrite loop_plain by assumption.
    rewrite loop_cons. cbv zeta.
    change (Ascii.eqb "[" "[") with true. change (Ascii.eqb "[" "]") with false.
    rewrite (last_of_plain c a' Ho Ha). cbn [andb].
    rewrite snoc_chop. change ("" ++ String c a') with (String c a').
    rewrite (loop_single_brackets p q rest (String c a') [] _) by assumption.
    f_equal. cbn [String.length]. lia.
Qed.

End SingleBrackets.

(** X7.  Single brackets that close together, as in [a[i[0]]] (plain
    text, a bracket, plain text that is not empty, a bracket, plain text,
    two closing brackets): [get_block] returns the second closing bracket
    as a block, all that precedes it as text, and writes nothing.
    [process] then evaluates the empty code; [eval] raising on it, as it
    does on an empty string, [process] goes on after the two brackets
    with the text so far less that closing bracket, [evaluate] having
    written its lines to [sys.stderr]. *)
Theorem single_brackets_closing_together {W : Type} {Py : Python W}
    (a p q rest : string) (fuel : nat) (f : file) (values : context)
    (text : string) (st : state W) (msg : string) (w : W) :
  plain a = true -> plain p = true -> p <> "" -> plain q = true ->
  remaining f = a ++ "[" ++ p ++ "[" ++ q ++ "]]" ++ rest ->
  py_eval "" values (rng st) = (Raises msg, w) ->
  let pre := a ++ "[" ++ p ++ "[" ++ q ++ "]" in
  let f1 := seek (pos f + (String.length pre + 1)) f in
  get_block f CODE_IN CODE_OUT st = (pre, "]", false, f1, st) /\
  remaining f1 = rest /\
  process (S fuel) f values text st
  = process fuel f1 values (text ++ pre)
      (out_write (line_subst "]" "") (snd (evaluate "" values st))).
Proof.
  intros Ha Hp Hne Hq Hr Hev pre f1.
  assert (Hlen : String.length pre + 1
                 = String.length a + String.length p + String.length q + 4).
  { subst pre. rewrite StrFacts.length_app.
    change ("[" ++ p ++ "[" ++ q ++ "]") with (String "[" (p ++ String "[" (q ++ "]"))).
    cbn [String.length]. rewrite StrFacts.length_app. cbn [String.length].
    rewrite StrFacts.length_app. cbn [String.length]. lia. }
  assert (Hg : get_block f CODE_IN CODE_OUT st = (pre, "]", false, f1, st)).
  { rewrite get_block_scan, Hr, scan_single_brackets by assumption.
    subst f1. now rewrite Hlen. }
  split; [exact Hg|]. split.
  - subst f1. rewrite remaining_seek, Hr.
    replace (a ++ "[" ++ p ++ "[" ++ q ++ "]]" ++ rest)
      with ((pre ++ "]") ++ rest)
      by (subst pre; now rewrite !StrFacts.app_assoc).
    replace (String.length pre + 1) with (String.length (pre ++ "]"))
      by (rewrite StrFacts.length_app; reflexivity).
    apply StrFacts.drop_app.
  - rewrite process_S, Hg.
    change (Str.slice_2_m2 "]") with "". change (try_assignment "") with ("", "").
    unfold evaluate at 1. rewrite Hev.
    change (py_pop (VStr "")) with AttributeError.
    unfold forks, tail_of. cbn [py_pop for_each].
    unfold bound. cbn [Str.nonempty]. rewrite py_str_str, StrFacts.app_nil_r.
    unfold evaluate. rewrite Hev. reflexivity.
Qed.

Lemma single_brackets_closing_together_witness :
  let f := open_file "a[i[0]] = 1;" in
  let f1 := seek 7 f in
  get_block f CODE_IN CODE_OUT (initial_state tt)
  = ("a[i[0]", "]", false, f1, initial_state tt) /\
  remaining f1 = " = 1;" /\
  process 3 f [] "" (initial_state tt)
  = process 2 f1 [] "a[i[0]"
      (out_write (line_subst "]" "") (snd (evaluate "" [] (initial_state tt)))).
Proof.
  apply (single_brackets_closing_together (Py := Mini.python)
           "a" "i" "0" " = 1;" 2 (open_file "a[i[0]] = 1;") [] ""
           (initial_state tt) "invalid syntax (<string>, line 1)" tt);
    try reflexivity; discriminate.
Defined.

(** The file made from that line: the bracket is gone. *)
Example single_brackets_file :
  exists made values' st',
    parse 9 "t.txt.tpl" "a[i[0]] = 1;" [] 1 (initial_state tt)
    = Some (made, values', st') /\
    texts (trace st') = ["a[i[0] = 1"].
Proof. ran. reflexivity. Qed.

#[local] Abbreviation Permutation := Permutation.Permutation.

Module DictOrder.
Import DictFacts.

Lemma set_absent (k : string) (v : value) (d : context) :
  Dict.get k d = None -> Dict.set k v d = (d ++ [(k, v)])%list.
Proof.
  induction d as [|[k0 v0] d IH]; cbn [Dict.get Dict.set app]; [reflexivity|].
  destruct (String.eqb k k0); [discriminate|]. intros H. now rewrite IH.
Qed.

Lemma set_present (k : string) (v : value) (d e : context) :
  Dict.get k d <> None -> Dict.set k v (d ++ e)%list = (Dict.set k v d ++ e)%list.
Proof.
  induction d as [|[k0 v0] d IH]; cbn [Dict.get Dict.set app]; [congruence|].
  destruct (String.eqb k k0); [reflexivity|]. intros H. now rewrite IH.
Qed.

Lemma set_after (k : string) (v : value) (d e : context) :
  Dict.get k d = None -> Dict.set k v (d ++ e)%list = (d ++ Dict.set k v e)%list.
Proof.
  induction d as [|[k0 v0] d IH]; cbn [Dict.get Dict.set app]; [reflexivity|].
  destruct (String.eqb k k0); [discriminate|]. intros H. now rewrite IH.
Qed.

Lemma set_set (k : string) (v v' : value) (d : context) :
  Dict.set k v' (Dict.set k v d) = Dict.set k v' d.
Proof.
  induction d as [|[k0 v0] d IH]; cbn [Dict.set].
  - now rewrite String.eqb_refl.
  - destruct (String.eqb k k0) eqn:E; cbn [Dict.set]; rewrite E; [reflexivity|].
    now rewrite IH.
Qed.

Lemma set_same (k : string) (v : value) (d : context) :
  Dict.get k d = Some v -> Dict.set k v d = d.
Proof.
  induction d as [|[k0 v0] d IH]; cbn [Dict.get Dict.set]; [discriminate|].
  destruct (String.eqb k k0) eqn:E.
  - intros H. inversion H; subst. apply String.eqb_eq in E. now subst.
  - intros H. now rewrite IH.
Qed.

Lemma get_app (k : string) (d e : context) :
  Dict.get k (d ++ e)%list
  = match Dict.get k d with Some v => Some v | None => Dict.get k e end.
Proof.
  induction d as [|[k0 v0] d IH]; cbn [Dict.get app]; [reflexivity|].
  destruct (String.eqb k k0); [reflexivity | exact IH].
Qed.

Lemma pop_absent (k : string) (d : context) :
  Dict.get k d = None -> Dict.pop k d = d.
Proof.
  induction d as [|[k0 v0] d IH]; cbn [Dict.get Dict.pop]; [reflexivity|].
  destruct (String.eqb k k0); [discriminate|]. intros H. now rewrite IH.
Qed.

Lemma pop_middle (k : string) (v : value) (a b : context) :
  Dict.get k a = None -> Dict.pop k (a ++ (k, v) :: b)%list = (a ++ b)%list.
Proof.
  induction a as [|[k0 v0] a IH]; cbn [Dict.get Dict.pop app].
  - now rewrite String.eqb_refl.
  - destruct (String.eqb k k0); [discriminate|]. intros H. now rewrite IH.
Qed.

Lemma pop_present (k : string) (d e : context) :
  Dict.get k d <> None -> Dict.pop k (d ++ e)%list = (Dict.pop k d ++ e)%list.
Proof.
  induction d as [|[k0 v0] d IH]; cbn [Dict.get Dict.pop app]; [congruence|].
  destruct (String.eqb k k0); [reflexivity|]. intros H. now rewrite IH.
Qed.

Lemma pop_set (k : string) (v : value) (d : context) :
  Dict.get k d <> None -> Dict.pop k (Dict.set k v d) = Dict.pop k d.
Proof.
  induction d as [|[k0 v0] d IH]; cbn [Dict.get Dict.set Dict.pop]; [congruence|].
  destruct (String.eqb k k0) eqn:E; cbn [Dict.pop]; rewrite E; [reflexivity|].
  intros H. now rewrite IH.
Qed.

Lemma get_not_in (k : string) (d : context) :
  ~ In k (map fst d) -> Dict.get k d = None.
Proof.
  induction d as [|[k0 v0] d IH]; cbn [Dict.get map fst In]; [reflexivity|].
  intros H. destruct (String.eqb k k0) eqn:E.
  - apply String.eqb_eq in E. subst. tauto.
  - apply IH. tauto.
Qed.

Lemma wf_middle (a b : context) (k : string) (v : value) :
  wf_dict (a ++ (k, v) :: b)%list ->
  Dict.get k a = None /\ Dict.get k b = None /\ wf_dict (a ++ b)%list.
Proof.
  unfold wf_dict. rewrite !map_app. cbn [map fst]. intros H.
  pose proof (NoDup_remove_1 _ _ _ H) as H1.
  pose proof (NoDup_remove_2 _ _ _ H) as H2.
  rewrite in_app_iff in H2.
  repeat split; [apply get_not_in | apply get_not_in | assumption]; tauto.
Qed.

End DictOrder.

Section PopFacts.
Import DictOrder.

Lemma find_sequence_split (d : context) (k : string) (v : value) :
  find_sequence d = Some (k, v) ->
  exists a b, d = (a ++ (k, v) :: b)%list /\ all_scalar a = true /\ scalar v = false.
Proof.
  induction d as [|[k0 v0] d IH]; cbn [find_sequence]; [discriminate|].
  destruct (has_len v0 && negb (is_str v0)) eqn:E.
  - intros H. inversion H; subst. exists [], d.
    unfold scalar. now rewrite E.
  - intros H. destruct (IH H) as (a & b & -> & Ha & Hv).
    exists ((k0, v0) :: a), b. split; [reflexivity|]. split; [|assumption].
    cbn [all_scalar forallb snd]. unfold scalar at 1. rewrite E.
    exact Ha.
Qed.

Lemma pop_sequence_cases (dic : context) :
  wf_dict dic ->
  (all_scalar dic = true /\ pop_sequence dic = ("", VList [], dic)) \/
  (exists a k v b,
     dic = (a ++ (k, v) :: b)%list /\ all_scalar a = true /\ scalar v = false /\
     pop_sequence dic = (k, v, (a ++ b)%list)).
Proof.
  intros Hwf. unfold pop_sequence.
  destruct (find_sequence dic) as [[k v]|] eqn:E.
  - right. destruct (find_sequence_split dic k v E) as (a & b & -> & Ha & Hv).
    exists a, k, v, b. repeat split; try assumption.
    destruct (wf_middle a b k v Hwf) as (Hka & _ & _).
    now rewrite pop_middle.
  - left. split; [now apply find_sequence_none | reflexivity].
Qed.

End PopFacts.

(** X8.  [pop_sequence] takes the first entry, in the order of the
    dictionary, whose value has a length and is not a string: the entries
    before it are scalars, and the dictionary loses that entry and no
    other.  When there is none it returns the empty key and leaves the
    dictionary alone.  An entry under the empty key that holds a sequence
    is therefore taken out and reported as if nothing had been found:
    [expand_values] goes on to [process] without it. *)
Theorem pop_sequence_first {W : Type} {Py : Python W} (dic : context) :
  wf_dict dic ->
  (all_scalar dic = true /\ pop_sequence dic = ("", VList [], dic)) \/
  (exists a k v b,
     dic = (a ++ (k, v) :: b)%list /\ all_scalar a = true /\ scalar v = false /\
     pop_sequence dic = (k, v, (a ++ b)%list) /\
     (k = "" ->
      forall fuel f text (st : state W),
        expand_values (S fuel) f dic text st = process fuel f (a ++ b)%list text st)).
Proof.
  intros Hwf.
  destruct (pop_sequence_cases dic Hwf) as [H|(a & k & v & b & Hd & Ha & Hv & Hp)];
    [now left | right].
  exists a, k, v, b. repeat split; try assumption.
  intros -> fuel f text st. cbn [expand_values]. now rewrite Hp.
Qed.

Lemma pop_sequence_first_witness :
  let dic := [("n", VInt 0); ("s", VStr "ab"); ("", VList [VInt 1]); ("x", VInt 2)] in
  (all_scalar dic = true /\ pop_sequence dic = ("", VList [], dic)) \/
  (exists a k v b,
     dic = (a ++ (k, v) :: b)%list /\ all_scalar a = true /\ scalar v = false /\
     pop_sequence dic = (k, v, (a ++ b)%list) /\
     (k = "" ->
      forall fuel f text (st : state unit),
        expand_values (S fuel) f dic text st = process fuel f (a ++ b)%list text st)).
Proof.
  apply (pop_sequence_first (Py := Mini.python)).
  unfold wf_dict. cbn. repeat constructor; cbn; intuition discriminate.
Defined.

Module PermFacts.
Import DictFacts DictOrder.

Lemma wf_perm (d d' : context) : Permutation d d' -> wf_dict d -> wf_dict d'.
Proof.
  unfold wf_dict. intros Hp. apply Permutation.Permutation_NoDup.
  now apply Permutation.Permutation_map.
Qed.

Lemma get_perm (k : string) (d d' : context) :
  wf_dict d -> Permutation d d' -> Dict.get k d = Dict.get k d'.
Proof.
  intros Hwf Hp. pose proof (wf_perm d d' Hp Hwf) as Hwf'.
  destruct (Dict.get k d) as [v|] eqn:E.
  - symmetry. apply get_in; [assumption|].
    apply (Permutation.Permutation_in _ Hp).
    clear -E. induction d as [|[k0 v0] d IH]; cbn [Dict.get] in E; [discriminate|].
    destruct (String.eqb k k0) eqn:Ek.
    + apply String.eqb_eq in Ek. inversion E; subst. now left.
    + right. now apply IH.
  - symmetry. apply get_not_in. intros Hin. apply (get_none k d E).
    apply Permutation.Permutation_map with (f := fst) in Hp.
    apply Permutation.Permutation_sym in Hp.
    now apply (Permutation.Permutation_in _ Hp).
Qed.

Lemma get_split (k : string) (v : value) (d : context) :
  Dict.get k d = Some v ->
  exists a b, d = (a ++ (k, v) :: b)%list /\ Dict.get k a = None.
Proof.
  induction d as [|[k0 v0] d IH]; cbn [Dict.get]; [discriminate|].
  destruct (String.eqb k k0) eqn:Ek.
  - intros H. inversion H; subst. apply String.eqb_eq in Ek. subst.
    now exists [], d.
  - intros H. destruct (IH H) as (a & b & -> & Ha).
    exists ((k0, v0) :: a), b. split; [reflexivity|].
    cbn [Dict.get]. now rewrite Ek.
Qed.

Lemma set_middle (k : string) (x v : value) (a b : context) :
  Dict.get k a = None ->
  Dict.set k v (a ++ (k, x) :: b)%list = (a ++ (k, v) :: b)%list.
Proof.
  intros Ha. rewrite set_after by assumption. cbn [Dict.set].
  now rewrite String.eqb_refl.
Qed.

Lemma set_perm (k : string) (v : value) (d d' : context) :
  wf_dict d -> Permutation d d' ->
  Permutation (Dict.set k v d) (Dict.set k v d').
Proof.
  intros Hwf Hp. pose proof (get_perm k d d' Hwf Hp) as Hg.
  destruct (Dict.get k d) as [x|] eqn:E.
  - destruct (get_split k x d E) as (a & b & -> & Ha).
    destruct (get_split k x d' (eq_sym Hg)) as (a' & b' & -> & Ha').
    rewrite !set_middle by assumption.
    apply Permutation.Permutation_app_inv in Hp.
    apply Permutation.Permutation_trans with ((k, v) :: a ++ b)%list;
      [apply Permutation.Permutation_sym, Permutation.Permutation_middle|].
    apply Permutation.Permutation_trans with ((k, v) :: a' ++ b')%list;
      [now constructor | apply Permutation.Permutation_middle].
  - rewrite !set_absent by congruence.
    now apply Permutation.Permutation_app_tail.
Qed.

Lemma list_sum_perm (l l' : list nat) :
  Permutation l l' -> list_sum l = list_sum l'.
Proof. unfold list_sum. intros Hp. induction Hp; cbn [fold_right] in *; lia. Qed.

Lemma total_weight_perm (d d' : context) :
  Permutation d d' -> total_weight d = total_weight d'.
Proof.
  intros Hp. unfold total_weight. apply list_sum_perm.
  now apply Permutation.Permutation_map.
Qed.

Lemma total_weight_app (d e : context) :
  total_weight (d ++ e)%list = total_weight d + total_weight e.
Proof. unfold total_weight. now rewrite map_app, list_sum_app. Qed.

Lemma total_weight_cons (k : string) (v : value) (d : context) :
  total_weight ((k, v) :: d) = weight v + total_weight d.
Proof. reflexivity. Qed.

Lemma total_weight_set (k : string) (v : value) (d : context) :
  total_weight (Dict.set k v d) <= total_weight d + weight v.
Proof.
  induction d as [|[k0 v0] d IH]; cbn [Dict.set].
  - rewrite total_weight_cons. cbn. lia.
  - destruct (String.eqb k k0); rewrite !total_weight_cons; lia.
Qed.

Lemma weight_element (v x : value) : In x (elements v) -> weight x < weight v.
Proof.
  assert (H : forall l, In x l -> weight x <= list_sum (map weight l)).
  { induction l as [|y l IH]; [intros []|].
    change (list_sum (map weight (y :: l)))
      with (weight y + list_sum (map weight l)).
    intros [->|Hin]; [lia|]. specialize (IH Hin). lia. }
  destruct v as [z|s|l|l|s]; cbn [elements In]; try tauto; intros Hin;
    apply H in Hin.
  - change (weight (VList l)) with (S (list_sum (map weight l))). lia.
  - change (weight (VTuple l)) with (S (list_sum (map weight l))). lia.
Qed.

End PermFacts.

Section EmptySequence.

Context {W : Type} {Py : Python W}.
Import DictFacts DictOrder PermFacts.

Lemma seek_tell (f : file) : seek (tell f) f = f.
Proof. now destruct f. Qed.

Lemma popped_key_nonempty (k : string) (v : value) (d : context) :
  Dict.get "" d = None -> In (k, v) d -> Str.nonempty k = true.
Proof.
  intros Hg Hin. destruct k; [|reflexivity].
  now apply get_of_in in Hin.
Qed.

Lemma expand_values_empty (fuel : nat) :
  forall values,
    total_weight values < fuel -> wf_dict values -> Dict.get "" values = None ->
    (exists k v, In (k, v) values /\ scalar v = false /\ elements v = []) ->
    forall f text (st : state W),
      exists values',
        expand_values fuel f values text st = Some (f, values', st) /\
        Permutation values' values.
Proof.
  induction fuel as [|fuel IH];
    intros values Hw Hwf He (k & v & Hin & Hv & Hel) f text st; [lia|].
  cbn [expand_values].
  destruct (pop_sequence_cases values Hwf)
    as [[Ha _]|(a & k1 & v1 & b & Hd & Ha & Hv1 & Hp)].
  { unfold all_scalar in Ha. rewrite forallb_forall in Ha.
    specialize (Ha (k, v) Hin). cbn [snd] in Ha. congruence. }
  rewrite Hp.
  assert (Hin1 : In (k1, v1) values) by (rewrite Hd; apply in_elt).
  rewrite (popped_key_nonempty k1 v1 values He Hin1).
  destruct (wf_middle a b k1 v1 (eq_ind _ wf_dict Hwf _ Hd)) as (Hka & Hkb & HwfE).
  set (E := (a ++ b)%list) in *.
  assert (HkE : Dict.get k1 E = None).
  { unfold E. rewrite get_app, Hka. exact Hkb. }
  assert (HwfE1 : forall y, wf_dict (E ++ [(k1, y)])%list).
  { intros y. rewrite <- (set_absent k1 y E HkE). now apply wf_set. }
  assert (Hvalues : forall y, Permutation (E ++ [(k1, y)])%list (a ++ (k1, y) :: b)%list).
  { intros y. unfold E. rewrite <- app_assoc.
    apply Permutation.Permutation_app_head.
    apply Permutation.Permutation_sym, Permutation.Permutation_cons_append. }
  assert (HtwE : total_weight values = total_weight E + weight v1).
  { rewrite Hd, (total_weight_perm _ _ (Permutation.Permutation_sym (Hvalues v1))).
    rewrite total_weight_app. unfold total_weight at 2. cbn. lia. }
  set (InvD := fun d : context =>
                 d = E \/ exists x, In x (elements v1) /\
                                    Permutation d (E ++ [(k1, x)])%list).
  match goal with
  | |- context [@for_each _ ?S ?l ?body ?s0] =>
      destruct (fun H => for_each_acc
                  (fun s : S => fst (fst s) = f /\ snd s = st /\ InvD (snd (fst s)))
                  (fun _ => @nil unit) (fun _ => []) l body H s0)
        as (s' & -> & (Hf' & Hst' & HD') & _)
  end.
  - intros x [[fa da] sta] Hx (Hfa & Hsta & HD). cbn [fst snd] in Hfa, Hsta, HD.
    subst fa sta.
    assert (Hperm : Permutation (Dict.set k1 x da) (E ++ [(k1, x)])%list).
    { destruct HD as [->|(x' & _ & Hp')].
      - rewrite set_absent by assumption. apply Permutation.Permutation_refl.
      - apply Permutation.Permutation_trans
          with (Dict.set k1 x (E ++ [(k1, x')])%list).
        + apply set_perm; [|assumption].
          apply (wf_perm (E ++ [(k1, x')])%list);
            [now apply Permutation.Permutation_sym | apply HwfE1].
        + rewrite set_middle by assumption. apply Permutation.Permutation_refl. }
    pose proof (Permutation.Permutation_sym Hperm) as Hperm'.
    destruct (IH (Dict.set k1 x da)) with (f := f) (text := text) (st := st)
      as (d' & Ed & Hd').
    + rewrite (total_weight_perm _ _ Hperm), total_weight_app.
      unfold total_weight at 2. cbn.
      pose proof (weight_element v1 x Hx). lia.
    + apply (wf_perm _ _ Hperm'), HwfE1.
    + rewrite (get_perm "" _ _ (wf_perm _ _ Hperm' (HwfE1 x)) Hperm).
      rewrite get_app. 
      assert (HE0 : Dict.get "" E = None).
      { unfold E. rewrite Hd in He. rewrite get_app in *.
        destruct (Dict.get "" a); [discriminate|].
        cbn [Dict.get] in He. destruct (String.eqb "" k1); [discriminate | exact He]. }
      rewrite HE0. cbn [Dict.get].
      destruct k1; [|reflexivity].
      rewrite Hd, get_app, Hka in He. cbn [Dict.get] in He. discriminate.
    + exists k, v. split; [|now split].
      apply (Permutation.Permutation_in _ Hperm'). apply in_or_app. left.
      rewrite Hd in Hin. apply in_app_or in Hin as [Hin|[Hin|Hin]].
      * unfold E. apply in_or_app. now left.
      * inversion Hin; subst. rewrite Hel in Hx. destruct Hx.
      * unfold E. apply in_or_app. now right.
    + rewrite Ed. cbn [rewind]. rewrite seek_tell.
      exists (f, d', st). repeat split.
      right. exists x. split; [assumption|].
      eapply Permutation.Permutation_trans; eassumption.
  - repeat split. now left.
  - destruct s' as [[f' d'] st']. cbn [fst snd] in *. subst f' st'.
    exists (Dict.set k1 v1 d'). split; [reflexivity|].
    rewrite Hd. destruct HD' as [->|(x & _ & Hp')].
    + rewrite set_absent by assumption. apply Hvalues.
    + apply Permutation.Permutation_trans with (E ++ [(k1, v1)])%list;
        [|apply Hvalues].
      apply Permutation.Permutation_trans
        with (Dict.set k1 v1 (E ++ [(k1, x)])%list).
      * apply set_perm; [|assumption].
        apply (wf_perm (E ++ [(k1, x)])%list);
          [now apply Permutation.Permutation_sym | apply HwfE1].
      * rewrite set_middle by assumption. apply Permutation.Permutation_refl.
Qed.

End EmptySequence.

Section ProductFacts.

Context {W : Type} {Py : Python W}.
Import DictFacts DictOrder PermFacts.
#[local] Open Scope list_scope.

Lemma scalars_app (d e : context) :
  scalars (d ++ e) = (scalars d ++ scalars e)%list.
Proof. apply filter_app. Qed.

Lemma sequences_app (d e : context) :
  sequences (d ++ e) = (sequences d ++ sequences e)%list.
Proof. apply filter_app. Qed.

Lemma scalars_all (d : context) :
  all_scalar d = true -> scalars d = d /\ sequences d = [].
Proof.
  unfold all_scalar, scalars, sequences.
  induction d as [|kv d IH]; cbn [forallb filter]; [now split|].
  intros H. apply andb_prop in H as [Hv Hd]. rewrite Hv. cbn [negb].
  destruct (IH Hd) as [-> ->]. now split.
Qed.

Lemma all_scalar_scalars (d : context) : all_scalar (scalars d) = true.
Proof.
  unfold all_scalar, scalars.
  induction d as [|kv d IH]; cbn [filter]; [reflexivity|].
  destruct (scalar (snd kv)) eqn:E; [|assumption].
  cbn [forallb]. now rewrite E.
Qed.

Lemma sequences_sequences (d : context) :
  sequences (sequences d) = sequences d /\ scalars (sequences d) = [].
Proof.
  unfold scalars, sequences.
  induction d as [|kv d IH]; cbn [filter]; [now split|].
  destruct (scalar (snd kv)) eqn:E; cbn [negb]; [assumption|].
  cbn [filter]. rewrite E. cbn [negb]. destruct IH as [-> ->]. now split.
Qed.

Lemma all_scalar_app (d e : context) :
  all_scalar (d ++ e) = all_scalar d && all_scalar e.
Proof. apply forallb_app. Qed.

Lemma partition_perm (d : context) :
  Permutation d (scalars d ++ sequences d)%list.
Proof.
  unfold scalars, sequences.
  induction d as [|kv d IH]; cbn [filter app]; [constructor|].
  destruct (scalar (snd kv)); cbn [negb app].
  - now constructor.
  - eapply Permutation.Permutation_trans;
      [constructor; exact IH | apply Permutation.Permutation_middle].
Qed.

(** [process] on a template without opening bracket. *)
Lemma process_plain (fuel : nat) (f : file) (values : context) (text : string)
    (st : state W) :
  Str.mem "[" (remaining f) = false ->
  exists f' st',
    process (S fuel) f values text st
    = Some (f', Dict.set "n" (VInt (Z.of_nat (S (file_index st)))) values, st') /\
    content f' = content f /\
    emitted (trace st') = (emitted (trace st) ++ [values])%list /\
    texts (trace st') = (texts (trace st) ++ [(text ++ Str.chop (remaining f))%string]).
Proof.
  intros Hm. rewrite process_S, get_block_scan.
  destruct (scan_no_open (remaining f) Hm) as [msgs ->].
  pose proof (quiet_out_writes msgs st) as Hq.
  destruct (make_file_spec (text ++ Str.chop (remaining f))%string values (out_writes msgs st))
    as (_ & _ & _ & He & Hv).
  pose proof (texts_make_file (text ++ Str.chop (remaining f))%string values
                (out_writes msgs st)) as Ht.
  destruct (make_file _ _ _) as [vs2 st2]. cbn [fst snd] in *.
  exists (seek (pos f + String.length (remaining f)) f), st2.
  destruct Hq as (Hi & _). rewrite Hi in Hv. subst vs2.
  split; [reflexivity|]. split; [reflexivity|].
  rewrite He, Ht, (emitted_quiet st (out_writes msgs st)),
    (texts_quiet st (out_writes msgs st)) by apply quiet_out_writes.
  now split.
Qed.

Lemma expansible_perm (d d' : context) :
  Permutation d d' -> expansible d -> expansible d'.
Proof.
  intros Hp (Hwf & He & (z & Hn & Hz) & Hx).
  split; [exact (wf_perm d d' Hp Hwf)|].
  split; [now rewrite <- (get_perm "" d d' Hwf Hp)|].
  split; [exists z; now rewrite <- (get_perm "n" d d' Hwf Hp)|].
  rewrite forallb_forall in *. intros kv Hin. apply Hx.
  apply (Permutation.Permutation_in _ (Permutation.Permutation_sym Hp) Hin).
Qed.

Lemma expansible_set (k : string) (v : value) (d : context) :
  expansible d -> Str.nonempty k = true -> k <> "n"%string -> expandable v = true ->
  expansible (Dict.set k v d).
Proof.
  intros (Hwf & He & (z & Hn & Hz) & Hx) Hk Hkn Hv.
  split; [now apply wf_set|].
  split; [rewrite get_set_other; [assumption | now destruct k]|].
  split; [exists z; now rewrite get_set_other by congruence|].
  clear -Hx Hv. induction d as [|[k0 v0] d IH]; cbn [Dict.set forallb snd] in *.
  - now rewrite Hv.
  - apply andb_prop in Hx as [H0 Hd].
    destruct (String.eqb k k0); cbn [forallb snd].
    + now rewrite Hv, Hd.
    + now rewrite H0, IH.
Qed.

Lemma expansible_set_n (z : value) (d : context) :
  expansible d -> scalar z = true -> expansible (Dict.set "n" z d).
Proof.
  intros (Hwf & He & _ & Hx) Hz.
  split; [now apply wf_set|].
  split; [now rewrite get_set_other|].
  split; [exists z; now rewrite get_set_same|].
  assert (Hv : expandable z = true) by (unfold expandable; now rewrite Hz).
  clear -Hx Hv. induction d as [|[k0 v0] d IH]; cbn [Dict.set forallb snd] in *.
  - now rewrite Hv.
  - apply andb_prop in Hx as [H0 Hd].
    destruct (String.eqb "n" k0); cbn [forallb snd].
    + now rewrite Hv, Hd.
    + now rewrite H0, IH.
Qed.

Lemma sequences_none (d : context) : sequences d = [] -> all_scalar d = true.
Proof.
  unfold sequences, all_scalar.
  induction d as [|kv d IH]; cbn [filter forallb]; [reflexivity|].
  destruct (scalar (snd kv)); cbn [negb andb]; [exact IH | discriminate].
Qed.

Lemma get_scalars (k : string) (z : value) (d : context) :
  Dict.get k d = Some z -> scalar z = true -> Dict.get k (scalars d) = Some z.
Proof.
  intros Hg Hz. unfold scalars.
  induction d as [|[k0 v0] d IH]; cbn [Dict.get filter snd] in *; [discriminate|].
  destruct (String.eqb k k0) eqn:E.
  - inversion Hg; subst. rewrite Hz. cbn [Dict.get]. now rewrite E.
  - destruct (scalar v0); [cbn [Dict.get]; rewrite E|]; now apply IH.
Qed.

Lemma get_scalars_none (k : string) (d : context) :
  Dict.get k d = None -> Dict.get k (scalars d) = None.
Proof.
  unfold scalars.
  induction d as [|[k0 v0] d IH]; cbn [Dict.get filter snd]; [reflexivity|].
  destruct (String.eqb k k0) eqn:E; [discriminate|]. intros H.
  destruct (scalar v0); [cbn [Dict.get]; rewrite E|]; now apply IH.
Qed.

Lemma expandable_elements (v : value) :
  expandable v = true -> scalar v = false ->
  elements v <> [] /\ forall x, In x (elements v) -> scalar x = true.
Proof.
  unfold expandable. intros H Hv. rewrite Hv in H. cbn [orb] in H.
  apply andb_prop in H as [Hne Hall]. split.
  - now destruct (elements v).
  - rewrite forallb_forall in Hall. exact Hall.
Qed.

Lemma for_each_acc2 {A B C S : Type} (Inv : S -> Prop) (out1 : S -> list B)
    (out2 : S -> list C) (g1 : A -> list B) (g2 : A -> list C) (l : list A)
    (body : A -> S -> option S) :
  (forall x s, In x l -> Inv s ->
     exists s', body x s = Some s' /\ Inv s' /\
                out1 s' = out1 s ++ g1 x /\ out2 s' = out2 s ++ g2 x) ->
  forall s, Inv s ->
    exists s', for_each l body s = Some s' /\ Inv s' /\
               out1 s' = out1 s ++ flat_map g1 l /\
               out2 s' = out2 s ++ flat_map g2 l.
Proof.
  induction l as [|x l IH]; intros Hb s Hs; cbn [for_each flat_map].
  - exists s. now rewrite !app_nil_r.
  - destruct (Hb x s (or_introl eq_refl) Hs) as (s1 & -> & Hs1 & E1 & F1).
    destruct (IH (fun y t Hy => Hb y t (or_intror Hy)) s1 Hs1)
      as (s2 & E & Hs2 & E2 & F2).
    exists s2. repeat split; [assumption | assumption | |].
    + now rewrite E2, E1, app_assoc.
    + now rewrite F2, F1, app_assoc.
Qed.

Lemma expand_product (f0 : file) (text : string) :
  Str.mem "[" (remaining f0) = false ->
  forall m d,
    length (sequences d) = m -> expansible d ->
    forall fuel (st : state W),
      m + 1 < fuel ->
      exists f' z st',
        expand_values fuel f0 d text st
        = Some (f', Dict.set "n" z (scalars d) ++ sequences d, st') /\
        scalar z = true /\ content f' = content f0 /\
        map (Dict.pop "n") (emitted (trace st'))
        = map (Dict.pop "n") (emitted (trace st))
          ++ map (choice_dict d) (product (given d)) /\
        texts (trace st')
        = texts (trace st)
          ++ map (fun _ => (text ++ Str.chop (remaining f0))%string)
               (product (given d)).
Proof.
  intros Hplain. induction m as [|m IH]; intros d Hm Hx fuel st Hfuel.
  - destruct fuel as [|[|fuel]]; try lia.
    apply length_zero_iff_nil in Hm. pose proof (sequences_none d Hm) as Ha.
    cbn [expand_values]. unfold pop_sequence.
    rewrite (all_scalar_find d Ha). cbn [Str.nonempty].
    destruct (process_plain fuel f0 d text st Hplain) as (f' & st' & E & Hc & He & Ht).
    exists f', (VInt (Z.of_nat (S (file_index st)))), st'.
    destruct (scalars_all d Ha) as [Hs _].
    rewrite Hs, Hm, app_nil_r. split; [exact E|]. split; [reflexivity|].
    split; [exact Hc|].
    rewrite He, Ht, map_app. unfold given, choice_dict. rewrite Hm, Hs.
    cbn [map product combine]. now rewrite app_nil_r.
  - destruct fuel as [|fuel]; [lia|]. cbn [expand_values].
    pose proof Hx as (Hwf & He & (z0 & Hn & Hz0) & Hall).
    destruct (pop_sequence_cases d Hwf)
      as [[Ha _]|(a & k1 & v1 & b & Hd & Ha & Hv1 & Hp)].
    { destruct (scalars_all d Ha) as [_ Hs]. rewrite Hs in Hm. discriminate. }
    rewrite Hp.
    assert (Hin1 : In (k1, v1) d) by (rewrite Hd; apply in_elt).
    pose proof (popped_key_nonempty k1 v1 d He Hin1) as Hk1.
    rewrite Hk1.
    destruct (wf_middle a b k1 v1 (eq_ind _ wf_dict Hwf _ Hd)) as (Hka & Hkb & HwfE).
    assert (Hk1n : k1 <> "n"%string).
    { intros ->. rewrite (get_in "n" v1 d Hwf Hin1) in Hn. congruence. }
    destruct (scalars_all a Ha) as [Hsa Hqa].
    assert (Hseq : sequences d = (k1, v1) :: sequences b).
    { rewrite Hd, sequences_app, Hqa. unfold sequences at 1. cbn [filter snd].
      now rewrite Hv1. }
    assert (Hsca : scalars d = a ++ scalars b).
    { rewrite Hd, scalars_app, Hsa. unfold scalars at 1. cbn [filter snd].
      now rewrite Hv1. }
    destruct (sequences_sequences b) as [Hss1 Hss2].
    set (X := a ++ scalars b) in *. set (S0 := sequences b) in *.
    assert (HXs : all_scalar X = true).
    { unfold X. now rewrite all_scalar_app, Ha, all_scalar_scalars. }
    assert (HnX : Dict.get "n" X = Some z0).
    { rewrite <- Hsca. now apply get_scalars. }
    assert (Hk1X : Dict.get k1 X = None).
    { unfold X. rewrite get_app, Hka. now apply get_scalars_none. }
    assert (Hlen : length S0 = m).
    { rewrite Hseq in Hm. cbn [length] in Hm. lia. }
    assert (Hexp1 : expandable v1 = true).
    { rewrite forallb_forall in Hall. apply (Hall (k1, v1) Hin1). }
    destruct (expandable_elements v1 Hexp1 Hv1) as [Hne Hels].
    set (N := fun (z x : value) => Dict.set "n" z X ++ (k1, x) :: S0).
    assert (HpermX : forall y, Permutation (a ++ (k1, y) :: b) (X ++ (k1, y) :: S0)).
    { intros y. unfold X. rewrite <- app_assoc.
      apply Permutation.Permutation_app_head.
      eapply Permutation.Permutation_trans;
        [|apply Permutation.Permutation_middle].
      constructor. apply partition_perm. }
    assert (Hxa : forall y, expandable y = true -> expansible (a ++ (k1, y) :: b)).
    { intros y Hy. rewrite <- (set_middle k1 v1 y a b Hka), <- Hd.
      now apply expansible_set. }
    assert (HN : forall z x, scalar z = true -> scalar x = true -> expansible (N z x)).
    { intros z x Hz Hsx. unfold N.
      rewrite <- (set_present "n" z X ((k1, x) :: S0)) by congruence.
      apply expansible_set_n; [|assumption].
      apply (expansible_perm _ _ (HpermX x)). apply Hxa.
      unfold expandable. now rewrite Hsx. }
    assert (HNshape : forall z x, scalar z = true -> scalar x = true ->
              scalars (N z x) = Dict.set "n" z X ++ [(k1, x)] /\
              sequences (N z x) = S0).
    { intros z x Hz Hsx. unfold N.
      rewrite scalars_app, sequences_app.
      destruct (scalars_all (Dict.set "n" z X)) as [-> ->];
        [now apply all_scalar_set|].
      unfold scalars at 1, sequences at 1. cbn [filter snd]. rewrite Hsx.
      cbn [negb]. fold (scalars S0). fold (sequences S0).
      rewrite Hss1, Hss2. now split. }
    assert (Hstep : forall x ds (st_s : state W),
              In x (elements v1) ->
              (ds = a ++ b \/ exists z x', scalar z = true /\ scalar x' = true /\ ds = N z x') ->
              exists f' z' st'',
                expand_values fuel f0 (Dict.set k1 x ds) text st_s
                = Some (f', N z' x, st'') /\
                scalar z' = true /\ content f' = content f0 /\
                map (Dict.pop "n") (emitted (trace st''))
                = map (Dict.pop "n") (emitted (trace st_s))
                  ++ map (fun ch => choice_dict d (x :: ch)) (product (given b)) /\
                texts (trace st'')
                = texts (trace st_s)
                  ++ map (fun _ => (text ++ Str.chop (remaining f0))%string)
                       (product (given b))).
    { intros x ds st_s Hx1 Hds. pose proof (Hels x Hx1) as Hsx.
      assert (Hshape : exists Xs,
                scalars (Dict.set k1 x ds) = Xs ++ [(k1, x)] /\
                sequences (Dict.set k1 x ds) = S0 /\
                (forall z', Dict.set "n" z' Xs = Dict.set "n" z' X) /\
                Dict.pop "n" Xs = Dict.pop "n" X /\
                Dict.get "n" Xs <> None /\
                expansible (Dict.set k1 x ds)).
      { destruct Hds as [->|(z & x' & Hz & Hsx' & ->)].
        - exists X. rewrite set_absent by (rewrite get_app, Hka; exact Hkb).
          rewrite !scalars_app, !sequences_app, Hsa, Hqa.
          unfold scalars at 2, sequences at 2. cbn [filter snd]. rewrite Hsx.
          cbn [negb]. rewrite app_nil_r.
          split; [reflexivity|]. split; [reflexivity|].
          split; [reflexivity|]. split; [reflexivity|]. split; [congruence|].
          apply (expansible_perm (a ++ (k1, x) :: b)).
          + rewrite <- app_assoc. apply Permutation.Permutation_app_head.
            apply Permutation.Permutation_cons_append.
          + apply Hxa. unfold expandable. now rewrite Hsx.
        - exists (Dict.set "n" z X). unfold N.
          rewrite set_middle by (rewrite get_set_other; assumption).
          fold (N z x). destruct (HNshape z x Hz Hsx) as [-> ->].
          split; [reflexivity|]. split; [reflexivity|].
          split; [intros z'; apply set_set|].
          split; [apply pop_set; congruence|].
          split; [rewrite get_set_same; discriminate|].
          now apply HN. }
      destruct Hshape as (Xs & Hsc & Hsq & Hset & Hpop & HnXs & Hexp).
      destruct (IH (Dict.set k1 x ds)) with (fuel := fuel) (st := st_s)
        as (f' & z' & st'' & E & Hz' & Hc & Hem & Htx);
        [now rewrite Hsq | exact Hexp | lia |].
      exists f', z', st''.
      split; [|split; [exact Hz'|split; [exact Hc|split]]].
      - rewrite E, Hsc, Hsq, set_present, Hset by assumption.
        unfold N. now rewrite <- app_assoc.
      - rewrite Hem. f_equal. unfold given. rewrite Hsq. fold (given b).
        apply map_ext. intros ch. unfold choice_dict.
        rewrite Hsc, Hsq, Hseq, Hsca, pop_present, Hpop by assumption.
        cbn [map fst combine]. now rewrite <- app_assoc.
      - rewrite Htx. unfold given. now rewrite Hsq. }
    destruct (elements v1) as [|x1 xs] eqn:Eel; [congruence|].
    cbn [for_each].
    destruct (Hstep x1 (a ++ b) st (or_introl eq_refl) (or_introl eq_refl))
      as (f1 & z1 & st1 & E1 & Hz1 & Hc1 & Hem1 & Htx1).
    rewrite E1. cbn [rewind]. rewrite (seek_same f0 f1 Hc1).
    match goal with
    | |- context [@for_each _ ?S ?l ?body ?s0] =>
        destruct (fun H => for_each_acc2
                    (fun s : S => fst (fst s) = f0 /\
                                  exists z x', scalar z = true /\ scalar x' = true /\
                                               snd (fst s) = N z x')
                    (fun s : S => map (Dict.pop "n") (emitted (trace (snd s))))
                    (fun s : S => texts (trace (snd s)))
                    (fun x => map (fun ch => choice_dict d (x :: ch))
                                (product (given b)))
                    (fun _ => map (fun _ => (text ++ Str.chop (remaining f0))%string)
                                (product (given b)))
                    l body H s0)
          as (s' & -> & (Hf' & z' & x' & Hz' & Hsx' & HD') & Hout & Hout2)
    end.
    + intros x [[fa da] sta] Hxin (Hfa & z & x' & Hz & Hsx' & Hda).
      cbn [fst snd] in Hfa, Hda. subst fa da.
      destruct (Hstep x (N z x') sta (or_intror Hxin))
        as (f2 & z2 & st2 & E2 & Hz2 & Hc2 & Hem2 & Htx2).
      { right. now exists z, x'. }
      rewrite E2. cbn [rewind]. rewrite (seek_same f0 f2 Hc2).
      exists (f0, N z2 x, st2). split; [reflexivity|]. split; [|split].
      * split; [reflexivity|]. exists z2, x. repeat split; [assumption|].
        apply Hels. now right.
      * exact Hem2.
      * exact Htx2.
    + split; [reflexivity|]. exists z1, x1. repeat split; [assumption|].
      apply Hels. now left.
    + destruct s' as [[f' d'] st']. cbn [fst snd] in *. subst f' d'.
      exists f0, z', st'.
      split; [|split; [exact Hz'|split; [reflexivity|]]].
      * rewrite Hsca, Hseq. unfold N.
        rewrite set_middle by (rewrite get_set_other; assumption).
        reflexivity.
      * assert (Hg : given d = (x1 :: xs) :: given b).
        { unfold given. rewrite Hseq. cbn [map snd]. now rewrite Eel. }
        rewrite Hg. cbn [product]. rewrite !map_flat_map. cbn [flat_map].
        rewrite Hout, Hem1, Hout2, Htx1, <- !app_assoc. split; f_equal.
        -- f_equal; [now rewrite map_map|].
           apply flat_map_ext. intros x. now rewrite map_map.
        -- f_equal; [now rewrite map_map|].
           apply flat_map_ext. intros x. now rewrite map_map.
Qed.

End ProductFacts.

(** X9.  A dictionary that holds an empty list or an empty tuple under
    some key: [expand_values] returns without calling [process], so no
    file is made and nothing is written, whatever the template; the
    dictionary it leaves holds the same entries, possibly in another
    order; the fuel needed is bounded by the number of sequences in the
    dictionary, nested ones included.  So does [parse], whatever the
    number of repetitions, when the key is not [n]: it returns the empty
    list. *)
Theorem empty_sequence_makes_no_file {W : Type} {Py : Python W} (fuel : nat)
    (f : file) (values : context) (text : string) (st : state W)
    (k : string) (v : value) :
  wf_dict values ->
  Dict.get "" values = None ->
  In (k, v) values ->
  v = VList [] \/ v = VTuple [] ->
  total_weight values < fuel ->
  (exists values',
     expand_values fuel f values text st = Some (f, values', st) /\
     Permutation values' values) /\
  (k <> "n" ->
   forall iname template repeat,
   exists values',
     parse fuel iname template values repeat st
     = Some ([], values', begin_template iname st) /\
     Permutation values' (Dict.set "n" (VInt 0) values)).
Proof.
  intros Hwf He Hin Hv Hw.
  assert (Hv' : scalar v = false /\ elements v = [])
    by (destruct Hv as [->| ->]; now split).
  destruct Hv' as [Hs Hel]. split.
  - apply expand_values_empty; try assumption. now exists k, v.
  - intros Hk iname template repeat. unfold parse.
    set (d0 := Dict.set "n" (VInt 0) values).
    assert (Hwf0 : wf_dict d0) by now apply DictFacts.wf_set.
    assert (He0 : Dict.get "" d0 = None)
      by (unfold d0; now rewrite DictFacts.get_set_other).
    assert (Hin0 : In (k, v) d0).
    { unfold d0. clear -Hin Hk.
      induction values as [|[k0 v0] d IH]; cbn [Dict.set]; [destruct Hin|].
      destruct (String.eqb "n" k0) eqn:E.
      - apply String.eqb_eq in E. subst k0.
        destruct Hin as [H|H]; [inversion H; congruence | now right].
      - destruct Hin as [H|H]; [now left | right; now apply IH]. }
    assert (Hw0 : total_weight d0 < fuel).
    { pose proof (PermFacts.total_weight_set "n" (VInt 0) values) as H0.
      cbn [weight] in H0. unfold d0. lia. }
    match goal with
    | |- context [@for_each _ ?S ?l ?body ?s0] =>
        destruct (fun H => for_each_acc
                    (fun s : S => snd s = begin_template iname st /\
                                  Permutation (fst s) d0)
                    (fun _ => @nil unit) (fun _ => []) l body H s0)
          as ([d' st'] & -> & (Hst' & Hd') & _)
    end.
    + intros x [da sta] _ (Hsta & Hda). cbn [fst snd] in Hsta, Hda. subst sta.
      pose proof (Permutation.Permutation_sym Hda) as Hda'.
      destruct (expand_values_empty fuel da) with (f := open_file template)
        (text := "") (st := begin_template iname st) as (d2 & -> & Hd2).
      * now rewrite (PermFacts.total_weight_perm _ _ Hda).
      * exact (PermFacts.wf_perm _ _ Hda' Hwf0).
      * now rewrite (PermFacts.get_perm "" _ _ (PermFacts.wf_perm _ _ Hda' Hwf0) Hda).
      * exists k, v. split; [|now split].
        apply (Permutation.Permutation_in _ Hda' Hin0).
      * exists (d2, begin_template iname st). repeat split.
        eapply Permutation.Permutation_trans; eassumption.
    + split; [reflexivity | apply Permutation.Permutation_refl].
    + cbn [fst snd] in *. subst st'. exists d'.
      destruct (begin_template_spec iname st) as (_ & _ & Hf). rewrite Hf.
      now split.
Qed.

Lemma empty_sequence_makes_no_file_witness :
  let values := [("n", VInt 0); ("a", VList [VInt 1; VInt 2]); ("x", VList [])] in
  (exists values',
     expand_values 3 (open_file "a=[[ a ]]!") values "" (initial_state tt)
     = Some (open_file "a=[[ a ]]!", values', initial_state tt) /\
     Permutation values' values) /\
  ("x" <> "n" ->
   forall iname template repeat,
   exists values',
     parse 3 iname template values repeat (initial_state tt)
     = Some ([], values', begin_template iname (initial_state tt)) /\
     Permutation values' (Dict.set "n" (VInt 0) values)).
Proof.
  apply (empty_sequence_makes_no_file (Py := Mini.python) 3
           (open_file "a=[[ a ]]!")
           [("n", VInt 0); ("a", VList [VInt 1; VInt 2]); ("x", VList [])] ""
           (initial_state tt) "x" (VList [])).
  - unfold wf_dict. cbn. repeat constructor; cbn; intuition discriminate.
  - reflexivity.
  - cbn. tauto.
  - now left.
  - vm_compute. lia.
Defined.

(** X10.  A template without opening bracket and a dictionary that holds,
    besides scalars, sequences of scalars, lists or tuples, none of them
    empty.  [expand_values] makes one file for each element of the
    cartesian product of the sequences, in lexicographic order, the
    sequence that comes first in the dictionary varying slowest; each file
    is made with the scalars of the dictionary followed by the keys of the
    sequences, each bound to its candidate; the files all hold the text of
    the template less its last character.  The dictionary it leaves holds
    the scalars first and then the sequences: a sequence is put back after
    all the keys that were present when it was taken out. *)
Theorem given_sequences_product {W : Type} {Py : Python W} (fuel : nat)
    (f : file) (values : context) (text : string) (st : state W) :
  expansible values ->
  Str.mem "[" (remaining f) = false ->
  length (sequences values) + 1 < fuel ->
  exists f' z st',
    expand_values fuel f values text st
    = Some (f', (Dict.set "n" z (scalars values) ++ sequences values)%list, st') /\
    map (Dict.pop "n") (emitted (trace st'))
    = (map (Dict.pop "n") (emitted (trace st))
       ++ map (choice_dict values) (product (given values)))%list /\
    texts (trace st')
    = (texts (trace st)
       ++ map (fun _ => (text ++ Str.chop (remaining f))%string)
            (product (given values)))%list.
Proof.
  intros Hx Hplain Hfuel.
  destruct (expand_product f text Hplain (length (sequences values)) values
              eq_refl Hx fuel st Hfuel)
    as (f' & z & st' & E & _ & _ & Hem & Htx).
  exists f', z, st'. now repeat split.
Qed.

Lemma given_sequences_product_witness :
  let values := [("a", VList [VInt 1; VInt 2]); ("n", VInt 0); ("s", VStr "ab");
                 ("b", VTuple [VInt 3; VInt 4])] in
  exists f' z st',
    expand_values 4 (open_file "text.") values "" (initial_state tt)
    = Some (f', (Dict.set "n" z (scalars values) ++ sequences values)%list, st') /\
    map (Dict.pop "n") (emitted (trace st'))
    = [ [("s", VStr "ab"); ("a", VInt 1); ("b", VInt 3)];
        [("s", VStr "ab"); ("a", VInt 1); ("b", VInt 4)];
        [("s", VStr "ab"); ("a", VInt 2); ("b", VInt 3)];
        [("s", VStr "ab"); ("a", VInt 2); ("b", VInt 4)] ] /\
    texts (trace st') = ["text"; "text"; "text"; "text"].
Proof.
  apply (given_sequences_product (Py := Mini.python) 4 (open_file "text.")
           [("a", VList [VInt 1; VInt 2]); ("n", VInt 0); ("s", VStr "ab");
            ("b", VTuple [VInt 3; VInt 4])] "" (initial_state tt)).
  - repeat split; [|now exists (VInt 0)].
    unfold wf_dict. cbn. repeat constructor; cbn; intuition discriminate.
  - reflexivity.
  - vm_compute. lia.
Defined.

Section RepeatFacts.

Context {W : Type} {Py : Python W}.
#[local] Open Scope list_scope.

Lemma flat_map_const {A B : Type} (L : list B) (l : list A) :
  flat_map (fun _ => L) l = concat (repeat L (length l)).
Proof.
  induction l as [|x l IH]; cbn [flat_map length repeat concat]; congruence.
Qed.

End RepeatFacts.

(** X11.  The option REPEAT.  Let every snippet evaluate, in a dictionary
    of scalars, to a scalar or to a list of scalars that is not empty,
    and let the template be made of blocks whose results depend neither
    on the dictionary nor on the state of the interpreter.  Given a
    dictionary of scalars, [parse] with [repeat] passes returns, and makes
    the files of one pass [repeat] times over, one pass after the other:
    [repeat] times the product of the numbers of candidates.  With
    [repeat] at 0 no file is made. *)
Theorem parse_repeats {W : Type} {Py : Python W} (bs : list block)
    (tail : string) (fuel : nat) (iname : string) (values : context)
    (repeat : nat) (st : state W) :
  flat_results Py ->
  Forall fixed_block bs ->
  Str.mem "[" tail = false ->
  all_scalar values = true ->
  length bs + 1 < fuel ->
  let pass := map (fun choice => render bs choice ++ Str.chop tail)
                (product (map (fun b => candidates (result b)) bs)) in
  exists made values' st',
    parse fuel iname (template bs tail) values repeat st
    = Some (made, values', st') /\
    texts (trace st') = (texts (trace st) ++ concat (List.repeat pass repeat))%list /\
    length made
    = repeat * fold_right Nat.mul 1 (map (fun b => length (candidates (result b))) bs).
Proof.
  intros Hflat Hbs Htail Ha Hfuel pass.
  destruct fuel as [|fuel]; [lia|].
  assert (Hpass : forall vs (s : state W),
            all_scalar vs = true ->
            exists f' vs' s',
              expand_values (S fuel) (open_file (template bs tail)) vs "" s
              = Some (f', vs', s') /\
              all_scalar vs' = true /\
              texts (trace s') = (texts (trace s) ++ pass)%list).
  { intros vs s Hvs. cbn [expand_values]. unfold pop_sequence.
    rewrite (all_scalar_find vs Hvs). cbn [Str.nonempty].
    destruct (process_blocks tail bs Hbs Htail fuel (open_file (template bs tail))
                vs "" s) as (f' & vs' & s' & E & _ & Ht); [lia | reflexivity |].
    exists f', vs', s'. split; [exact E|]. split; [|exact Ht].
    exact (process_all_scalar fuel _ vs "" s f' vs' s' Hflat Hvs E). }
  destruct (parse (S fuel) iname (template bs tail) values repeat st)
    as [[[made values'] st']|] eqn:Ep.
  - exists made, values', st'. split; [reflexivity|].
    pose proof (parse_made _ _ _ _ _ _ _ _ _ Ep) as (_ & Hc & _).
    assert (Ht : texts (trace st')
                 = (texts (trace st) ++ concat (List.repeat pass repeat))%list).
    { unfold parse in Ep.
      match type of Ep with
      | context [@for_each _ ?S ?l ?body ?s0] =>
          destruct (fun H => for_each_acc
                      (fun s : S => all_scalar (fst s) = true)
                      (fun s : S => texts (trace (snd s)))
                      (fun _ => pass) l body H s0)
            as ([d2 st2] & Efor & _ & Hout)
      end.
      - intros x [vs s] _ Hvs. cbn [fst] in Hvs.
        destruct (Hpass vs s Hvs) as (f2 & vs2 & s2 & -> & Hvs2 & Ht2).
        exists (vs2, s2). now repeat split.
      - cbn [fst]. apply all_scalar_set; [reflexivity | assumption].
      - rewrite Efor in Ep. inversion Ep; subst. cbn [snd] in Hout.
        rewrite Hout, flat_map_const, length_seq.
        destruct (begin_template_spec iname st) as (_ & -> & _). reflexivity. }
    split; [exact Ht|].
    apply (f_equal (@length string)) in Hc. rewrite length_app, !length_map in Hc.
    apply (f_equal (@length string)) in Ht. unfold texts in Ht.
    rewrite length_app, !length_map in Ht.
    assert (Hl : length (concat (List.repeat pass repeat)) = repeat * length pass).
    { clear. induction repeat as [|r IH]; cbn [List.repeat concat]; [reflexivity|].
      rewrite length_app, IH. lia. }
    assert (Hp : length pass
                 = fold_right Nat.mul 1
                     (map (fun b => length (candidates (result b))) bs)).
    { unfold pass. now rewrite length_map, length_product, map_map. }
    rewrite <- Hp. lia.
  - exfalso. unfold parse in Ep.
    match type of Ep with
    | context [@for_each _ ?S ?l ?body ?s0] =>
        destruct (fun H => for_each_acc
                    (fun s : S => all_scalar (fst s) = true)
                    (fun _ => @nil unit) (fun _ => []) l body H s0)
          as ([d2 st2] & Efor & _)
    end.
    + intros x [vs s] _ Hvs. cbn [fst] in Hvs.
      destruct (Hpass vs s Hvs) as (f2 & vs2 & s2 & -> & Hvs2 & Ht2).
      exists (vs2, s2). now repeat split.
    + cbn [fst]. apply all_scalar_set; [reflexivity | assumption].
    + rewrite Efor in Ep. discriminate.
Qed.

Lemma parse_repeats_witness :
  let pass := map (fun choice => render rate_speed choice ++ Str.chop newline)
                (product (map (fun b => candidates (result b)) rate_speed)) in
  exists made values' st',
    @parse unit (with_eval Mini.python eval_flat) 4 "config.cym.tpl"
      (template rate_speed newline) [("k", VInt 7)] 2 (initial_state tt)
    = Some (made, values', st') /\
    texts (trace st') = concat (List.repeat pass 2) /\
    length made = 2 * 9.
Proof.
  apply (parse_repeats (Py := with_eval Mini.python eval_flat) rate_speed newline 4
           "config.cym.tpl" [("k", VInt 7)] 2 (initial_state tt)).
  - exact eval_flat_results.
  - repeat constructor.
  - reflexivity.
  - reflexivity.
  - cbn. lia.
Defined.

Section MainFacts.

Context {W : Type} {Py : Python W}.
Variable fs : Main.disk.
#[local] Open Scope list_scope.

Lemma quiet_settings (st st' : state W) :
  file_index st' = file_index st -> files_made st' = files_made st ->
  template_name st' = template_name st -> trace st' = trace st ->
  quiet st st'.
Proof. intros H1 H2 H3 H4. unfold quiet. now rewrite H1, H2, H3, H4. Qed.

(** One argument: no file is made; an argument that is not accepted ends
    the run, with the line about the argument or with an exception. *)
Lemma main_arg_quiet (arg : string) (l : Main.locals) (st : state W) :
  match Main.main_arg fs arg l st with
  | inl (_, st') => quiet st st'
  | inr (e, st') =>
      quiet st st' /\
      match e with
      | Main.Returned => False
      | Main.Exited => st' = err_write (Main.msg_unexpected arg) st
      | Main.Uncaught exc =>
          st' = st /\
          ((exc = "IndexError"%string /\ arg = ""%string) \/
           (exc = "ValueError"%string /\
            ((Main.isdigit arg = true /\ Main.int arg = None) \/
             exists rest, arg = String "-" rest /\
                          Main.isdigit rest = true /\ Main.int rest = None)))
      end
  end.
Proof.
  unfold Main.main_arg.
  destruct (Main.isdir fs arg); [now apply quiet_settings|].
  destruct (Main.isfile fs (Main.log l) arg); [apply quiet_refl|].
  destruct (Main.isdigit arg) eqn:Ed.
  { destruct (Main.int arg) eqn:Ei; [apply quiet_refl|].
    split; [apply quiet_refl|]. split; [reflexivity|]. right. now split; [|left]. }
  destruct (String.eqb arg "-"); [apply quiet_refl|].
  destruct (String.eqb arg "+"); [now apply quiet_settings|].
  destruct (String.eqb arg "log"); [apply quiet_refl|].
  destruct arg as [|c rest].
  { split; [apply quiet_refl|]. split; [reflexivity|]. now left. }
  destruct (Ascii.eqb c "-" && Main.isdigit rest) eqn:Em.
  { apply andb_prop in Em as [Ec Er]. apply Ascii.eqb_eq in Ec. subst c.
    destruct (Main.int rest) eqn:Ei; [now apply quiet_settings|].
    split; [apply quiet_refl|]. split; [reflexivity|]. right.
    split; [reflexivity|]. right. now exists rest. }
  destruct (try_assignment (String c rest)) as [k v].
  destruct (Str.nonempty k).
  - pose proof (quiet_evaluate v (Main.values l) st) as Hq.
    destruct (evaluate v (Main.values l) st) as [res st2]. exact Hq.
  - split; [apply quiet_err_write | reflexivity].
Qed.

Lemma main_args_quiet (args : list string) :
  forall (l : Main.locals) (st : state W),
    match Main.main_args fs args l st with
    | inl (_, st') => quiet st st'
    | inr (e, st') =>
        quiet st st' /\
        match e with
        | Main.Returned => False
        | Main.Exited =>
            exists arg st0, In arg args /\ st' = err_write (Main.msg_unexpected arg) st0
        | Main.Uncaught exc =>
            exists arg, In arg args /\
              ((exc = "IndexError"%string /\ arg = ""%string) \/
               (exc = "ValueError"%string /\
                ((Main.isdigit arg = true /\ Main.int arg = None) \/
                 exists rest, arg = String "-" rest /\
                              Main.isdigit rest = true /\ Main.int rest = None)))
        end
    end.
Proof.
  induction args as [|arg args IH]; intros l st; cbn [Main.main_args].
  - apply quiet_refl.
  - pose proof (main_arg_quiet arg l st) as H1.
    destruct (Main.main_arg fs arg l st) as [[l1 st1]|[e st1]].
    + specialize (IH l1 st1).
      destruct (Main.main_args fs args l1 st1) as [[l2 st2]|[e st2]].
      * eapply quiet_trans; eassumption.
      * destruct IH as [Hq He]. split; [eapply quiet_trans; eassumption|].
        destruct e as [| |exc]; [assumption| |].
        -- destruct He as (a & st0 & Ha & ->). exists a, st0. split; [now right | reflexivity].
        -- destruct He as (a & Ha & Hc). exists a. split; [now right | assumption].
    + destruct H1 as [Hq He]. split; [assumption|].
      destruct e as [| |exc]; [assumption| |].
      * exists arg, st. split; [now left | assumption].
      * destruct He as [_ Hc]. exists arg. split; [now left | assumption].
Qed.

Lemma main_args_no_file (args : list string) :
  (forall b arg, In arg args -> Main.isfile fs b arg = false) ->
  forall (l l' : Main.locals) (st st' : state W),
    Main.main_args fs args l st = inl (l', st') ->
    Main.inputs l' = Main.inputs l.
Proof.
  induction args as [|arg args IH]; intros Hf l l' st st' E; cbn [Main.main_args] in E.
  - now inversion E.
  - destruct (Main.main_arg fs arg l st) as [[l1 st1]|[e st1]] eqn:E1; [|discriminate].
    rewrite (IH (fun b a Ha => Hf b a (or_intror Ha)) l1 l' st1 st' E).
    clear -E1 Hf. unfold Main.main_arg in E1.
    rewrite (Hf (Main.log l) arg (or_introl eq_refl)) in E1.
    repeat match type of E1 with
           | (if ?c then _ else _) = _ => destruct c
           | match ?c with _ => _ end = _ => destruct c
           | (let '(_, _) := ?c in _) = _ => destruct c
           end; inversion E1; reflexivity.
Qed.

(** [verbose] is turned off by [-] and by [+] only. *)
Lemma main_arg_verbose (arg : string) (l l' : Main.locals) (st st' : state W) :
  Main.main_arg fs arg l st = inl (l', st') ->
  Main.verbose l' = Main.verbose l \/
  (Main.verbose l' = false /\ (arg = "-"%string \/ arg = "+"%string)).
Proof.
  unfold Main.main_arg. intros E.
  destruct (Main.isdir fs arg); [inversion E; now left|].
  destruct (Main.isfile fs (Main.log l) arg); [inversion E; now left|].
  destruct (Main.isdigit arg).
  { destruct (Main.int arg); inversion E; now left. }
  destruct (String.eqb arg "-") eqn:Em.
  { apply String.eqb_eq in Em. inversion E. right. split; [reflexivity | now left]. }
  destruct (String.eqb arg "+") eqn:Ep.
  { apply String.eqb_eq in Ep. inversion E. right. split; [reflexivity | now right]. }
  destruct (String.eqb arg "log"); [inversion E; now left|].
  destruct arg as [|c rest]; [discriminate|].
  destruct (Ascii.eqb c "-" && Main.isdigit rest).
  { destruct (Main.int rest); inversion E; now left. }
  destruct (try_assignment (String c rest)) as [k v].
  destruct (Str.nonempty k); [|discriminate].
  destruct (evaluate v (Main.values l) st) as [res st2]. inversion E. now left.
Qed.

Lemma main_args_verbose (args : list string) :
  forall (l l' : Main.locals) (st st' : state W),
    Main.main_args fs args l st = inl (l', st') ->
    Main.verbose l' = false ->
    Main.verbose l = false \/ In "-"%string args \/ In "+"%string args.
Proof.
  induction args as [|arg args IH]; intros l l' st st' E Hv; cbn [Main.main_args] in E.
  - inversion E; subst. now left.
  - destruct (Main.main_arg fs arg l st) as [[l1 st1]|[e st1]] eqn:E1; [|discriminate].
    destruct (IH l1 l' st1 st' E Hv) as [H1|[Hm|Hp]].
    + destruct (main_arg_verbose arg l l1 st st1 E1) as [Hk|[_ [->| ->]]].
      * left. congruence.
      * right. left. now left.
      * right. right. now left.
    + right. left. now right.
    + right. right. now right.
Qed.

End MainFacts.

(** X12.  [main] reads all its arguments before the first template.
    When an argument ends the run, by [sys.exit()] or by an exception,
    wherever it stands among the others, no file has been made and no
    name printed.  With [sys.exit()] the last thing written is the line
    about that argument.  An exception is [IndexError], from an empty
    argument, or [ValueError], from a repeat count or a width written
    with superscript digits, which [isdigit] accepts and [int] refuses. *)
Theorem main_stops_before_any_file {W : Type} {Py : Python W} (fs : Main.disk)
    (fuel : nat) (args : list string) (st : state W)
    (e : Main.ending) (st' : state W) :
  Main.main_args fs args Main.start st = inr (e, st') ->
  Main.main fs fuel args st = Some (e, [], st') /\
  e <> Main.Returned /\
  created (trace st') = created (trace st) /\
  files_made st' = files_made st /\
  match e with
  | Main.Returned => False
  | Main.Exited =>
      exists tr arg,
        In arg args /\
        trace st' = (tr ++ [ErrLine (Main.msg_unexpected arg)])%list
  | Main.Uncaught exc =>
      exists arg, In arg args /\
        ((exc = "IndexError" /\ arg = "") \/
         (exc = "ValueError" /\
          ((Main.isdigit arg = true /\ Main.int arg = None) \/
           exists rest, arg = String "-" rest /\
                        Main.isdigit rest = true /\ Main.int rest = None)))
  end.
Proof.
  intros Ea. unfold Main.main. rewrite Ea.
  pose proof (main_args_quiet fs args Main.start st) as Hq. rewrite Ea in Hq.
  destruct Hq as [(_ & Hf & _ & Hc & _) He].
  split; [reflexivity|].
  split; [intros ->; exact He|].
  split; [assumption|]. split; [assumption|].
  destruct e as [| |exc]; [assumption| |assumption].
  destruct He as (arg & st0 & Ha & ->).
  exists (trace st0), arg. now split.
Qed.

(** X13.  Without an argument that names a file, [main] ends before
    reading any template, for every amount of fuel, and does not return:
    no file is made. *)
Theorem main_needs_a_template {W : Type} {Py : Python W} (fs : Main.disk)
    (fuel : nat) (args : list string) (st : state W) :
  (forall b arg, In arg args -> Main.isfile fs b arg = false) ->
  exists e st',
    Main.main fs fuel args st = Some (e, [], st') /\
    e <> Main.Returned /\
    created (trace st') = created (trace st).
Proof.
  intros Hf. unfold Main.main.
  pose proof (main_args_quiet fs args Main.start st) as Hq.
  pose proof (main_args_no_file fs args Hf Main.start) as Hi.
  destruct (Main.main_args fs args Main.start st) as [[l st1]|[e1 st1]] eqn:Ea.
  - rewrite (Hi l st st1 Ea). cbn [Main.inputs Main.start].
    exists Main.Exited, (err_write Main.msg_no_input st1).
    split; [reflexivity|]. split; [discriminate|].
    now pose proof (quiet_trans _ _ _ Hq (quiet_err_write Main.msg_no_input st1))
      as (_ & _ & _ & Hc & _).
  - exists e1, st1. destruct Hq as [(_ & _ & _ & Hc & _) He].
    split; [reflexivity|]. split; [|assumption].
    intros ->. exact He.
Qed.

(** X14.  When [main] returns, the names it has printed are, in order,
    the names of the files it has made, or else it has printed nothing;
    the second happens only if [-] or [+] is among the arguments. *)
Theorem main_prints_the_files_made {W : Type} {Py : Python W} (fs : Main.disk)
    (fuel : nat) (args : list string) (st : state W)
    (printed : list string) (st' : state W) :
  Main.main fs fuel args st = Some (Main.Returned, printed, st') ->
  exists new,
    map fst (created (trace st')) = (map fst (created (trace st)) ++ new)%list /\
    (printed = new \/ (printed = [] /\ (In "-" args \/ In "+" args))).
Proof.
  unfold Main.main. intros E.
  pose proof (main_args_quiet fs args Main.start st) as Hq.
  destruct (Main.main_args fs args Main.start st) as [[l st1]|[e1 st1]] eqn:Ea;
    [|inversion E; subst; now destruct Hq].
  pose proof (main_args_verbose fs args Main.start l st st1 Ea) as Hv.
  destruct Hq as (_ & _ & _ & Hc & _).
  destruct (Main.inputs l) as [|i rest] eqn:Ei; [discriminate|]. rewrite <- Ei in E.
  destruct (for_each _ _ _) as [[[vs st2] pr]|] eqn:Efor in E; [|discriminate].
  inversion E; subst; clear E.
  apply (for_each_inv
           (fun s : context * state W * list string =>
              exists new,
                map fst (created (trace (snd (fst s))))
                = (map fst (created (trace st)) ++ new)%list /\
                snd s = if Main.verbose l then new else []))
    with (s := (Main.values l, st1, [])) (s' := (vs, st', printed)) in Efor.
  - destruct Efor as (new & Hn & Hp). cbn [fst snd] in *.
    exists new. split; [exact Hn|].
    destruct (Main.verbose l); [now left|]. right. split; [exact Hp|].
    destruct (Hv eq_refl) as [H0|H0]; [discriminate H0 | exact H0].
  - intros x [[vsa sta] pa] [[vsb stb] pb] _ (new & Hn & Hp) Eb. cbn [fst snd] in *.
    destruct (parse fuel x _ vsa (Main.repeat l) sta) as [[[res vsc] stc]|] eqn:Ep;
      [|discriminate].
    inversion Eb; subst; clear Eb.
    destruct (parse_made _ _ _ _ _ _ _ _ _ Ep) as (_ & Hcr & _).
    exists (new ++ res)%list. rewrite Hcr, Hn, app_assoc.
    split; [reflexivity|]. now destruct (Main.verbose l).
  - exists []. cbn [fst snd]. rewrite Hc, app_nil_r.
    split; [reflexivity|]. now destruct (Main.verbose l).
Qed.

Lemma main_stops_before_any_file_witness :
  let args := ["config.cym.tpl"; "x=1"; "bogus"] in
  exists st',
    Main.main_args one_template args Main.start (initial_state tt)
    = inr (Main.Exited, st') /\
    Main.main one_template 5 args (initial_state tt)
    = Some (Main.Exited, [], st') /\
    Main.Exited <> Main.Returned /\
    created (trace st') = [] /\
    files_made st' = [] /\
    exists tr arg,
      In arg args /\
      trace st' = (tr ++ [ErrLine (Main.msg_unexpected arg)])%list.
Proof.
  intros args.
  destruct (Main.main_args one_template args Main.start (initial_state tt))
    as [[l st1]|[e st']] eqn:Ea; [discriminate Ea|].
  assert (He : e = Main.Exited) by (vm_compute in Ea; congruence).
  subst e. exists st'. split; [reflexivity|].
  exact (main_stops_before_any_file (Py := Mini.python) one_template 5 args
           (initial_state tt) Main.Exited st' Ea).
Defined.

Lemma main_needs_a_template_witness :
  exists e st',
    Main.main one_template 0 ["out"; "3"; "x=1"] (initial_state tt)
    = Some (e, [], st') /\
    e <> Main.Returned /\
    created (trace st') = created (trace (initial_state tt)).
Proof.
  apply (main_needs_a_template (Py := Mini.python) one_template 0
           ["out"; "3"; "x=1"] (initial_state tt)).
  intros b arg [<-|[<-|[<-|[]]]]; reflexivity.
Defined.

Lemma main_prints_the_files_made_witness :
  exists printed st',
    Main.main one_template 5 ["-3"; "out"; "config.cym.tpl"] (initial_state tt)
    = Some (Main.Returned, printed, st') /\
    printed = ["out/config000.cym"; "out/config001.cym"] /\
    exists new,
      map fst (created (trace st')) = new /\
      (printed = new \/
       (printed = [] /\
        (In "-" ["-3"; "out"; "config.cym.tpl"] \/
         In "+" ["-3"; "out"; "config.cym.tpl"]))).
Proof.
  eexists _, _. split; [vm_compute; reflexivity|]. split; [reflexivity|].
  apply (main_prints_the_files_made (Py := Mini.python) one_template 5
           ["-3"; "out"; "config.cym.tpl"] (initial_state tt)).
  vm_compute; reflexivity.
Defined.

Section LastChoice.

Context {W : Type} {Py : Python W}.
#[local] Open Scope list_scope.

(** When [process] returns, the dictionary is the one its last file was
    made with, [n] apart. *)
Lemma process_returns_last (fuel : nat) (f : file) (values : context)
    (text : string) (st : state W) (f' : file) (values' : context)
    (st' : state W) :
  process fuel f values text st = Some (f', values', st') ->
  exists c, last (emitted (trace st')) [] = c /\
            emitted (trace st') <> [] /\
            values' = Dict.set "n" (VInt (Z.of_nat (file_index st'))) c.
Proof.
  intros E.
  refine (process_hoare
            (fun _ _ => True)
            (fun vs s => exists c, last (emitted (trace s)) [] = c /\
                                   emitted (trace s) <> [] /\
                                   vs = Dict.set "n" (VInt (Z.of_nat (file_index s))) c)
            (fun _ => True)
            _ _ _ _ _ fuel f values text st f' values' st' I E); try (intros; exact I).
  - intros e vs s _. apply Forall_forall. intros; exact I.
  - intros t vs s _.
    destruct (make_file_spec t vs s) as (Hi & _ & _ & He & Hv).
    exists vs. rewrite He, Hv, Hi, last_last.
    repeat split. now destruct (emitted (trace s)).
Qed.

Lemma product_nonempty {A : Type} (ls : list (list A)) :
  Forall (fun l => l <> []) ls -> product ls <> [].
Proof.
  induction 1 as [|l ls Hl _ IH]; cbn [product]; [discriminate|].
  destruct l as [|x l]; [congruence|]. cbn [flat_map].
  destruct (product ls); [congruence | discriminate].
Qed.

Lemma last_app_nonempty {A : Type} (l1 l2 : list A) (d : A) :
  l2 <> [] -> last (l1 ++ l2) d = last l2 d.
Proof.
  intros H. induction l1 as [|x l1 IH]; [reflexivity|].
  cbn [app]. destruct (l1 ++ l2) eqn:E; [|exact IH].
  apply app_eq_nil in E as [_ E]. congruence.
Qed.

Lemma last_default {A : Type} (l : list A) (d d' : A) :
  l <> [] -> last l d = last l d'.
Proof.
  induction l as [|x l IH]; [congruence|]. intros _.
  destruct l as [|y l]; [reflexivity|]. apply IH. discriminate.
Qed.

Lemma last_map {A B : Type} (h : A -> B) (l : list A) (d : A) (d' : B) :
  l <> [] -> last (map h l) d' = h (last l d).
Proof.
  induction l as [|x l IH]; [congruence|]. intros _.
  destruct l as [|y l]; [reflexivity|]. apply IH. discriminate.
Qed.

Lemma last_flat_map {A B : Type} (g : A -> list B) (l : list A) (d : B) (a : A) :
  l <> [] -> (forall x, g x <> []) ->
  last (flat_map g l) d = last (g (last l a)) d.
Proof.
  intros Hl Hg. induction l as [|x l IH]; [congruence|].
  cbn [flat_map]. destruct l as [|y l].
  - cbn [flat_map last]. now rewrite app_nil_r.
  - rewrite last_app_nonempty.
    + apply IH. discriminate.
    + cbn [flat_map]. specialize (Hg y). destruct (g y); [congruence | discriminate].
Qed.

Lemma last_product {A : Type} (ls : list (list A)) (a : A) :
  Forall (fun l => l <> []) ls ->
  last (product ls) [] = map (fun l => last l a) ls.
Proof.
  induction 1 as [|l ls Hl Hls IH]; [reflexivity|].
  cbn [product map].
  pose proof (product_nonempty ls Hls) as Hp.
  rewrite (last_flat_map _ l [] a Hl).
  - rewrite (last_map (cons (last l a)) (product ls) [] []) by assumption.
    now rewrite IH.
  - intros x. destruct (product ls); [congruence | discriminate].
Qed.

Lemma Forall2_last {A B : Type} (R : A -> B -> Prop) (l : list A) (l' : list B)
    (d : A) (d' : B) :
  Forall2 R l l' -> l' <> [] -> l <> [] /\ R (last l d) (last l' d').
Proof.
  induction 1 as [|x y l l' Hxy Hl IH]; [congruence|]. intros _.
  split; [discriminate|]. destruct Hl as [|x2 y2 l l' H2 Hl]; [exact Hxy|].
  apply IH. discriminate.
Qed.

Lemma candidates_last (v : value) :
  candidates v <> [] /\ last (candidates v) (VInt 0) = tail_of v.
Proof.
  rewrite candidates_forks. split.
  - destruct (forks v); discriminate.
  - apply last_last.
Qed.

End LastChoice.

(** X15.  What a template leaves in the dictionary.  For a template made
    of blocks whose results do not depend on the dictionary, [process]
    returns with every name bound to the last candidate of the last block
    that assigns to it: the dictionary of the last file made, in which
    only [n] has changed since.  [main] hands that dictionary to the next
    template. *)
Theorem process_leaves_last_choice {W : Type} {Py : Python W}
    (bs : list block) (tail : string) (fuel : nat) (f : file)
    (values : context) (text : string) (st : state W)
    (f' : file) (values' : context) (st' : state W) :
  Forall fixed_block bs ->
  Str.mem "[" tail = false ->
  remaining f = template bs tail ->
  process fuel f values text st = Some (f', values', st') ->
  same_off_n values'
    (assign (bindings bs (map (fun b => tail_of (result b)) bs)) values) /\
  values' = Dict.set "n" (VInt (Z.of_nat (file_index st')))
              (last (emitted (trace st')) []).
Proof.
  intros Hbs Htail Hr E.
  destruct (process_returns_last fuel f values text st f' values' st' E)
    as (c & Hc & Hne & Hv).
  split; [|now rewrite Hc].
  destruct (process_blocks_dict tail bs Hbs Htail fuel f values text st f' values' st'
              Hr E) as (_ & (cs & He & HF) & _).
  assert (Hcand : Forall (fun l : list value => l <> [])
                    (map (fun b => candidates (result b)) bs)).
  { apply Forall_forall. intros l Hin. apply in_map_iff in Hin as (b & <- & _).
    apply candidates_last. }
  destruct (Forall2_last _ cs _ [] [] HF (product_nonempty _ Hcand)) as [Hcs HR].
  rewrite (last_product _ (VInt 0) Hcand), map_map in HR.
  rewrite He, last_app_nonempty in Hc by assumption. rewrite Hc in HR.
  assert (Hm : map (fun b => last (candidates (result b)) (VInt 0)) bs
               = map (fun b => tail_of (result b)) bs).
  { apply map_ext. intros b. apply candidates_last. }
  rewrite Hm in HR. intros k Hk. rewrite Hv, <- (HR k Hk).
  now apply DictFacts.get_set_other.
Qed.

Lemma process_leaves_last_choice_witness :
  let bs :=
    [ {| lead := ""; body := " x = [1, 2] "; result := VList [VInt 1; VInt 2] |};
      {| lead := "v="; body := " [7, 8] "; result := VList [VInt 7; VInt 8] |} ] in
  exists f' values' st',
    process 3 (open_file (template bs "!")) [("x", VInt 0)] "" (initial_state tt)
    = Some (f', values', st') /\
    Dict.get "x" values' = Some (VInt 2) /\
    same_off_n values'
      (assign (bindings bs (map (fun b => tail_of (result b)) bs)) [("x", VInt 0)]) /\
    values' = Dict.set "n" (VInt (Z.of_nat (file_index st')))
                (last (emitted (trace st')) []).
Proof.
  intros bs. ran. split; [reflexivity|].
  eapply (process_leaves_last_choice (Py := Mini.python) bs "!" 3
            (open_file (template bs "!")) [("x", VInt 0)] "" (initial_state tt)).
  - repeat constructor.
  - reflexivity.
  - reflexivity.
  - vm_compute; reflexivity.
Defined.

Section AssignFacts.
Import Str.

Lemma partition_cases (sep : ascii) (s k e v : string) :
  partition sep s = (k, e, v) ->
  (mem sep s = false /\ k = s /\ e = "" /\ v = "") \/
  (e = String sep "" /\ s = k ++ String sep v /\ mem sep k = false).
Proof.
  revert k e v. induction s as [|c s IH]; intros k e v; cbn [partition mem].
  - intros H. inversion H. now left.
  - destruct (Ascii.eqb c sep) eqn:Ec.
    + intros H. inversion H; subst. apply Ascii.eqb_eq in Ec. subst c.
      right. now repeat split.
    + destruct (partition sep s) as [[k1 e1] v1]. intros H. inversion H; subst.
      rewrite Ascii.eqb_sym, Ec. cbn [orb mem].
      destruct (IH k1 e v eq_refl) as [(Hm & -> & -> & ->)|(-> & -> & Hm)].
      * left. now repeat split.
      * right. now rewrite Ascii.eqb_sym, Ec.
Qed.

Lemma mem_lstrip (c : ascii) (s : string) :
  mem c s = false -> mem c (lstrip s) = false.
Proof.
  induction s as [|d s IH]; cbn [lstrip mem]; [reflexivity|].
  intros H. destruct (is_space d); [|exact H].
  apply orb_false_elim in H as [_ H]. now apply IH.
Qed.

Lemma mem_rstrip (c : ascii) (s : string) :
  mem c s = false -> mem c (rstrip s) = false.
Proof.
  induction s as [|d s IH]; cbn [rstrip mem]; [reflexivity|].
  intros H. apply orb_false_elim in H as [Hd H]. specialize (IH H).
  destruct (rstrip s) eqn:E.
  - destruct (is_space d); cbn [mem]; [reflexivity | now rewrite Hd].
  - cbn [mem] in *. now rewrite Hd, IH.
Qed.

End AssignFacts.

(** X16.  What [try_assignment] returns, for any content of a block or
    any argument.  The name never holds [=].  Either there is no name and
    the code is the whole content, or the content is a part without [=]
    and a part, neither of them empty, with [=] between them: the name is
    the first part stripped, which may leave it empty, and the code the
    second part stripped. *)
Theorem try_assignment_reads_back (cmd k v : string) :
  try_assignment cmd = (k, v) ->
  Str.mem "=" k = false /\
  ((k = "" /\ v = cmd) \/
   exists k0 v0,
     cmd = k0 ++ "=" ++ v0 /\ Str.mem "=" k0 = false /\
     k0 <> "" /\ v0 <> "" /\
     k = Str.strip k0 /\ v = Str.strip v0).
Proof.
  unfold try_assignment.
  destruct (Str.partition "=" cmd) as [[k0 e] v0] eqn:Ep.
  apply partition_cases in Ep.
  destruct (Str.nonempty k0 && Str.nonempty v0 && String.eqb e "=") eqn:Ec;
    intros H; inversion H; subst; clear H.
  - apply andb_prop in Ec as [Ec Ee]. apply andb_prop in Ec as [Ek Ev].
    apply String.eqb_eq in Ee. subst e.
    destruct Ep as [(_ & _ & He & _)|(_ & Hs & Hm)]; [discriminate|].
    split; [now apply mem_rstrip, mem_lstrip|].
    right. exists k0, v0.
    repeat split; try assumption; intros ->; discriminate.
  - split; [reflexivity | now left].
Qed.

Lemma try_assignment_reads_back_witness :
  Str.mem "=" "rate" = false /\
  (("rate" = "" /\ "[1, 2]" = " rate = [1, 2] ") \/
   exists k0 v0,
     " rate = [1, 2] " = k0 ++ "=" ++ v0 /\ Str.mem "=" k0 = false /\
     k0 <> "" /\ v0 <> "" /\
     "rate" = Str.strip k0 /\ "[1, 2]" = Str.strip v0).
Proof.
  apply (try_assignment_reads_back " rate = [1, 2] " "rate" "[1, 2]").
  reflexivity.
Defined.

Section ExtractFacts.
Import Str StrFacts.

Lemma geb_2_false (d : Z) : (d < 2)%Z -> (d >=? 2)%Z = false.
Proof. intros H. rewrite Z.geb_leb. apply Z.leb_gt. lia. Qed.

Lemma geb_2_true (d : Z) : (2 <= d)%Z -> (d >=? 2)%Z = true.
Proof. intros H. rewrite Z.geb_leb. apply Z.leb_le. lia. Qed.

Lemma run_app (a b : string) (s : Extract.scanner) :
  Extract.run (a ++ b) s = Extract.run b (Extract.run a s).
Proof. revert s. induction a as [|c a IH]; intros s; cbn; auto. Qed.

(** Plain text, outside of any block. *)
Lemma run_plain (p : string) :
  forall al l d,
    plain p = true -> (d < 2)%Z ->
    Extract.run p {| Extract.all := al; Extract.res := ""; Extract.line := l;
                     Extract.depth := d |}
    = {| Extract.all := al; Extract.res := ""; Extract.line := l + newlines p;
         Extract.depth := d |}.
Proof.
  induction p as [|c p IH]; intros al l d Hp Hd.
  - cbn. now rewrite Nat.add_0_r.
  - apply plain_cons in Hp as (Ho & Hc & Hp).
    cbn [Extract.run newlines]. unfold Extract.step. rewrite Ho, Hc.
    cbn [Extract.depth Extract.res Extract.all Extract.line].
    rewrite (geb_2_false d Hd).
    destruct (Ascii.eqb c (ascii_of_nat 10));
      cbn [Extract.depth Extract.res Extract.all Extract.line];
      rewrite IH by assumption; f_equal; lia.
Qed.

(** Inside a block, [d] inner brackets being open. *)
Lemma run_body (body : string) :
  forall d al r l,
    nested d body = true ->
    Extract.run body {| Extract.all := al; Extract.res := r; Extract.line := l;
                        Extract.depth := 2 + Z.of_nat d |}
    = {| Extract.all := al; Extract.res := r ++ body;
         Extract.line := l + newlines body; Extract.depth := 2 |}.
Proof.
  induction body as [|c body IH]; intros d al r l Hn.
  - cbn [nested] in Hn. apply Nat.eqb_eq in Hn. subst d.
    cbn. now rewrite app_nil_r, Nat.add_0_r.
  - cbn [nested] in Hn. cbn [Extract.run newlines]. unfold Extract.step.
    destruct (Ascii.eqb c "[") eqn:Ho.
    + apply Ascii.eqb_eq in Ho. subst c.
      change (Ascii.eqb "[" "]") with false.
      change (Ascii.eqb "[" (ascii_of_nat 10)) with false.
      cbn [Extract.depth Extract.res Extract.all Extract.line].
      rewrite (geb_2_true (2 + Z.of_nat d)) by lia.
      cbn [Extract.depth Extract.res Extract.all Extract.line].
      replace (2 + Z.of_nat d + 1)%Z with (2 + Z.of_nat (S d))%Z by lia.
      rewrite IH by assumption. now rewrite snoc_app.
    + destruct (Ascii.eqb c "]") eqn:Hc.
      * apply Ascii.eqb_eq in Hc. subst c. destruct d as [|d]; [discriminate|].
        change (Ascii.eqb "]" (ascii_of_nat 10)) with false.
        cbn [Extract.depth Extract.res Extract.all Extract.line].
        replace ((2 + Z.of_nat (S d) =? 2)%Z) with false
          by (symmetry; apply Z.eqb_neq; lia).
        cbn [andb Extract.depth Extract.res Extract.all Extract.line].
        replace (2 + Z.of_nat (S d) - 1)%Z with (2 + Z.of_nat d)%Z by lia.
        rewrite (geb_2_true (2 + Z.of_nat d)) by lia.
        cbn [Extract.depth Extract.res Extract.all Extract.line].
        rewrite IH by assumption. now rewrite snoc_app.
      * cbn [Extract.depth Extract.res Extract.all Extract.line].
        rewrite (geb_2_true (2 + Z.of_nat d)) by lia.
        destruct (Ascii.eqb c (ascii_of_nat 10));
          cbn [Extract.depth Extract.res Extract.all Extract.line];
          rewrite IH by assumption; rewrite snoc_app; f_equal; lia.
Qed.

Lemma step_open (al : list (string * nat)) (l : nat) (d : Z) :
  (d < 2)%Z ->
  Extract.step {| Extract.all := al; Extract.res := ""; Extract.line := l;
                  Extract.depth := d |} "["
  = {| Extract.all := al; Extract.res := ""; Extract.line := l;
       Extract.depth := (d + 1)%Z |}.
Proof.
  intros Hd. unfold Extract.step.
  change (Ascii.eqb "[" "]") with false. change (Ascii.eqb "[" "[") with true.
  change (Ascii.eqb "[" (ascii_of_nat 10)) with false.
  cbn [Extract.depth Extract.res Extract.all Extract.line].
  now rewrite (geb_2_false d Hd).
Qed.

Lemma step_close_block (al : list (string * nat)) (r : string) (l : nat) :
  nonempty r = true ->
  Extract.step {| Extract.all := al; Extract.res := r; Extract.line := l;
                  Extract.depth := 2 |} "]"
  = {| Extract.all := (al ++ [(r, l)])%list; Extract.res := "";
       Extract.line := l; Extract.depth := 1 |}.
Proof.
  intros Hr. unfold Extract.step.
  change (Ascii.eqb "]" "]") with true. change (Ascii.eqb "]" "[") with false.
  change (Ascii.eqb "]" (ascii_of_nat 10)) with false.
  cbn [Extract.depth Extract.res Extract.all Extract.line].
  change ((2 =? 2)%Z) with true. rewrite Hr.
  cbn [andb Extract.depth Extract.res Extract.all Extract.line].
  reflexivity.
Qed.

Lemma step_close_outer (al : list (string * nat)) (l : nat) :
  Extract.step {| Extract.all := al; Extract.res := ""; Extract.line := l;
                  Extract.depth := 1 |} "]"
  = {| Extract.all := al; Extract.res := ""; Extract.line := l;
       Extract.depth := 0 |}.
Proof. reflexivity. Qed.

Lemma run_template (tail : string) (bs : list block) :
  Forall (fun b => plain (lead b) = true /\ nested 0 (body b) = true /\
                   body b <> "") bs ->
  plain tail = true ->
  forall al l,
    Extract.all
      (Extract.run (template bs tail)
         {| Extract.all := al; Extract.res := ""; Extract.line := l;
            Extract.depth := 0 |})
    = (al ++ located l bs)%list.
Proof.
  intros Hbs Htail. induction Hbs as [|b bs (Hl & Hb & Hne) _ IH]; intros al l.
  - cbn [template located]. rewrite run_plain by (assumption || lia).
    cbn [Extract.all]. now rewrite List.app_nil_r.
  - cbn [template located].
    rewrite run_app, run_plain by (assumption || lia).
    change ("[[" ++ body b ++ "]]" ++ template bs tail)
      with (String "[" (String "[" (body b ++ "]]" ++ template bs tail))).
    cbn [Extract.run]. rewrite !step_open by lia.
    change (0 + 1 + 1)%Z with (2 + Z.of_nat 0)%Z.
    rewrite run_app, (run_body (body b) 0) by assumption.
    change ("]]" ++ template bs tail)
      with (String "]" (String "]" (template bs tail))).
    cbn [Extract.run append].
    rewrite step_close_block by (now destruct (body b)).
    rewrite step_close_outer, IH, <- List.app_assoc. reflexivity.
Qed.

End ExtractFacts.

(** X17.  [extract_bracketed.process] on a template that is well formed
    for [preconfig]: plain text, then blocks whose code has matching
    brackets and is not empty, each after plain text.  It lists the code
    of the blocks, in order, exactly as [preconfig] takes it from between
    the double brackets, each with the number of the line where the block
    ends. *)
Theorem extract_lists_the_blocks (bs : list block) (tail : string) :
  Forall (fun b => plain (lead b) = true /\ nested 0 (body b) = true /\
                   body b <> "") bs ->
  plain tail = true ->
  Extract.process (template bs tail) = located 1 bs /\
  map fst (Extract.process (template bs tail))
  = map (fun b => Str.slice_2_m2 ("[[" ++ body b ++ "]]")) bs.
Proof.
  intros Hbs Htail. unfold Extract.process.
  rewrite (run_template tail bs Hbs Htail [] 1). cbn [app].
  split; [reflexivity|].
  generalize 1. induction bs as [|b bs IH]; intros l; [reflexivity|].
  cbn [located map fst]. inversion Hbs; subst.
  rewrite StrFacts.slice_block. f_equal. now apply IH.
Qed.

Lemma extract_lists_the_blocks_witness :
  Extract.process (template rate_speed newline)
  = [(" [1, 10, 100] ", 1); (" [-1, 0, 1] ", 2)] /\
  map fst (Extract.process (template rate_speed newline))
  = map (fun b => Str.slice_2_m2 ("[[" ++ body b ++ "]]")) rate_speed.
Proof.
  apply (extract_lists_the_blocks rate_speed newline).
  - repeat constructor; discriminate.
  - reflexivity.
Defined.

Section AssembleFacts.

Lemma newlines_app (a b : string) : newlines (a ++ b) = newlines a + newlines b.
Proof.
  induction a as [|c a IH]; [reflexivity|]. cbn [append newlines].
  destruct (Ascii.eqb c (ascii_of_nat 10)); lia.
Qed.

Lemma newlines_unfold (s : string) : newlines (Scan.unfold_lines s) = 0.
Proof.
  induction s as [|c s IH]; [reflexivity|]. cbn [Scan.unfold_lines newlines].
  destruct (Ascii.eqb c (ascii_of_nat 10)) eqn:E; [exact IH | now rewrite E].
Qed.

Lemma length_unfold (s : string) :
  String.length (Scan.unfold_lines s) = String.length s.
Proof. induction s as [|c s IH]; cbn; congruence. Qed.

Lemma fold_unfold (lines : list string) :
  forall res,
    newlines (fold_left (fun res s => res ++ Scan.unfold_lines s) lines res)
    = newlines res /\
    String.length (fold_left (fun res s => res ++ Scan.unfold_lines s) lines res)
    = String.length res + list_sum (map String.length lines).
Proof.
  induction lines as [|s lines IH]; intros res; cbn [fold_left map].
  - cbn. split; [reflexivity | lia].
  - destruct (IH (res ++ Scan.unfold_lines s)) as [-> ->].
    rewrite newlines_app, newlines_unfold, StrFacts.length_app, length_unfold.
    change (list_sum (String.length s :: map String.length lines))
      with (String.length s + list_sum (map String.length lines)).
    split; lia.
Qed.

Lemma fold_concat (lines : list string) :
  forall res,
    fold_left (fun res s => res ++ s) lines res = res ++ String.concat "" lines.
Proof.
  induction lines as [|s lines IH]; intros res; cbn [fold_left].
  - cbn. now rewrite StrFacts.app_nil_r.
  - rewrite IH, StrFacts.app_assoc. f_equal.
    destruct lines as [|s' lines]; cbn [String.concat append].
    + now rewrite StrFacts.app_nil_r.
    + reflexivity.
Qed.

End AssembleFacts.

(** X18.  [assemble] of [scan.py].  With [verb] at 1 the output of a
    command is put on one line after the name of the directory: the
    result ends with a line end and holds no other, provided the name
    holds none, and no character of the output is dropped.  With any
    other [verb] the lines are joined as they are. *)
Theorem assemble_one_line {W : Type} {Py : Python W} (path : string)
    (lines : list string) (verb : Z) :
  newlines (os_path_basename path) = 0 ->
  (verb = 1%Z ->
   exists body,
     Scan.assemble path lines verb = body ++ nl /\
     newlines body = 0 /\
     String.length body
     = String.length (os_path_basename path) + 1
       + list_sum (map String.length lines)) /\
  (verb <> 1%Z -> Scan.assemble path lines verb = String.concat "" lines).
Proof.
  intros Hb. unfold Scan.assemble. split.
  - intros ->. cbn [Z.eqb Pos.eqb].
    exists (fold_left (fun res s => res ++ Scan.unfold_lines s) lines
              (os_path_basename path ++ " ")).
    split; [reflexivity|].
    destruct (fold_unfold lines (os_path_basename path ++ " ")) as [-> ->].
    rewrite newlines_app, StrFacts.length_app, Hb. cbn. split; lia.
  - intros Hv. destruct (verb =? 2)%Z; [apply (fold_concat lines "")|].
    destruct (verb =? 1)%Z eqn:E; [apply Z.eqb_eq in E; congruence|].
    apply (fold_concat lines "").
Qed.

Lemma assemble_one_line_witness :
  (1%Z = 1%Z ->
   exists body,
     Scan.assemble (Py := Mini.python) "run7"
       ["a" ++ newline; "b" ++ newline] 1 = body ++ nl /\
     newlines body = 0 /\
     String.length body = 4 + 1 + 4) /\
  (1%Z <> 1%Z ->
   Scan.assemble (Py := Mini.python) "run7" ["a" ++ newline; "b" ++ newline] 1
   = String.concat "" ["a" ++ newline; "b" ++ newline]).
Proof.
  apply (assemble_one_line (Py := Mini.python) "run7"
           ["a" ++ newline; "b" ++ newline] 1).
  reflexivity.
Defined.

Module WidthFacts.

Lemma length_string_of_uint (d : Decimal.uint) :
  String.length (NilEmpty.string_of_uint d) = DecimalNat.Unsigned.usize d.
Proof. induction d; cbn; congruence. Qed.

Lemma usize_nzhead (d : Decimal.uint) :
  DecimalNat.Unsigned.usize (Decimal.nzhead d) <= DecimalNat.Unsigned.usize d.
Proof. induction d; cbn [Decimal.nzhead DecimalNat.Unsigned.usize]; lia. Qed.

Lemma of_uint_lower (d : Decimal.uint) :
  Decimal.nzhead d = d -> d <> Decimal.Nil ->
  10 ^ (DecimalNat.Unsigned.usize d - 1) <= Nat.of_uint d.
Proof.
  intros Hn Hd. unfold Nat.of_uint.
  destruct d; [congruence| |..];
    try (cbn [Nat.of_uint_acc DecimalNat.Unsigned.usize];
         rewrite DecimalNat.Unsigned.of_uint_acc_spec;
         replace (S (DecimalNat.Unsigned.usize d) - 1)
           with (DecimalNat.Unsigned.usize d) by lia;
         cbn [Nat.tail_mul Nat.tail_addmul]; nia).
  cbn [Decimal.nzhead] in Hn. pose proof (usize_nzhead d) as H.
  rewrite Hn in H. cbn [DecimalNat.Unsigned.usize] in H. lia.
Qed.

Lemma length_of_nat (w n : nat) :
  0 < w -> n < 10 ^ w -> String.length (Str.of_nat n) <= w.
Proof.
  intros Hw Hn. unfold Str.of_nat.
  pose proof (DecimalNat.Unsigned.of_to n) as Hof.
  pose proof (DecimalNat.Unsigned.to_of (Nat.to_uint n)) as Hto.
  rewrite Hof in Hto. set (d := Nat.to_uint n) in *.
  assert (Hcase : d = Decimal.D0 Decimal.Nil \/
                  (Decimal.nzhead d = d /\ d <> Decimal.Nil)).
  { unfold Decimal.unorm in Hto.
    destruct (Decimal.nzhead d) eqn:Ez; [now left | ..];
      right; (split; [congruence | rewrite Hto; discriminate]). }
  destruct Hcase as [->|[Hz Hd]]; [cbn; lia|].
  pose proof (of_uint_lower d Hz Hd) as Hl. rewrite Hof in Hl.
  assert (Hu : DecimalNat.Unsigned.usize d - 1 < w).
  { apply (Nat.pow_lt_mono_r_iff 10); lia. }
  replace (NilZero.string_of_uint d) with (NilEmpty.string_of_uint d)
    by (destruct d; [congruence | reflexivity ..]).
  rewrite length_string_of_uint. lia.
Qed.

Lemma length_zeros (k : nat) : String.length (Str.zeros k) = k.
Proof. induction k as [|k IH]; cbn; congruence. Qed.

Lemma length_zfill (w n : nat) :
  String.length (Str.zfill w n) = Nat.max w (String.length (Str.of_nat n)).
Proof.
  unfold Str.zfill. rewrite StrFacts.length_app, length_zeros. lia.
Qed.

End WidthFacts.

(** X19.  The number in a file name.  It is never shorter than the width
    asked for; while fewer files than 10 to the power of the width, which
    is not zero, have been made, it has exactly that width, so that the
    names of a template all have the same length; and the number can
    always be read back from its digits: two indices never give the same
    name.  (For a motif whose text holds no percent sign.) *)
Theorem file_names_keep_their_width (m : motif) (i : nat) :
  String.length (motif_main m) + motif_width m + String.length (motif_ext m)
  <= String.length (motif_apply m i) /\
  (0 < motif_width m -> i < 10 ^ motif_width m ->
   String.length (motif_apply m i)
   = String.length (motif_main m) + motif_width m + String.length (motif_ext m)) /\
  (forall j, motif_apply m i = motif_apply m j -> i = j).
Proof.
  unfold motif_apply. rewrite !StrFacts.length_app, WidthFacts.length_zfill.
  split; [lia|]. split.
  - intros Hw Hi. pose proof (WidthFacts.length_of_nat _ _ Hw Hi). lia.
  - intros j. apply (NameFacts.motif_apply_inj m i j).
Qed.
